(** * EVPN multihoming fabric builder: topology synthesis and reconciliation

    A shallow embedding of the pure parts of [evpn-mh.py] (role
    resolution, route and comment-directive parsing, network planning,
    port-configuration merge, base-port extraction and optic settings,
    topology synthesis, core ordering, secondary-address allocation and the
    switches of the topology payload), followed by the properties
    established about them.

    Conventions of the embedding.
    - A Python [str] is a Rocq [string]; one character stands for one code
      point below 256, so the order of [String.compare] is Python's order on
      such strings and the character classes below are Python's restricted to
      that range.
    - A [dict] used as a map is a [gmap]; the one dictionary whose iteration
      order decides the result ([ae_groups]) is an association list kept in
      insertion order.
    - A function that may raise returns [result]; the errors carry the
      names the specification gives to the failures.
    - The workbook and the Mist API are outside the embedding.  A function
      that reads a sheet is embedded from the list of its rows on, and a
      row maps a column header to the text of the cell.
    - A row of the INTERFACES sheet is embedded with the cells the data
      model requires (device and port of both ends) filled in. *)

From Stdlib Require Import ZArith NArith Ascii String List Permutation Sorted.
From stdpp Require Import gmap strings list fin_maps pretty.

Local Open Scope string_scope.
Local Open Scope list_scope.

(** ** Python string helpers *)

Module Py.

(** [str.isspace] on one character (code points below 256). *)
Definition isspace (c : ascii) : bool :=
  let n := N_of_ascii c in
  ((9 <=? n) && (n <=? 13) || (28 <=? n) && (n <=? 32)
   || (n =? 133) || (n =? 160))%N.

(** The class [\d] (code points below 256: the ten ASCII digits). *)
Definition isdigit (c : ascii) : bool :=
  let n := N_of_ascii c in ((48 <=? n) && (n <=? 57))%N.

Fixpoint lstrip (s : string) : string :=
  match s with
  | String c s' => if isspace c then lstrip s' else s
  | EmptyString => EmptyString
  end.

Fixpoint rstrip (s : string) : string :=
  match s with
  | EmptyString => EmptyString
  | String c s' =>
      match rstrip s' with
      | EmptyString => if isspace c then EmptyString else String c EmptyString
      | r => String c r
      end
  end.

(** [s.strip()] *)
Definition strip (s : string) : string := rstrip (lstrip s).

(** [s.split()] with no separator: the maximal runs of non-space
    characters; [tok] is the run being read. *)
Fixpoint split_from (tok s : string) : list string :=
  match s with
  | EmptyString => if decide (tok = "") then [] else [tok]
  | String c s' =>
      if isspace c
      then (if decide (tok = "") then split_from "" s'
            else tok :: split_from "" s')
      else split_from (tok +:+ String c "") s'
  end.

Definition split (s : string) : list string := split_from "" s.

(** [c in s] for a one-character [c]. *)
Fixpoint contains (c : ascii) (s : string) : bool :=
  match s with
  | EmptyString => false
  | String d s' => if Ascii.eqb c d then true else contains c s'
  end.

(** [s.split(sep, 1)] for a one-character separator: the list [[s]] when
    [sep] does not occur, and otherwise the text before the first [sep]
    and the text after it. *)
Fixpoint split1 (sep : ascii) (s : string) : list string :=
  match s with
  | EmptyString => [EmptyString]
  | String d s' =>
      if Ascii.eqb sep d then [EmptyString; s']
      else match split1 sep s' with
           | hd :: tl => String d hd :: tl
           | [] => [String d EmptyString]
           end
  end.

(** [all(p(c) for c in s)] *)
Fixpoint string_forall (p : ascii → bool) (s : string) : bool :=
  match s with
  | EmptyString => true
  | String c s' => p c && string_forall p s'
  end.

(** [sep.join(l)] *)
Fixpoint join (sep : string) (l : list string) : string :=
  match l with
  | [] => ""
  | [x] => x
  | x :: rest => x +:+ sep +:+ join sep rest
  end.

(** [a < b] on strings. *)
Definition lt (a b : string) : bool :=
  match String.compare a b with Lt => true | _ => false end.

(** [sorted(l)] resp. [l.sort()] for a comparison [ltb] that plays the
    role of [<]: a stable insertion sort, which only asks whether an
    element already placed is strictly smaller than the new one. *)
Section Sort.
Context {A : Type} (ltb : A → A → bool).

Fixpoint insert_sorted (x : A) (l : list A) : list A :=
  match l with
  | [] => [x]
  | y :: l' => if ltb y x then y :: insert_sorted x l' else x :: l
  end.

Fixpoint sorted (l : list A) : list A :=
  match l with
  | [] => []
  | x :: l' => insert_sorted x (sorted l')
  end.
End Sort.

(** [str.lower] on one character (code points below 256): the letters
    [A]-[Z] and the Latin-1 capitals, which lie 32 below their small
    forms. *)
Definition lower_char (c : ascii) : ascii :=
  let n := N_of_ascii c in
  if ((65 <=? n) && (n <=? 90)
      || (192 <=? n) && (n <=? 222) && negb (n =? 215))%N
  then ascii_of_N (n + 32) else c.

(** [s.lower()] *)
Fixpoint lower (s : string) : string :=
  match s with
  | EmptyString => EmptyString
  | String c s' => String (lower_char c) (lower s')
  end.

(** [s[n:]] *)
Fixpoint drop (n : nat) (s : string) : string :=
  match n, s with
  | S n', String _ s' => drop n' s'
  | _, _ => s
  end.

(** The text before and the text after the first occurrence of a
    non-empty [sep] in [s]; [None] when [sep] does not occur. *)
Fixpoint partition (sep s : string) : option (string * string) :=
  match s with
  | EmptyString => None
  | String c s' =>
      if String.prefix sep s then Some (EmptyString, drop (String.length sep) s)
      else match partition sep s' with
           | Some (before, after) => Some (String c before, after)
           | None => None
           end
  end.

(** [sep in s] for a non-empty [sep]. *)
Definition contains_str (sep s : string) : bool :=
  bool_decide (is_Some (partition sep s)).

(** [s.split(sep, 1)] for a non-empty [sep]. *)
Definition split_str1 (sep s : string) : list string :=
  match partition sep s with
  | Some (before, after) => [before; after]
  | None => [s]
  end.

(** [s.split(sep)] for a one-character separator. *)
Fixpoint split_on (sep : ascii) (s : string) : list string :=
  match s with
  | EmptyString => [EmptyString]
  | String d s' =>
      if Ascii.eqb sep d then EmptyString :: split_on sep s'
      else match split_on sep s' with
           | hd :: tl => String d hd :: tl
           | [] => [String d EmptyString]
           end
  end.

(** [s.replace(old, "")] for a one-character [old]. *)
Fixpoint remove_char (old : ascii) (s : string) : string :=
  match s with
  | EmptyString => EmptyString
  | String c s' =>
      if Ascii.eqb old c then remove_char old s' else String c (remove_char old s')
  end.

End Py.

(** ** Failures *)

Inductive Error :=
  | TopologyUnderspecifiedError
  | AggregationGroupSizeError (ae : Z) (found : nat)
  | PortConflictError (core_dev core_port : string)
  | KeyError (key : string)
  | IndexError
  | InvalidAddressError (text : string)
  | AddressValueError.

Inductive result (A : Type) :=
  | Ok (a : A)
  | Raise (e : Error).
Arguments Ok {A} a.
Arguments Raise {A} e.

#[global] Instance result_ret : MRet result := λ A a, Ok a.
#[global] Instance result_bind : MBind result := λ A B f m,
  match m with
  | Ok a => f a
  | Raise e => Raise e
  end.

(** ** ConfigReconciler: [_merge_port_configs] *)

Section Merge.
Context {V : Type}.

(** [for k, v in src.items(): dst[k] = v] *)
Definition copy_items (src dst : gmap string V) : gmap string V :=
  map_fold (λ port_name port_cfg acc, <[port_name := port_cfg]> acc) dst src.

Definition _merge_port_configs
    (current_port_config new_evpn_ports : gmap string V)
    (esi_lag_name : string) : gmap string V :=
  let merged_config := ∅ in
  let merged_config := copy_items current_port_config merged_config in
  let merged_config := copy_items new_evpn_ports merged_config in
  merged_config.
End Merge.

(** ** PortConfigBuilder: base-port extraction

    [get_base_port] applies [re.match] with the pattern
    [^([^:]+)(?::\d+)?$].  The pattern is kept as data and run by a small
    backtracking matcher with Python's preferences: [+] and [?] are greedy
    and the first successful alternative is the match. *)

Module Re.

Inductive regex :=
  | Bos                          (* ^ *)
  | Eos                          (* $ *)
  | Chr (c : ascii)              (* a literal character *)
  | Plus (cls : ascii → bool)    (* cls+ *)
  | Cat (r1 r2 : regex)
  | Opt (r : regex)              (* (?:r)? *)
  | Grp (r : regex).             (* (r), capture group 1 *)

(** What a successful match reports: the text of group 1, when the group
    took part in the match. *)
Definition groups := option string.

Definition newline : ascii := "010"%char.

(** [cls+] at position [pos]: the longest run first, then shorter ones. *)
Fixpoint plus_go (cls : ascii → bool) (pos : nat) (rest : string)
    (k : nat → string → option groups) : option groups :=
  match rest with
  | String c rest' =>
      if cls c then
        match plus_go cls (S pos) rest' k with
        | Some m => Some m
        | None => k (S pos) rest'
        end
      else None
  | EmptyString => None
  end.

(** [rmatch r pos rest g k]: match [r] against [rest], which starts at
    offset [pos] of the subject, then continue with [k]. *)
Fixpoint rmatch (r : regex) (pos : nat) (rest : string) (g : groups)
    (k : nat → string → groups → option groups) : option groups :=
  match r with
  | Bos => if decide (pos = 0) then k pos rest g else None
  | Eos =>
      (* the end of the subject, or just before a newline that ends it *)
      if decide (rest = "" ∨ rest = String newline "")
      then k pos rest g else None
  | Chr c =>
      match rest with
      | String d rest' => if Ascii.eqb c d then k (S pos) rest' g else None
      | EmptyString => None
      end
  | Plus cls => plus_go cls pos rest (λ pos' rest', k pos' rest' g)
  | Cat r1 r2 =>
      rmatch r1 pos rest g (λ pos' rest' g', rmatch r2 pos' rest' g' k)
  | Opt r1 =>
      match rmatch r1 pos rest g k with
      | Some m => Some m
      | None => k pos rest g
      end
  | Grp r1 =>
      rmatch r1 pos rest g
        (λ pos' rest' _, k pos' rest' (Some (String.substring 0 (pos' - pos) rest)))
  end.

(** [re.match(r, s)]: [None] when there is no match. *)
Definition re_match (r : regex) (s : string) : option groups :=
  rmatch r 0 s None (λ _ _ g, Some g).

End Re.

Definition not_colon (c : ascii) : bool := negb (Ascii.eqb c ":").

(** [r'^([^:]+)(?::\d+)?$'] *)
Definition base_port_pattern : Re.regex :=
  Re.Cat Re.Bos
    (Re.Cat (Re.Grp (Re.Plus not_colon))
       (Re.Cat (Re.Opt (Re.Cat (Re.Chr ":") (Re.Plus Py.isdigit))) Re.Eos)).

Definition get_base_port (port_name : string) : string :=
  if decide (port_name = "") then port_name
  else match Re.re_match base_port_pattern port_name with
       | Some m =>
           (* [match.group(1)]; the group takes part in every match of this
              pattern, the fall-back is never used *)
           default port_name m
       | None => port_name
       end.

(** ** The [ipaddress] library

    Addresses are the integers the library stores.  The two textual
    services the program calls ([ip_network] / [ip_interface] on a cell's
    text, [str] on an address) are the library's; the program is embedded
    over any implementation of them.  An IPv6 text may name a zone after a
    percent sign ([fe80::1%eth0]); the interface keeps it as its scope id. *)

Inductive IPAddress :=
  | IPv4Address (n : Z)
  | IPv6Address (n : Z).

(** [IPv4Interface] / [IPv6Interface]: a host address with a prefix
    length.  [ip] is [i.ip], the address without a scope id; [scope_id] is
    the zone of the text the interface was read from, if it had one. *)
Record IPInterface := {
  ip : IPAddress;
  prefixlen : Z;
  scope_id : option string
}.

(** [_ALL_ONES] of the address class. *)
Definition all_ones (a : IPAddress) : Z :=
  match a with
  | IPv4Address _ => 2 ^ 32 - 1
  | IPv6Address _ => 2 ^ 128 - 1
  end.

Definition to_int (a : IPAddress) : Z :=
  match a with IPv4Address n | IPv6Address n => n end.

Definition of_int (a : IPAddress) (n : Z) : IPAddress :=
  match a with
  | IPv4Address _ => IPv4Address n
  | IPv6Address _ => IPv6Address n
  end.

(** [a + other]: the constructor of the same class applied to the sum; it
    rejects an integer outside the class's range. *)
Definition address_add (a : IPAddress) (other : Z) : result IPAddress :=
  let n := (to_int a + other)%Z in
  if decide (0 ≤ n ≤ all_ones a)%Z then Ok (of_int a n) else Raise AddressValueError.

(** [i.network.netmask] *)
Definition netmask (i : IPInterface) : IPAddress :=
  of_int (ip i)
    (Z.lxor (all_ones (ip i)) (Z.shiftr (all_ones (ip i)) (prefixlen i))).

Class Ipaddress := {
  (** whether [ipaddress.ip_network(text, strict=False)] returns *)
  ip_network_ok : string → bool;
  (** [ipaddress.ip_interface(text)], [None] when it raises *)
  ip_interface : string → option IPInterface;
  (** [str(address)] of an address without a scope id *)
  str_address : IPAddress → string
}.

(** [i.network.network_address] with its scope id.  The network is built
    from the text of the interface with [strict=False]: its address is that
    of the text, scope id included, unless a host bit is set; then it is the
    address of the masked integer, which has no scope id. *)
Definition network_address (i : IPInterface) : IPAddress * option string :=
  let packed := to_int (ip i) in
  let masked := Z.land packed (to_int (netmask i)) in
  if decide (masked ≠ packed) then (of_int (ip i) masked, None)
  else (ip i, scope_id i).

(** [str(address)] of an address with its scope id: the zone follows a
    percent sign. *)
Definition str_scoped `{Ipaddress} (a : IPAddress * option string) : string :=
  match a.2 with
  | Some zone =>
      if decide (zone = "") then str_address a.1
      else str_address a.1 +:+ "%" +:+ zone
  | None => str_address a.1
  end.

(** ** NetworkPlanner: [_parse_static_routes] *)

Record Route := { via : string }.

Section StaticRoutes.
Context `{Ipaddress}.

(** The body of [for pair in pairs]; the flag tells that [ip_network]
    raised, which leaves the loop for the [except] clause with [result]
    as filled so far. *)
Fixpoint parse_pairs (pairs : list string) (result : gmap string Route)
    : gmap string Route * bool :=
  match pairs with
  | [] => (result, false)
  | pair0 :: pairs' =>
      let pair1 := Py.strip pair0 in
      if bool_decide (pair1 = "") || negb (Py.contains "@" pair1)
      then parse_pairs pairs' result
      else
        match Py.split1 "@" pair1 with
        | [p0; p1] =>
            let route := Py.strip p0 in
            let nexthop := Py.strip p1 in
            if bool_decide (route = "") || bool_decide (nexthop = "")
            then parse_pairs pairs' result
            else if ip_network_ok route
            then parse_pairs pairs' (<[route := {| via := nexthop |}]> result)
            else (result, true)
        | _ => parse_pairs pairs' result
        end
  end.

Definition _parse_static_routes (routes_str : option string)
    : gmap string Route :=
  let result : gmap string Route := ∅ in
  match routes_str with
  | None => result
  | Some routes_str =>
      if decide (routes_str = "") then result
      else
        let routes_str := Py.strip routes_str in
        if decide (routes_str = "") then result
        else
          let pairs := Py.split routes_str in
          (* [except Exception]: a warning is printed, [result] is kept *)
          fst (parse_pairs pairs result)
  end.
End StaticRoutes.

(** ** AddressOffsetAllocator: [make_other_ip_configs]

    A row of the NETWORKS sheet maps a column header to the cell's text; an
    empty cell has no binding. *)

Section OtherIp.
Context `{Ipaddress}.

Definition parse_interface (text : string) : result IPInterface :=
  match ip_interface text with
  | Some i => Ok i
  | None => Raise (InvalidAddressError text)
  end.

(** The [entry] built for one row. *)
Definition other_ip_entry (offset : Z) (net : gmap string string)
    : result (gmap string string) :=
  let entry : gmap string string := ∅ in
  let gw4 := default "" (net !! "GATEWAY") in
  let gw6 := default "" (net !! "GATEWAY6") in
  entry ←
    (if decide (gw4 = "") then mret entry
     else
       i4 ← parse_interface gw4;
       ip4 ← address_add (ip i4) offset;
       mret (<["netmask" := str_address (netmask i4)]>
               (<["ip" := str_address ip4]> (<["type" := "static"]> entry))));
  entry ←
    (if decide (gw6 = "") then mret entry
     else
       i6 ← parse_interface gw6;
       ip6 ← address_add (ip i6) offset;
       mret (<["netmask6" := "/" +:+ pretty (prefixlen i6)]>
               (<["ip6" := str_address ip6]> (<["type6" := "static"]> entry))));
  mret entry.

Fixpoint other_ip_loop (offset : Z) (networks_rows : list (gmap string string))
    (cfg : gmap string (gmap string string))
    : result (gmap string (gmap string string)) :=
  match networks_rows with
  | [] => mret cfg
  | net :: rows' =>
      let name := Py.strip (default "" (net !! "NETWORKNAME")) in
      if decide (name = "") then other_ip_loop offset rows' cfg
      else
        entry ← other_ip_entry offset net;
        if decide (entry = ∅) then other_ip_loop offset rows' cfg
        else other_ip_loop offset rows' (<[name := entry]> cfg)
  end.

Definition make_other_ip_configs (networks_rows : list (gmap string string))
    (offset : Z) : result (gmap string (gmap string string)) :=
  other_ip_loop offset networks_rows ∅.
End OtherIp.

(** ** TopologySynthesizer: [_build_topology] *)

(** One row of the INTERFACES sheet.  Device and port of both ends are
    required by the data model and are text; roles, aggregation id and the
    media settings are optional.  The record stands for the rows in which
    these four cells are filled in.  ([_parse_interfaces] yields [None] for
    an empty cell of a port or of the destination device; a row with such a
    cell is not an [InterfaceLink], and what the program does with one, the
    failure of the sort of the core links at a missing port in particular,
    is not described here.) *)
Record InterfaceLink := {
  src_device : string;
  src_role : option string;
  src_int : string;
  dst_device : string;
  dst_role : option string;
  dst_int : string;
  ae_idx : option Z;
  speed : option string;
  channelized : option bool
}.

(** The value stored for a port: a dictionary with the key [usage] and some
    of [aggregated], [esilag], [ae_idx], [link_name]. *)
Record PortConfigEntry := {
  usage : string;
  aggregated : option bool;
  esilag : option bool;
  entry_ae_idx : option Z;
  link_name : option string
}.

Record CoreLink := {
  core1 : string;
  port1 : string;
  core2 : string;
  port2 : string
}.

#[global] Instance PortConfigEntry_eq_dec : EqDecision PortConfigEntry.
Proof. solve_decision. Defined.
#[global] Instance CoreLink_eq_dec : EqDecision CoreLink.
Proof. solve_decision. Defined.
#[global] Instance InterfaceLink_eq_dec : EqDecision InterfaceLink.
Proof. solve_decision. Defined.
#[global] Instance Error_eq_dec : EqDecision Error.
Proof. solve_decision. Defined.

Definition esi_lag_core_entry (ae : Z) : PortConfigEntry :=
  {| usage := "EVPN-ESI-LAG"; aggregated := Some true; esilag := Some true;
     entry_ae_idx := Some ae; link_name := None |}.

Definition esi_lag_access_entry (ae : Z) : PortConfigEntry :=
  {| usage := "EVPN-ESI-LAG"; aggregated := Some true; esilag := None;
     entry_ae_idx := Some ae; link_name := None |}.

Definition link_entry (usage_name : string) (i : nat) : PortConfigEntry :=
  {| usage := usage_name; aggregated := None; esilag := None;
     entry_ae_idx := None; link_name := Some ("link" +:+ pretty i) |}.

(** A (device, port) end of a link and the [frozenset] of the two ends. *)
Definition endpoint : Type := string * string.

Definition link_key (a b : endpoint) : gset endpoint := {[a; b]}.

(** [device_roles.get(d) == "collapsed-core"] *)
Definition is_core (device_roles : gmap string string) (d : string) : bool :=
  bool_decide (device_roles !! d = Some "collapsed-core").

(** [[d for d, r in device_roles.items() if r == "collapsed-core"]] *)
Definition core_role_devices (device_roles : gmap string string) : list string :=
  (filter (λ dr, dr.2 = "collapsed-core") (map_to_list device_roles)).*1.

(** The first loop: core-to-core links, one per [frozenset] of ends. *)
Fixpoint core_links_loop (core_devices : list string)
    (entries : list InterfaceLink) (seen : gset (gset endpoint))
    (core_links : list CoreLink) : list CoreLink :=
  match entries with
  | [] => core_links
  | e :: entries' =>
      if bool_decide (src_device e ∈ core_devices)
         && bool_decide (dst_device e ∈ core_devices)
      then
        let a := (src_device e, src_int e) in
        let b := (dst_device e, dst_int e) in
        let key := link_key a b in
        if decide (key ∈ seen) then core_links_loop core_devices entries' seen core_links
        else
          core_links_loop core_devices entries' ({[key]} ∪ seen)
            (core_links ++ [{| core1 := src_device e; port1 := src_int e;
                               core2 := dst_device e; port2 := dst_int e |}])
      else core_links_loop core_devices entries' seen core_links
  end.

(** [ae_groups.setdefault(ae, []).append(e)] on a dictionary kept in
    insertion order. *)
Fixpoint setdefault_append (ae : Z) (e : InterfaceLink)
    (ae_groups : list (Z * list InterfaceLink)) : list (Z * list InterfaceLink) :=
  match ae_groups with
  | [] => [(ae, [e])]
  | (k, conns) :: rest =>
      if decide (k = ae) then (k, conns ++ [e]) :: rest
      else (k, conns) :: setdefault_append ae e rest
  end.

(** The second loop: the aggregation legs, grouped by aggregation id. *)
Fixpoint group_legs (device_roles : gmap string string)
    (entries : list InterfaceLink) (ae_groups : list (Z * list InterfaceLink))
    : list (Z * list InterfaceLink) :=
  match entries with
  | [] => ae_groups
  | e :: entries' =>
      match ae_idx e with
      | None => group_legs device_roles entries' ae_groups
      | Some ae =>
          let s_is_core := is_core device_roles (src_device e) in
          let d_is_core := is_core device_roles (dst_device e) in
          if xorb s_is_core d_is_core
          then group_legs device_roles entries' (setdefault_append ae e ae_groups)
          else group_legs device_roles entries' ae_groups
      end
  end.

(** [core_port_config[dev][port] = v] *)
Definition set_port (core_port_config : gmap string (gmap string PortConfigEntry))
    (dev port : string) (v : PortConfigEntry)
    : result (gmap string (gmap string PortConfigEntry)) :=
  match core_port_config !! dev with
  | Some ports => Ok (<[dev := <[port := v]> ports]> core_port_config)
  | None => Raise (KeyError dev)
  end.

(** The core end and the access end of a leg:
    [(core_dev, core_port, access_dev, access_port)]. *)
Definition leg_ends (device_roles : gmap string string) (c : InterfaceLink)
    : string * string * string * string :=
  if is_core device_roles (src_device c)
  then (src_device c, src_int c, dst_device c, dst_int c)
  else (dst_device c, dst_int c, src_device c, src_int c).

(** [for c in conns]; [access_dev] is [None] before the first leg. *)
Fixpoint process_conns (device_roles : gmap string string) (ae : Z)
    (conns : list InterfaceLink)
    (core_port_config : gmap string (gmap string PortConfigEntry))
    (access_dev : option string) (access_ports : list string)
    : result (gmap string (gmap string PortConfigEntry) * option string * list string) :=
  match conns with
  | [] => mret (core_port_config, access_dev, access_ports)
  | c :: conns' =>
      let '(core_dev, core_port, access_dev', access_port) := leg_ends device_roles c in
      match core_port_config !! core_dev with
      | None => Raise (KeyError core_dev)
      | Some ports =>
          if decide (is_Some (ports !! core_port))
          then Raise (PortConflictError core_dev core_port)
          else
            process_conns device_roles ae conns'
              (<[core_dev := <[core_port := esi_lag_core_entry ae]> ports]> core_port_config)
              (Some access_dev') (access_ports ++ [access_port])
      end
  end.

(** [",".join(sorted({p for p in access_ports if p}))] *)
Definition bundle_port_key (access_ports : list string) : string :=
  Py.join ","
    (Py.sorted Py.lt
       (elements (list_to_set (filter (λ p, p ≠ "") access_ports) : gset string))).

(** [for ae, conns in ae_groups.items()] *)
Fixpoint process_groups (device_roles : gmap string string)
    (ae_groups : list (Z * list InterfaceLink))
    (core_port_config : gmap string (gmap string PortConfigEntry))
    (access_port_config : gmap string (gmap string PortConfigEntry))
    : result (gmap string (gmap string PortConfigEntry)
              * gmap string (gmap string PortConfigEntry)) :=
  match ae_groups with
  | [] => mret (core_port_config, access_port_config)
  | (ae, conns) :: groups' =>
      if decide (length conns ≠ 2)
      then Raise (AggregationGroupSizeError ae (length conns))
      else
        '(core_port_config', access_dev, access_ports) ←
          process_conns device_roles ae conns core_port_config None [];
        let port_key := bundle_port_key access_ports in
        let access_port_config' :=
          match access_dev with
          | Some d => <[d := {[port_key := esi_lag_access_entry ae]}]> access_port_config
          | None => access_port_config   (* no leg: excluded by the size check *)
          end in
        process_groups device_roles groups' core_port_config' access_port_config'
  end.

(** Comparison of the sort keys [(core1, core2, port1, port2)]: the first
    component that differs decides. *)
Definition lex (c1 c2 : comparison) : comparison :=
  match c1 with Eq => c2 | _ => c1 end.

Definition link_compare (x y : CoreLink) : comparison :=
  lex (String.compare (core1 x) (core1 y))
    (lex (String.compare (core2 x) (core2 y))
       (lex (String.compare (port1 x) (port1 y))
          (String.compare (port2 x) (port2 y)))).

Definition link_lt (x y : CoreLink) : bool :=
  match link_compare x y with Lt => true | _ => false end.

(** What iteration [i] of the last loop writes: first the entry of
    [core1]'s port, then the entry of [core2]'s port. *)
Definition link_usages (i : nat) : string * string :=
  if decide (i mod 2 = 1) then ("evpn_downlink", "evpn_uplink")
  else ("evpn_uplink", "evpn_downlink").

(** [for i, l in enumerate(sorted_links, start=i)] *)
Fixpoint assign_links (i : nat) (links : list CoreLink)
    (core_port_config : gmap string (gmap string PortConfigEntry))
    : result (gmap string (gmap string PortConfigEntry)) :=
  match links with
  | [] => mret core_port_config
  | l :: links' =>
      let '(u1, u2) := link_usages i in
      cfg ← set_port core_port_config (core1 l) (port1 l) (link_entry u1 i);
      cfg ← set_port cfg (core2 l) (port2 l) (link_entry u2 i);
      assign_links (S i) links' cfg
  end.

Definition _build_topology (entries : list InterfaceLink)
    (device_roles : gmap string string)
    : result (list CoreLink
              * gmap string (gmap string PortConfigEntry)
              * gmap string (gmap string PortConfigEntry)) :=
  let core_devices := core_role_devices device_roles in
  if decide (length core_devices < 2) then Raise TopologyUnderspecifiedError
  else
    let core_devices := Py.sorted Py.lt core_devices in
    let core_links := core_links_loop core_devices entries ∅ [] in
    let access_port_config : gmap string (gmap string PortConfigEntry) := ∅ in
    let core_port_config : gmap string (gmap string PortConfigEntry) :=
      list_to_map ((λ c, (c, ∅)) <$> core_devices) in
    let ae_groups := group_legs device_roles entries [] in
    '(core_port_config, access_port_config) ←
      process_groups device_roles ae_groups core_port_config access_port_config;
    core_port_config ←
      assign_links 1 (Py.sorted link_lt core_links) core_port_config;
    mret (core_links, core_port_config, access_port_config).

(** ** [create_fabric]: core order, offsets, and the mode gate *)

(** [sorted([d for d, r in roles.items() if r == "collapsed-core"])],
    followed by the check of the count. *)
Definition create_fabric_core_devices (roles : gmap string string)
    : result (list string) :=
  let core_devices := Py.sorted Py.lt (core_role_devices roles) in
  if decide (length core_devices < 2) then Raise TopologyUnderspecifiedError
  else Ok core_devices.

(** [{core_devices[0]: 1, core_devices[1]: 2}] *)
Definition core_offsets (core_devices : list string) : result (gmap string Z) :=
  match core_devices !! 0%nat, core_devices !! 1%nat with
  | Some c0, Some c1 => Ok (<[c1 := 2%Z]> (<[c0 := 1%Z]> ∅))
  | _, _ => Raise IndexError
  end.

(** [core_offsets.get(name, 1)] for the cores of [roles]. *)
Definition core_offset (roles : gmap string string) (name : string) : result Z :=
  core_devices ← create_fabric_core_devices roles;
  offsets ← core_offsets core_devices;
  mret (default 1%Z (offsets !! name)).

Inductive Mode := CREATE | UPDATE.

(** The port configuration sent for a device. *)
Definition final_port_config {V : Type} (mode : Mode)
    (current_port_config new_port_config : gmap string V)
    (esi_lag_name : string) : gmap string V :=
  match mode with
  | UPDATE => _merge_port_configs current_port_config new_port_config esi_lag_name
  | CREATE => new_port_config
  end.

(** ** RoleResolver: [_roles_from_interfaces] *)

(** The failure of the role check: the device, the role recorded for it and
    the role a later end lists. *)
Inductive RoleConflict :=
  | ConflictingRoles (dev recorded listed : string).

#[global] Instance RoleConflict_eq_dec : EqDecision RoleConflict.
Proof. solve_decision. Defined.

(** The two (device, role) ends of a record, source first.  A role cell may
    be absent; an absent cell and an empty text are both falsy. *)
Definition role_ends (e : InterfaceLink) : list (string * option string) :=
  [(src_device e, src_role e); (dst_device e, dst_role e)].

(** The body of the inner loop for one end. *)
Definition record_role (roles : gmap string string)
    (dev : string) (role : option string) : RoleConflict + gmap string string :=
  match role with
  | None => inr roles
  | Some role =>
      if bool_decide (dev = "") || bool_decide (role = "") then inr roles
      else
        match roles !! dev with
        | Some recorded =>
            if decide (recorded ≠ role)
            then inl (ConflictingRoles dev recorded role)
            else inr (<[dev := role]> roles)
        | None => inr (<[dev := role]> roles)
        end
  end.

(** [for dev, role in (...)] *)
Fixpoint record_roles (ends : list (string * option string))
    (roles : gmap string string) : RoleConflict + gmap string string :=
  match ends with
  | [] => inr roles
  | (dev, role) :: ends' =>
      match record_role roles dev role with
      | inl conflict => inl conflict
      | inr roles' => record_roles ends' roles'
      end
  end.

(** [for e in entries] *)
Fixpoint roles_loop (entries : list InterfaceLink) (roles : gmap string string)
    : RoleConflict + gmap string string :=
  match entries with
  | [] => inr roles
  | e :: entries' =>
      match record_roles (role_ends e) roles with
      | inl conflict => inl conflict
      | inr roles' => roles_loop entries' roles'
      end
  end.

Definition _roles_from_interfaces (entries : list InterfaceLink)
    : RoleConflict + gmap string string :=
  roles_loop entries ∅.

(** ** PortConfigBuilder: [_build_optic_port_config] *)

(** The value stored for a base port: a dictionary with some of the keys
    [speed] and [channelized]. *)
Record OpticConfigEntry := {
  optic_speed : option string;
  optic_channelized : option bool
}.

#[global] Instance OpticConfigEntry_eq_dec : EqDecision OpticConfigEntry.
Proof. solve_decision. Defined.

(** The [config_entry] built from the settings of a record: a key is set
    when its setting is not [None]. *)
Definition config_entry (speed : option string) (channelized : option bool)
    : OpticConfigEntry :=
  {| optic_speed := speed; optic_channelized := channelized |}.

(** [{}] *)
Definition empty_config_entry : OpticConfigEntry :=
  {| optic_speed := None; optic_channelized := None |}.

(** The block run for one end of a record, [# Process source
    device/interface] resp. [# Process destination device/interface]. *)
Definition optic_end (speed : option string) (channelized : option bool)
    (dev port : string) (optic_config : gmap string (gmap string OpticConfigEntry))
    : gmap string (gmap string OpticConfigEntry) :=
  if bool_decide (dev ≠ "") && bool_decide (port ≠ "") then
    let base_port := get_base_port port in
    let optic_config :=
      if decide (is_Some (optic_config !! dev)) then optic_config
      else <[dev := ∅]> optic_config in
    let ports := default ∅ (optic_config !! dev) in
    if decide (is_Some (ports !! base_port)) then optic_config
    else
      let entry := config_entry speed channelized in
      if decide (entry ≠ empty_config_entry)
      then <[dev := <[base_port := entry]> ports]> optic_config
      else optic_config
  else optic_config.

(** [for e in entries] *)
Fixpoint optic_loop (entries : list InterfaceLink)
    (optic_config : gmap string (gmap string OpticConfigEntry))
    : gmap string (gmap string OpticConfigEntry) :=
  match entries with
  | [] => optic_config
  | e :: entries' =>
      if bool_decide (speed e = None) && bool_decide (channelized e = None)
      then optic_loop entries' optic_config
      else
        let optic_config :=
          optic_end (speed e) (channelized e) (src_device e) (src_int e) optic_config in
        let optic_config :=
          optic_end (speed e) (channelized e) (dst_device e) (dst_int e) optic_config in
        optic_loop entries' optic_config
  end.

Definition _build_optic_port_config (entries : list InterfaceLink)
    (device_roles : gmap string string)
    : gmap string (gmap string OpticConfigEntry) :=
  optic_loop entries ∅.

(** ** NetworkPlanner: [_parse_network_comment_directives] *)

Section Directives.
Context `{Ipaddress}.

(** The body of [for p in parts]; the flag tells that the loop was left
    for the [except] clause, with [r4] and [r6] as filled so far. *)
Fixpoint directives_loop (parts : list string) (r4 r6 : gmap string Route)
    : gmap string Route * gmap string Route * bool :=
  match parts with
  | [] => (r4, r6, false)
  | p :: parts' =>
      if Py.contains_str " via " p then
        match Py.strip <$> Py.split_str1 " via " p with
        | [prefix; nh] =>
            let prefix :=
              if String.prefix "default" (Py.lower prefix) then "0.0.0.0/0"
              else prefix in
            if Py.contains ":" prefix then
              if ip_network_ok prefix
              then directives_loop parts' r4 (<[prefix := {| via := nh |}]> r6)
              else (r4, r6, true)
            else
              if ip_network_ok prefix
              then directives_loop parts' (<[prefix := {| via := nh |}]> r4) r6
              else (r4, r6, true)
        | _ => (r4, r6, true)
        end
      else directives_loop parts' r4 r6
  end.

Definition _parse_network_comment_directives (comment : option string)
    : gmap string Route * gmap string Route :=
  let r4 : gmap string Route := ∅ in
  let r6 : gmap string Route := ∅ in
  match comment with
  | None => (r4, r6)
  | Some comment =>
      if decide (comment = "") then (r4, r6)
      else
        let parts :=
          filter (λ p, p ≠ "") (Py.strip <$> Py.split_on ";" comment) in
        (* [except Exception: pass] *)
        fst (directives_loop parts r4 r6)
  end.
End Directives.

(** ** NetworkPlanner: [_i] and [_parse_networks] *)

(** Python's number parsing of a text, as [_i] calls it. *)
Class Numbers := {
  (** [int(text)], [None] when it raises *)
  int_of_text : string → option Z;
  (** [int(float(text))], [None] when one of the two calls raises *)
  int_of_float_text : string → option Z
}.

(** Whether a cell is truthy: it is there and its text is not empty. *)
Definition truthy (cell : option string) : bool :=
  match cell with
  | Some text => bool_decide (text ≠ "")
  | None => false
  end.

(** [_i(v, default)] for a cell read as text: the integer, or [default]. *)
Definition _i `{Numbers} {D : Type} (v : option string) (default : D) : Z + D :=
  match v with
  | None => inr default
  | Some text =>
      if decide (text = "") then inr default
      else
        match int_of_text text with
        | Some n => inl n
        | None =>
            match int_of_float_text text with
            | Some n => inl n
            | None => inr default
            end
        end
  end.

(** The entry of a network in the site settings: a dictionary with the keys
    [vlan_id], [subnet], [subnet6] and, when there is one, [gateway] and
    [gateway6].  The VLAN id is an integer, or the cell as it was. *)
Record SiteNetwork := {
  vlan_id : Z + option string;
  subnet : string;
  subnet6 : string;
  gateway : option string;
  gateway6 : option string
}.

(** A VRF instance: [networks], [v4_routing], [v6_routing] and, when the
    VRF has routes, [extra_routes] and [extra_routes6]. *)
Record VrfInstance := {
  networks : list string;
  v4_routing : bool;
  v6_routing : bool;
  extra_routes : option (gmap string Route);
  extra_routes6 : option (gmap string Route)
}.

(** The dictionaries and the list that the loop over the rows fills. *)
Record Planned := {
  site_networks : gmap string SiteNetwork;
  vrf_instances : gmap string VrfInstance;
  network_name_list : list string;
  extra_v4 : gmap string (gmap string Route);
  extra_v6 : gmap string (gmap string Route)
}.

(** [extra.setdefault(vrf, {}).update(routes)] *)
Definition update_routes (vrf : string) (routes : gmap string Route)
    (extra : gmap string (gmap string Route)) : gmap string (gmap string Route) :=
  <[vrf := routes ∪ default ∅ (extra !! vrf)]> extra.

Section Networks.
Context `{Ipaddress} `{Numbers}.

(** [vlan_id = _i(vlan_raw, default=vlan_raw)], then the attempt
    [vlan_id = int(vlan_id)], which keeps the value when it raises. *)
Definition vlan_id_of (vlan_raw : option string) : Z + option string :=
  match _i vlan_raw vlan_raw with
  | inl n => inl n
  | inr None => inr None
  | inr (Some text) =>
      match int_of_text text with
      | Some n => inl n
      | None => inr (Some text)
      end
  end.

(** The subnet text and the gateway text of a gateway cell; two empty
    texts for a falsy cell. *)
Definition gateway_texts (gw : string) : result (string * string) :=
  if decide (gw = "") then mret ("", "")
  else
    i ← parse_interface gw;
    mret (str_scoped (network_address i) +:+ "/" +:+ pretty (prefixlen i),
          str_address (ip i)).

(** The body of [for net in rows]. *)
Definition networks_row (net : gmap string string) (st : Planned) : result Planned :=
  let name := Py.strip (default "" (net !! "NETWORKNAME")) in
  if decide (name = "") then mret st
  else
    let network_name_list := network_name_list st ++ [name] in
    let vlan_raw := net !! "VLAN_ID" in
    let vlan_id := vlan_id_of vlan_raw in
    let vrf := Py.strip (default "" (net !! "VRF")) in
    let gw4 := default "" (net !! "GATEWAY") in
    let gw6 := default "" (net !! "GATEWAY6") in
    let static_routes_v4_str := net !! "STATIC_ROUTESv4" in
    let static_routes_v6_str := net !! "STATIC_ROUTESv6" in
    let comment := net !! "COMMENT" in
    '(subnet4, gw4_ip) ← gateway_texts gw4;
    '(subnet6, gw6_ip) ← gateway_texts gw6;
    let site_networks :=
      <[name := {| vlan_id := vlan_id; subnet := subnet4; subnet6 := subnet6;
                   gateway := if decide (gw4_ip = "") then None else Some gw4_ip;
                   gateway6 := if decide (gw6_ip = "") then None else Some gw6_ip |}]>
        (site_networks st) in
    if decide (vrf = "")
    then mret {| site_networks := site_networks;
                 vrf_instances := vrf_instances st;
                 network_name_list := network_name_list;
                 extra_v4 := extra_v4 st; extra_v6 := extra_v6 st |}
    else
      let inst :=
        default {| networks := []; v4_routing := false; v6_routing := false;
                   extra_routes := None; extra_routes6 := None |}
                (vrf_instances st !! vrf) in
      let inst :=
        {| networks := networks inst ++ [name];
           v4_routing := if decide (gw4_ip = "") then v4_routing inst else true;
           v6_routing := if decide (gw6_ip = "") then v6_routing inst else true;
           extra_routes := extra_routes inst;
           extra_routes6 := extra_routes6 inst |} in
      let vrf_instances := <[vrf := inst]> (vrf_instances st) in
      let extra_v4 :=
        if truthy static_routes_v4_str then
          let routes_v4 := _parse_static_routes static_routes_v4_str in
          if decide (routes_v4 = ∅) then extra_v4 st
          else update_routes vrf routes_v4 (extra_v4 st)
        else extra_v4 st in
      let extra_v6 :=
        if truthy static_routes_v6_str then
          let routes_v6 := _parse_static_routes static_routes_v6_str in
          if decide (routes_v6 = ∅) then extra_v6 st
          else update_routes vrf routes_v6 (extra_v6 st)
        else extra_v6 st in
      let '(r4, r6) := _parse_network_comment_directives comment in
      let extra_v4 :=
        if decide (r4 = ∅) then extra_v4 else update_routes vrf r4 extra_v4 in
      let extra_v6 :=
        if decide (r6 = ∅) then extra_v6 else update_routes vrf r6 extra_v6 in
      mret {| site_networks := site_networks;
              vrf_instances := vrf_instances;
              network_name_list := network_name_list;
              extra_v4 := extra_v4; extra_v6 := extra_v6 |}.

(** [for net in rows] *)
Fixpoint networks_loop (rows : list (gmap string string)) (st : Planned)
    : result Planned :=
  match rows with
  | [] => mret st
  | net :: rows' => st' ← networks_row net st; networks_loop rows' st'
  end.

(** The body of the last loop: the routes collected for a VRF are put into
    its instance. *)
Definition attach_routes (extra_v4 extra_v6 : gmap string (gmap string Route))
    (vrf : string) (inst : VrfInstance) : VrfInstance :=
  let inst :=
    match extra_v4 !! vrf with
    | Some routes =>
        {| networks := networks inst; v4_routing := v4_routing inst;
           v6_routing := v6_routing inst;
           extra_routes := Some routes; extra_routes6 := extra_routes6 inst |}
    | None => inst
    end in
  match extra_v6 !! vrf with
  | Some routes =>
      {| networks := networks inst; v4_routing := v4_routing inst;
         v6_routing := v6_routing inst;
         extra_routes := extra_routes inst; extra_routes6 := Some routes |}
  | None => inst
  end.

(** [_parse_networks] from the list [rows] on; the sheet is read into
    [rows] by the workbook library. *)
Definition _parse_networks (rows : list (gmap string string))
    : result (gmap string SiteNetwork * gmap string VrfInstance
              * list string * list (gmap string string)) :=
  let initial := {| site_networks := ∅; vrf_instances := ∅;
                    network_name_list := []; extra_v4 := ∅; extra_v6 := ∅ |} in
  st ← networks_loop rows initial;
  let vrf_instances :=
    map_imap (λ vrf inst, Some (attach_routes (extra_v4 st) (extra_v6 st) vrf inst))
             (vrf_instances st) in
  mret (site_networks st, vrf_instances, network_name_list st, rows).
End Networks.

(** ** [create_fabric]: the switches of the topology *)

(** A device as the API lists it: the fields the program reads. *)
Record Device := {
  device_mac : option string;
  device_id : option string
}.

(** [(d.get("mac") or "").replace(":", "").replace("-", "").replace(".", "").lower()] *)
Definition normalize_mac (mac : option string) : string :=
  Py.lower
    (Py.remove_char "." (Py.remove_char "-" (Py.remove_char ":" (default "" mac)))).

(** An element of [switches]: [mac], [role], [uplinks], [downlinks] and the
    port configuration under [config]. *)
Record Switch := {
  switch_mac : string;
  switch_role : string;
  uplinks : list string;
  downlinks : list string;
  switch_port_config : gmap string PortConfigEntry
}.

(** The body of [for name, role in roles.items()] that builds one switch. *)
Definition switch_entry (dev_by_name : gmap string Device)
    (core_devices : list string)
    (core_port_config access_port_config : gmap string (gmap string PortConfigEntry))
    (name role : string) : result Switch :=
  match dev_by_name !! name with
  | None => Raise (KeyError name)
  | Some d =>
      let mac := normalize_mac (device_mac d) in
      if decide (role = "collapsed-core") then
        let other := filter (λ c, c ≠ name) core_devices in
        links ←
          match other with
          | [] => mret []
          | c :: _ =>
              match dev_by_name !! c with
              | None => Raise (KeyError c)
              | Some od =>
                  let omac := normalize_mac (device_mac od) in
                  mret (if decide (omac = "") then [] else [omac])
              end
          end;
        mret {| switch_mac := mac; switch_role := role;
                uplinks := links; downlinks := links;
                switch_port_config := default ∅ (core_port_config !! name) |}
      else
        mret {| switch_mac := mac; switch_role := role;
                uplinks := []; downlinks := [];
                switch_port_config := default ∅ (access_port_config !! name) |}
  end.

(** ** An executable [ipaddress] for the examples

    The textual forms met in the NETWORKS sheet: dotted-quad IPv4 and
    colon-hexadecimal IPv6, the latter with an optional [%zone], each with
    an optional [/prefixlen] in decimal.  The library's further forms (a
    dotted netmask after the slash, an IPv4 suffix in an IPv6 text) are not
    read by this instance; it is used to run the program on concrete cells
    only. *)

Module IpText.

(** [s.split(sep)] for a one-character separator. *)
Fixpoint split_on (sep : ascii) (s : string) : list string :=
  match s with
  | EmptyString => [EmptyString]
  | String d s' =>
      if Ascii.eqb sep d then EmptyString :: split_on sep s'
      else match split_on sep s' with
           | hd :: tl => String d hd :: tl
           | [] => [String d EmptyString]
           end
  end.

Definition hex_value (c : ascii) : option Z :=
  let n := Z.of_N (N_of_ascii c) in
  if decide (48 ≤ n ≤ 57)%Z then Some (n - 48)%Z
  else if decide (97 ≤ n ≤ 102)%Z then Some (n - 87)%Z
  else if decide (65 ≤ n ≤ 70)%Z then Some (n - 55)%Z
  else None.

Definition ishex (c : ascii) : bool := bool_decide (is_Some (hex_value c)).

(** [int(s, base)] for a text of digits of that base. *)
Fixpoint int_from (base acc : Z) (s : string) : Z :=
  match s with
  | EmptyString => acc
  | String c s' => int_from base (acc * base + default 0 (hex_value c))%Z s'
  end.

Definition parse_octet (s : string) : option Z :=
  if bool_decide (s = "") then None
  else if negb (Py.string_forall Py.isdigit s) then None
  else if bool_decide (3 < String.length s) then None
  else if bool_decide (1 < String.length s) && bool_decide (String.get 0 s = Some "0"%char)
  then None
  else
    let v := int_from 10 0 s in
    if decide (v ≤ 255)%Z then Some v else None.

Definition parse_ipv4 (s : string) : option Z :=
  match split_on "." s with
  | [a; b; c; d] =>
      a ← parse_octet a; b ← parse_octet b; c ← parse_octet c; d ← parse_octet d;
      Some (((a * 256 + b) * 256 + c) * 256 + d)%Z
  | _ => None
  end.

Definition parse_hextet (s : string) : option Z :=
  if bool_decide (s = "") then None
  else if negb (Py.string_forall ishex s) then None
  else if bool_decide (4 < String.length s) then None
  else Some (int_from 16 0 s).

Fixpoint parse_hextets (acc : Z) (parts : list string) : option Z :=
  match parts with
  | [] => Some acc
  | p :: parts' => h ← parse_hextet p; parse_hextets (acc * 65536 + h)%Z parts'
  end.

(** The positions, other than the two ends, of empty parts. *)
Definition inner_empty (parts : list string) : list nat :=
  filter (λ i : nat, (1 ≤ i)%nat ∧ (i < length parts - 1)%nat ∧ parts !! i = Some "")
    (seq 0 (length parts)).

Definition parse_ipv6 (s : string) : option Z :=
  let parts := split_on ":" s in
  let n := length parts in
  if decide (n < 3 ∨ 9 < n) then None
  else
    match inner_empty parts with
    | [skip_index] =>
        let head_empty := bool_decide (parts !! 0%nat = Some "") in
        let last_empty := bool_decide (last parts = Some "") in
        let parts_hi := if head_empty then skip_index - 1 else skip_index in
        let parts_lo := if last_empty then n - skip_index - 2 else n - skip_index - 1 in
        if head_empty && bool_decide (parts_hi ≠ 0) then None
        else if last_empty && bool_decide (parts_lo ≠ 0) then None
        else if decide (8 < parts_hi + parts_lo + 1) then None
        else
          hi ← parse_hextets 0 (take parts_hi parts);
          parse_hextets (hi * 65536 ^ Z.of_nat (8 - (parts_hi + parts_lo)))%Z
            (drop (n - parts_lo) parts)
    | [] =>
        if decide (n ≠ 8) then None else parse_hextets 0 parts
    | _ => None
    end.

Definition parse_prefix (bits : Z) (s : string) : option Z :=
  if bool_decide (s = "") then None
  else if negb (Py.string_forall Py.isdigit s) then None
  else
    let v := int_from 10 0 s in
    if decide (v ≤ bits)%Z then Some v else None.

(** [_split_scope_id]: the address and the zone of an IPv6 text; a zone is
    not empty and holds no percent sign. *)
Definition split_scope_id (text : string) : option (string * option string) :=
  match split_on "%" text with
  | [addr] => Some (addr, None)
  | [addr; zone] => if bool_decide (zone = "") then None else Some (addr, Some zone)
  | _ => None
  end.

Definition parse_scoped_ipv6 (text : string) : option (Z * option string) :=
  '(addr, zone) ← split_scope_id text;
  n ← parse_ipv6 addr;
  Some (n, zone).

Definition interface_of (bits : Z) (mk : Z → IPAddress)
    (parse : string → option (Z * option string)) (text : string)
    : option IPInterface :=
  match split_on "/" text with
  | [a] =>
      '(n, zone) ← parse a;
      Some {| ip := mk n; prefixlen := bits; scope_id := zone |}
  | [a; p] =>
      '(n, zone) ← parse a;
      len ← parse_prefix bits p;
      Some {| ip := mk n; prefixlen := len; scope_id := zone |}
  | _ => None
  end.

(** [ip_interface]: IPv4 is tried first, then IPv6. *)
Definition interface (text : string) : option IPInterface :=
  match interface_of 32 IPv4Address (λ a, n ← parse_ipv4 a; Some (n, None)) text with
  | Some i => Some i
  | None => interface_of 128 IPv6Address parse_scoped_ipv6 text
  end.

Definition hex_digit (d : Z) : ascii :=
  ascii_of_N (Z.to_N (if decide (d < 10)%Z then d + 48 else d + 87)%Z).

Fixpoint drop_zeros (ds : list Z) : list Z :=
  match ds with
  | d :: ds' => if decide (d = 0%Z) then drop_zeros ds' else ds
  | [] => []
  end.

(** ['%x' % h] for a 16-bit [h]. *)
Definition hex16 (h : Z) : string :=
  let ds := [(h / 4096) mod 16; (h / 256) mod 16; (h / 16) mod 16; h mod 16]%Z in
  match drop_zeros ds with
  | [] => "0"
  | ds' => string_of_list_ascii (hex_digit <$> ds')
  end.

Definition hextets_of (n : Z) : list Z :=
  (λ k, (n / 65536 ^ Z.of_nat (7 - k)) mod 65536)%Z <$> seq 0 8.

(** Length of the run of zero hextets at the head of [l]. *)
Fixpoint zero_run (l : list Z) : nat :=
  match l with
  | h :: l' => if decide (h = 0%Z) then S (zero_run l') else 0
  | [] => 0
  end.

(** Start and length of the longest run of zeros, the first one among
    equals; [start] counts from the end of the list. *)
Fixpoint best_run (l : list Z) : nat * nat :=
  match l with
  | [] => (0, 0)
  | _ :: l' =>
      let '(s, len) := best_run l' in
      if decide (len ≤ zero_run l)%nat then (length l, zero_run l) else (s, len)
  end.

(** [str] of an IPv6 address: the longest run of two or more zero hextets
    is written [::]. *)
Definition str_ipv6 (n : Z) : string :=
  let hs := hextets_of n in
  let '(s, len) := best_run hs in
  if decide (len ≤ 1)%nat then Py.join ":" (hex16 <$> hs)
  else
    let start := 8 - s in
    Py.join ":" (hex16 <$> take start hs) +:+ "::"
      +:+ Py.join ":" (hex16 <$> drop (start + len) hs).

Definition str_ipv4 (n : Z) : string :=
  Py.join "." (pretty <$> [(n / 16777216) mod 256; (n / 65536) mod 256;
                           (n / 256) mod 256; n mod 256]%Z).

Definition str (a : IPAddress) : string :=
  match a with
  | IPv4Address n => str_ipv4 n
  | IPv6Address n => str_ipv6 n
  end.

(** With [strict=False] a network text is an interface text. *)
Definition lib : Ipaddress :=
  {| ip_network_ok := λ text, bool_decide (is_Some (interface text));
     ip_interface := interface;
     str_address := str |}.

End IpText.

(** ** An executable number parsing for the examples

    [int] of a text of decimal digits.  The further forms that Python reads
    (a sign, white space around the digits, underscores, a text that only
    [float] reads) are not read by this instance; it is used to run the
    program on concrete cells only. *)

Module NumText.

Definition int_of (s : string) : option Z :=
  if bool_decide (s = "") then None
  else if Py.string_forall Py.isdigit s then Some (IpText.int_from 10 0 s)
  else None.

Definition lib : Numbers :=
  {| int_of_text := int_of;
     int_of_float_text := λ _, None |}.

End NumText.

#[local] Arguments String.append !_ _ / : simpl nomatch.

(** A closed equation is settled by evaluating its two sides. *)
Ltac evaluate :=
  lazymatch goal with
  | |- ?x = ?y => exact (@eq_refl _ y <: x = y)
  end.

(** * Properties *)

(** ** ConfigReconciler *)

Section MergeFacts.
Context {V : Type}.
Implicit Types old new acc : gmap string V.

(** Copying the items of one dictionary over another is the union that
    prefers the copied items. *)
Lemma copy_items_union new acc : copy_items new acc = new ∪ acc.
Proof.
  unfold copy_items.
  apply (map_fold_weak_ind (λ r m, r = m ∪ acc)).
  - by rewrite (left_id_L ∅ (∪)).
  - intros port_name port_cfg m r _ ->. apply insert_union_l.
Qed.

Lemma merge_port_configs_union old new esi_lag_name :
  _merge_port_configs old new esi_lag_name = new ∪ old.
Proof.
  unfold _merge_port_configs.
  by rewrite !copy_items_union, (right_id_L ∅ (∪)).
Qed.
End MergeFacts.

(** C1. The merge has exactly the keys of the snapshot and of the new
    synthesis; a key of the new synthesis carries the new value, whole,
    and every other key carries the snapshot's value. *)
Theorem merge_port_configs_new_wins {V : Type}
    (current_port_config new_evpn_ports : gmap string V) (esi_lag_name : string) :
  dom (_merge_port_configs current_port_config new_evpn_ports esi_lag_name)
  = dom current_port_config ∪ dom new_evpn_ports
  ∧ ∀ port_name,
      _merge_port_configs current_port_config new_evpn_ports esi_lag_name !! port_name =
        match new_evpn_ports !! port_name with
        | Some port_cfg => Some port_cfg
        | None => current_port_config !! port_name
        end.
Proof.
  rewrite merge_port_configs_union. split.
  - rewrite dom_union_L. apply (comm_L (∪)).
  - intros port_name. rewrite lookup_union.
    by destruct (new_evpn_ports !! port_name), (current_port_config !! port_name).
Qed.

(** The example of the specification: old = {P1:A, P2:B} and
    new = {P2:C, P3:D} merge into {P1:A, P2:C, P3:D}. *)
Example merge_port_configs_example :
  _merge_port_configs
    (<["P1" := "A"]> (<["P2" := "B"]> (∅ : gmap string string)))
    (<["P2" := "C"]> (<["P3" := "D"]> ∅)) "EVPN-ESI-LAG"
  = <["P1" := "A"]> (<["P2" := "C"]> (<["P3" := "D"]> ∅)).
Proof.
  rewrite merge_port_configs_union. apply map_eq. intros k.
  rewrite lookup_union.
  destruct (decide (k = "P1")) as [->|]; [done|].
  destruct (decide (k = "P2")) as [->|]; [done|].
  destruct (decide (k = "P3")) as [->|]; [done|].
  by rewrite !lookup_insert_ne, lookup_empty by done.
Qed.

(** In CREATE mode nothing is merged; in UPDATE mode the snapshot's own
    ports survive. *)
Lemma final_port_config_create {V : Type} (current new : gmap string V) esi_lag_name :
  final_port_config CREATE current new esi_lag_name = new.
Proof. reflexivity. Qed.

(** ** Base-port extraction *)

(** Closed forms of the pieces of the pattern.  [tail_ok] is [$];
    [digits_end] is [\d+$]; [suffix_ok] is [(?::\d+)?$]; [span_colon] cuts a
    text before its first colon. *)
Definition tail_ok (s : string) : bool :=
  bool_decide (s = "" ∨ s = String Re.newline "").

Fixpoint digits_end (s : string) : bool :=
  match s with
  | String c s' => Py.isdigit c && (digits_end s' || tail_ok s')
  | EmptyString => false
  end.

Definition suffix_ok (rest : string) : bool :=
  match rest with
  | String c r => if Ascii.eqb ":" c then digits_end r else tail_ok rest
  | EmptyString => true
  end.

Fixpoint span_colon (s : string) : string * string :=
  match s with
  | EmptyString => (EmptyString, EmptyString)
  | String c s' =>
      if not_colon c then (String c (span_colon s').1, (span_colon s').2)
      else (EmptyString, s)
  end.

(** The shape of a channelized port name: [base:digits], possibly ended
    by one line feed. *)
Definition channel_form (base digits tail : string) : Prop :=
  base ≠ "" ∧ Py.string_forall not_colon base = true
  ∧ digits ≠ "" ∧ Py.string_forall Py.isdigit digits = true
  ∧ (tail = "" ∨ tail = String Re.newline "").

Lemma substring_prefix (pre s : string) :
  String.substring 0 (String.length pre) (pre +:+ s) = pre.
Proof.
  induction pre as [|c pre IH]; simpl.
  - by destruct s.
  - by rewrite IH.
Qed.

Lemma string_app_assoc (a b c : string) : (a +:+ b) +:+ c = a +:+ (b +:+ c).
Proof. induction a as [|x a IH]; simpl; [done | by rewrite IH]. Qed.

Lemma string_app_nil_r (a : string) : a +:+ "" = a.
Proof. induction a as [|x a IH]; simpl; [done | by rewrite IH]. Qed.

Lemma string_length_app (a b : string) :
  String.length (a +:+ b) = String.length a + String.length b.
Proof. induction a as [|x a IH]; simpl; [done | by rewrite IH]. Qed.

Lemma plus_go_digits (g : Re.groups) k pos s :
  (∀ p r, k p r = if tail_ok r then Some g else None) →
  Re.plus_go Py.isdigit pos s k = if digits_end s then Some g else None.
Proof.
  intros Hk. revert pos. induction s as [|c s IH]; intros pos; simpl; [done|].
  destruct (Py.isdigit c); simpl; [|done].
  rewrite IH, Hk. by destruct (digits_end s), (tail_ok s).
Qed.

Lemma tail_ok_not_colon c r : Ascii.eqb ":" c = true → tail_ok (String c r) = false.
Proof.
  intros Hc%Ascii.eqb_eq. subst c. unfold tail_ok. apply bool_decide_eq_false.
  intros [?|?]; discriminate.
Qed.

Lemma eos_tail_ok {A} (r : string) (x : A) :
  (if decide (r = "" ∨ r = String Re.newline "") then Some x else None)
  = if tail_ok r then Some x else None.
Proof.
  unfold tail_ok. case_decide.
  - by rewrite bool_decide_eq_true_2.
  - by rewrite bool_decide_eq_false_2.
Qed.

(** [(?::\d+)?$] run from any position. *)
Lemma rmatch_suffix pos rest (g : Re.groups) :
  Re.rmatch (Re.Cat (Re.Opt (Re.Cat (Re.Chr ":") (Re.Plus Py.isdigit))) Re.Eos)
    pos rest g (λ _ _ g', Some g')
  = if suffix_ok rest then Some g else None.
Proof.
  cbn [Re.rmatch]. destruct rest as [|c r].
  - by rewrite eos_tail_ok.
  - destruct (Ascii.eqb ":" c) eqn:Hc; cbn [suffix_ok]; rewrite Hc.
    + rewrite (plus_go_digits g) by (intros; apply eos_tail_ok).
      destruct (digits_end r); [done|].
      by rewrite eos_tail_ok, tail_ok_not_colon.
    + apply eos_tail_ok.
Qed.

Lemma span_colon_app s : (span_colon s).1 +:+ (span_colon s).2 = s.
Proof.
  induction s as [|c s IH]; simpl; [done|].
  destruct (not_colon c); simpl; [by rewrite IH | done].
Qed.

Lemma span_colon_free s : Py.string_forall not_colon (span_colon s).1 = true.
Proof.
  induction s as [|c s IH]; simpl; [done|].
  destruct (not_colon c) eqn:Hc; simpl; [by rewrite Hc | done].
Qed.

Lemma span_colon_rest s :
  (span_colon s).2 = "" ∨ ∃ r, (span_colon s).2 = String ":" r.
Proof.
  induction s as [|c s IH]; simpl; [by left|].
  destruct (not_colon c) eqn:Hc; simpl; [done|].
  right. exists s. unfold not_colon in Hc.
  apply negb_false_iff, Ascii.eqb_eq in Hc. by subst.
Qed.

(** A text cut before a colon by hand is cut there by [span_colon]. *)
Lemma span_colon_unique base x :
  Py.string_forall not_colon base = true →
  span_colon (base +:+ String ":" x) = (base, String ":" x).
Proof.
  induction base as [|c base IH]; simpl; [done|].
  intros [Hc Hb]%andb_true_iff. rewrite Hc, (IH Hb). done.
Qed.

Lemma span_colon_no_colon s :
  Py.string_forall not_colon s = true → span_colon s = (s, "").
Proof.
  induction s as [|c s IH]; simpl; [done|].
  intros [Hc Hb]%andb_true_iff. rewrite Hc, (IH Hb). done.
Qed.

(** A shorter run of [[^:]+] cannot succeed where the longest fails. *)
Lemma suffix_ok_mid b r :
  b ≠ "" → Py.string_forall not_colon b = true → (r = "" ∨ ∃ r', r = String ":" r') →
  suffix_ok r = false → suffix_ok (b +:+ r) = false.
Proof.
  intros Hb Hfree Hr Hbad. destruct b as [|c b]; [done|].
  cbn [Py.string_forall] in Hfree. apply andb_true_iff in Hfree as [Hc _].
  unfold not_colon in Hc. apply negb_true_iff in Hc. rewrite Ascii.eqb_sym in Hc.
  cbn [String.append suffix_ok]. rewrite Hc.
  apply bool_decide_eq_false. intros [?|Heq]; [done|].
  injection Heq as -> Heq. destruct b; [|done]. cbn [String.append] in Heq. subst r.
  destruct Hr as [?|[? ?]]; done.
Qed.

Lemma plus_go_not_colon s0 k pre s :
  s0 = pre +:+ s →
  (∀ p r, k p r = if suffix_ok r then Some (Some (String.substring 0 p s0)) else None) →
  Re.plus_go not_colon (String.length pre) s k =
    if bool_decide ((span_colon s).1 = "") then None
    else if suffix_ok (span_colon s).2 then Some (Some (pre +:+ (span_colon s).1))
    else None.
Proof.
  intros Hs0 Hk. revert pre Hs0. induction s as [|c s IH]; intros pre Hs0; [done|].
  cbn [Re.plus_go span_colon]. destruct (not_colon c) eqn:Hc; [|done].
  cbn [fst snd]. rewrite bool_decide_eq_false_2 by done.
  assert (Hs0' : s0 = (pre +:+ String c "") +:+ s).
  { by rewrite string_app_assoc. }
  assert (Hlen : S (String.length pre) = String.length (pre +:+ String c "")).
  { rewrite string_length_app. simpl. lia. }
  rewrite Hlen, (IH _ Hs0'), Hk.
  rewrite <- Hlen.
  assert (Hsub : String.substring 0 (S (String.length pre)) s0 = pre +:+ String c "").
  { rewrite Hlen, Hs0'. apply substring_prefix. }
  rewrite Hsub.
  assert (Happ : ∀ b, (pre +:+ String c "") +:+ b = pre +:+ String c b).
  { intros b. by rewrite string_app_assoc. }
  rewrite Happ.
  pose proof (span_colon_app s) as Hcut.
  pose proof (span_colon_free s) as Hfree.
  pose proof (span_colon_rest s) as Hrest.
  destruct (span_colon s) as [b r]. simpl in *.
  case_bool_decide as Hb.
  - subst b. simpl in Hcut. by subst r.
  - destruct (suffix_ok r) eqn:Hr; [done|].
    by rewrite <- Hcut, (suffix_ok_mid b r).
Qed.

(** [re.match] with the base-port pattern, in closed form. *)
Lemma re_match_base_port s :
  Re.re_match base_port_pattern s =
    if bool_decide ((span_colon s).1 = "") then None
    else if suffix_ok (span_colon s).2 then Some (Some (span_colon s).1)
    else None.
Proof.
  change (Re.re_match base_port_pattern s) with
    (if decide (0 = 0) then
       Re.plus_go not_colon (String.length "") s
         (λ pos' rest',
            Re.rmatch
              (Re.Cat (Re.Opt (Re.Cat (Re.Chr ":") (Re.Plus Py.isdigit))) Re.Eos)
              pos' rest' (Some (String.substring 0 (pos' - 0) s))
              (λ _ _ g, Some g))
     else None).
  rewrite decide_True by done.
  rewrite (plus_go_not_colon s _ "" s); [done..|].
  intros p r. rewrite rmatch_suffix. by rewrite Nat.sub_0_r.
Qed.

Lemma digits_end_split r :
  digits_end r = true ↔
  ∃ digits tail, r = digits +:+ tail ∧ digits ≠ ""
    ∧ Py.string_forall Py.isdigit digits = true
    ∧ (tail = "" ∨ tail = String Re.newline "").
Proof.
  split.
  - induction r as [|c r IH]; simpl; [done|].
    intros [Hc [Hd|Ht]%orb_true_iff]%andb_true_iff.
    + destruct (IH Hd) as (ds & tl & -> & _ & Hds & Htl).
      exists (String c ds), tl. simpl. by rewrite Hc, Hds.
    + exists (String c ""), r. simpl. rewrite Hc.
      by apply bool_decide_eq_true in Ht.
  - intros (ds & tl & -> & Hne & Hds & Htl). induction ds as [|c ds IH]; [done|].
    simpl in *. apply andb_true_iff in Hds as [Hc Hds]. rewrite Hc. simpl.
    destruct ds as [|d ds].
    + simpl. apply orb_true_iff. right. by apply bool_decide_eq_true.
    + by rewrite IH.
Qed.

(** C8 (as amended). A name [base:digits] with a non-empty, colon-free
    [base] and one or more decimal [digits], possibly ended by one line
    feed, is cut down to [base]; every other port name is returned
    unchanged. *)
Theorem get_base_port_channel_suffix (port_name : string) :
  (∀ base digits tail,
      port_name = base +:+ ":" +:+ digits +:+ tail →
      channel_form base digits tail →
      get_base_port port_name = base)
  ∧ ((∀ base digits tail,
        port_name = base +:+ ":" +:+ digits +:+ tail →
        ¬ channel_form base digits tail) →
     get_base_port port_name = port_name).
Proof.
  unfold get_base_port. rewrite re_match_base_port. split.
  - intros base digits tail -> (Hbase & Hfree & Hdig & Hdigits & Htail).
    rewrite decide_False by (by destruct base).
    change (base +:+ ":" +:+ digits +:+ tail)
      with (base +:+ String ":" (digits +:+ tail)).
    rewrite (span_colon_unique _ _ Hfree). cbn [fst snd suffix_ok].
    rewrite bool_decide_eq_false_2 by done.
    change (Ascii.eqb ":" ":") with true. cbn iota.
    assert (Hend : digits_end (digits +:+ tail) = true).
    { apply digits_end_split. by exists digits, tail. }
    by rewrite Hend.
  - intros Hnot. case_decide as Hempty; [done|].
    pose proof (span_colon_app port_name) as Hcut.
    pose proof (span_colon_rest port_name) as Hrest.
    pose proof (span_colon_free port_name) as Hfree.
    destruct (span_colon port_name) as [b r]. cbn [fst snd] in *.
    case_bool_decide as Hb; [done|].
    destruct (suffix_ok r) eqn:Hr; [|done]. simpl.
    destruct Hrest as [->|[x ->]].
    + by rewrite string_app_nil_r in Hcut.
    + cbn [suffix_ok] in Hr. change (Ascii.eqb ":" ":") with true in Hr. cbn iota in Hr.
      apply digits_end_split in Hr as (digits & tail & -> & Hdig & Hdigits & Htail).
      destruct (Hnot b digits tail); [by rewrite <- Hcut | done].
Qed.

(** Not every trailing [:digits] is stripped: a name with two colons ends
    with the channel suffix [:2] and is returned whole. *)
Lemma get_base_port_two_colons :
  get_base_port "et-0/0/0:1:2" = "et-0/0/0:1:2".
Proof. reflexivity. Qed.

Lemma get_base_port_channel_suffix_witness :
  get_base_port "et-0/0/0:1" = "et-0/0/0".
Proof.
  apply (proj1 (get_base_port_channel_suffix "et-0/0/0:1") "et-0/0/0" "1" "").
  - reflexivity.
  - unfold channel_form. repeat split; try discriminate; try reflexivity. by left.
Defined.

(** The examples of the specification. *)
Example get_base_port_plain : get_base_port "et-0/0/0" = "et-0/0/0".
Proof. reflexivity. Qed.

Example get_base_port_non_digit : get_base_port "et-0/0/0:x" = "et-0/0/0:x".
Proof. reflexivity. Qed.

(** ** Static routes *)

(** A text without white space, as every token of [split] is. *)
Definition nospace (s : string) : Prop :=
  Py.string_forall (λ c, negb (Py.isspace c)) s = true.

Definition token (t : string) : Prop := t ≠ "" ∧ nospace t.

Lemma nospace_app a b : nospace (a +:+ b) ↔ nospace a ∧ nospace b.
Proof.
  unfold nospace. induction a as [|c a IH]; simpl.
  - tauto.
  - rewrite !andb_true_iff, IH. tauto.
Qed.

Lemma lstrip_nospace s : nospace s → Py.lstrip s = s.
Proof.
  destruct s as [|c s]; [done|]. unfold nospace. simpl.
  intros [Hc _]%andb_true_iff. apply negb_true_iff in Hc. by rewrite Hc.
Qed.

Lemma rstrip_nospace s : nospace s → Py.rstrip s = s.
Proof.
  unfold nospace. induction s as [|c s IH]; [done|]. simpl.
  intros [Hc Hs]%andb_true_iff. apply negb_true_iff in Hc.
  rewrite (IH Hs), Hc. by destruct s.
Qed.

Lemma strip_nospace s : nospace s → Py.strip s = s.
Proof. intros Hs. unfold Py.strip. by rewrite lstrip_nospace, rstrip_nospace. Qed.

(** [split] reads the same tokens before and after [strip]. *)
Lemma split_from_lstrip s : Py.split_from "" (Py.lstrip s) = Py.split_from "" s.
Proof.
  induction s as [|c s IH]; [done|]. simpl.
  destruct (Py.isspace c) eqn:Hc; [|by simpl; rewrite Hc].
  by rewrite IH.
Qed.

Lemma split_from_rstrip tok s :
  Py.split_from tok (Py.rstrip s) = Py.split_from tok s.
Proof.
  revert tok. induction s as [|c s IH]; intros tok; [done|].
  cbn [Py.rstrip]. destruct (Py.rstrip s) as [|d r] eqn:Hr.
  - destruct (Py.isspace c) eqn:Hc; cbn [Py.split_from]; rewrite Hc.
    + rewrite <- IH. simpl. by case_decide.
    + by rewrite <- IH.
  - cbn [Py.split_from]. destruct (Py.isspace c); [case_decide|]; by rewrite <- ?IH.
Qed.

Lemma split_strip s : Py.split (Py.strip s) = Py.split s.
Proof. unfold Py.split, Py.strip. by rewrite split_from_rstrip, split_from_lstrip. Qed.

Lemma split_from_tokens tok s t :
  nospace tok → t ∈ Py.split_from tok s → token t.
Proof.
  revert tok. induction s as [|c s IH]; intros tok Htok; simpl.
  - case_decide; [by intros ?%elem_of_nil|]. by intros ->%list_elem_of_singleton.
  - destruct (Py.isspace c) eqn:Hc.
    + case_decide.
      * by apply IH.
      * intros [->|?]%elem_of_cons; [done|]. by apply (IH "").
    + apply IH. apply nospace_app. split; [done|]. unfold nospace. simpl. by rewrite Hc.
Qed.

Lemma split_tokens s : Forall token (Py.split s).
Proof. apply Forall_forall. intros t. by apply split_from_tokens. Qed.

Lemma split_from_nospace tok t rest :
  nospace t → Py.split_from tok (t +:+ rest) = Py.split_from (tok +:+ t) rest.
Proof.
  unfold nospace. revert tok. induction t as [|c t IH]; intros tok; simpl.
  - by rewrite string_app_nil_r.
  - intros [Hc Ht]%andb_true_iff. apply negb_true_iff in Hc. rewrite Hc.
    by rewrite (IH _ Ht), string_app_assoc.
Qed.

(** Tokens joined by single blanks are read back by [split]. *)
Lemma split_join l : Forall token l → Py.split (Py.join " " l) = l.
Proof.
  unfold Py.split. induction 1 as [|t l [Hne Ht] Hl IH]; [done|].
  destruct l as [|u l].
  - simpl. rewrite <- (string_app_nil_r t) at 1.
    rewrite split_from_nospace by done. simpl. by rewrite decide_False.
  - change (Py.join " " (t :: u :: l)) with (t +:+ String " " (Py.join " " (u :: l))).
    rewrite split_from_nospace by done. cbn [Py.split_from String.append].
    change (Py.isspace " ") with true. cbn iota.
    rewrite decide_False by done. by rewrite IH.
Qed.

Lemma contains_app c a b :
  Py.contains c (a +:+ b) = Py.contains c a || Py.contains c b.
Proof.
  induction a as [|d a IH]; simpl; [done|]. by destruct (Ascii.eqb c d).
Qed.

(** Cutting at the first separator. *)
Lemma split1_first sep r n :
  Py.contains sep r = false →
  Py.split1 sep (r +:+ String sep n) = [r; n].
Proof.
  induction r as [|d r IH]; simpl.
  - by rewrite Ascii.eqb_refl.
  - destruct (Ascii.eqb sep d); [done|]. intros Hr. by rewrite (IH Hr).
Qed.

Lemma contains_split sep t :
  Py.contains sep t = true →
  ∃ r n, t = r +:+ String sep n ∧ Py.contains sep r = false.
Proof.
  induction t as [|d t IH]; simpl; [done|].
  destruct (Ascii.eqb sep d) eqn:Hd.
  - intros _. apply Ascii.eqb_eq in Hd. subst d. by exists "", t.
  - intros (r & n & -> & Hr)%IH. exists (String d r), n. simpl. by rewrite Hd.
Qed.

Section StaticRouteFacts.
Context `{Ipaddress}.

(** The three things that can happen to a token: it has no ["@"] or an
    empty half around its first ["@"]; its prefix is a valid network; its
    prefix is not. *)
Definition skipped (t : string) : Prop :=
  Py.contains "@" t = false
  ∨ ∃ r n, t = r +:+ "@" +:+ n ∧ Py.contains "@" r = false ∧ (r = "" ∨ n = "").

Definition stored (t r n : string) : Prop :=
  t = r +:+ "@" +:+ n ∧ Py.contains "@" r = false ∧ r ≠ "" ∧ n ≠ ""
  ∧ ip_network_ok r = true.

Definition rejected (t : string) : Prop :=
  ∃ r n, t = r +:+ "@" +:+ n ∧ Py.contains "@" r = false ∧ r ≠ "" ∧ n ≠ ""
         ∧ ip_network_ok r = false.

Lemma parse_pairs_app a b result :
  parse_pairs (a ++ b) result =
    if (parse_pairs a result).2 then ((parse_pairs a result).1, true)
    else parse_pairs b (parse_pairs a result).1.
Proof.
  revert result. induction a as [|t a IH]; intros result; [done|].
  cbn [app parse_pairs].
  repeat (case_match; try done).
Qed.

(** What the loop does with a token cut as [r@n] at its first ["@"]. *)
Lemma parse_pairs_cut r n rest result :
  nospace (r +:+ "@" +:+ n) → Py.contains "@" r = false →
  parse_pairs ((r +:+ "@" +:+ n) :: rest) result =
    if bool_decide (r = "") || bool_decide (n = "") then parse_pairs rest result
    else if ip_network_ok r
         then parse_pairs rest (<[r := {| via := n |}]> result)
         else (result, true).
Proof.
  intros Hns Hr. cbn [parse_pairs].
  rewrite (strip_nospace _ Hns).
  apply nospace_app in Hns as [Hnr Hnn].
  apply (nospace_app "@" n) in Hnn as [_ Hnn].
  rewrite bool_decide_eq_false_2 by (by destruct r).
  rewrite contains_app. cbn [Py.contains String.append].
  rewrite Ascii.eqb_refl, orb_true_r. cbn [negb orb].
  rewrite (split1_first _ _ _ Hr).
  by rewrite !strip_nospace by done.
Qed.

Lemma parse_pairs_skipped t rest result :
  nospace t → skipped t →
  parse_pairs (t :: rest) result = parse_pairs rest result.
Proof.
  intros Hns [Hno|(r & n & -> & Hr & Hempty)].
  - cbn [parse_pairs]. rewrite (strip_nospace _ Hns), Hno.
    by rewrite orb_true_r.
  - rewrite parse_pairs_cut by done.
    destruct Hempty as [->| ->]; by rewrite ?bool_decide_eq_true_2, ?orb_true_r by done.
Qed.

Lemma parse_pairs_stored t r n rest result :
  nospace t → stored t r n →
  parse_pairs (t :: rest) result = parse_pairs rest (<[r := {| via := n |}]> result).
Proof.
  intros Hns (-> & Hr & Hrne & Hnne & Hok).
  rewrite parse_pairs_cut by done.
  by rewrite !bool_decide_eq_false_2, Hok by done.
Qed.

Lemma parse_pairs_rejected t rest result :
  nospace t → rejected t → parse_pairs (t :: rest) result = (result, true).
Proof.
  intros Hns (r & n & -> & Hr & Hrne & Hnne & Hok).
  rewrite parse_pairs_cut by done.
  by rewrite !bool_decide_eq_false_2, Hok by done.
Qed.

(** Every token is of exactly one of the three kinds. *)
Lemma token_kind t : skipped t ∨ (∃ r n, stored t r n) ∨ rejected t.
Proof.
  destruct (Py.contains "@" t) eqn:Hat; [|by left; left].
  apply contains_split in Hat as (r & n & -> & Hr).
  destruct (decide (r = "")) as [->|Hrne]; [left; right; by exists "", n; eauto|].
  destruct (decide (n = "")) as [->|Hnne]; [left; right; by exists r, ""; eauto|].
  destruct (ip_network_ok r) eqn:Hok.
  - right; left. by exists r, n.
  - right; right. by exists r, n.
Qed.

Lemma parse_pairs_no_reject pre result :
  Forall token pre → Forall (λ t, ¬ rejected t) pre →
  (parse_pairs pre result).2 = false.
Proof.
  intros Htok. revert result.
  induction Htok as [|t pre [_ Hns] _ IH]; intros result Hrej; [done|].
  apply Forall_cons in Hrej as [Ht Hrej].
  destruct (token_kind t) as [Hs|[(r & n & Hs)|Hr]]; [| |done].
  - rewrite parse_pairs_skipped by done. by apply IH.
  - rewrite (parse_pairs_stored _ _ _ _ _ Hns Hs). by apply IH.
Qed.

Lemma parse_static_routes_split s :
  _parse_static_routes (Some s) = (parse_pairs (Py.split s) ∅).1.
Proof.
  unfold _parse_static_routes. case_decide as Hs; [by subst|].
  case_decide as Hs'; [|by rewrite split_strip].
  by rewrite <- split_strip, Hs'.
Qed.

Lemma parse_static_routes_join l :
  Forall token l →
  _parse_static_routes (Some (Py.join " " l)) = (parse_pairs l ∅).1.
Proof. intros Hl. by rewrite parse_static_routes_split, split_join. Qed.

End StaticRouteFacts.

(** C4 (as amended). Among the tokens of a static-routes field, a token
    without ["@"], or with an empty half around its first ["@"], is skipped
    and the tokens after it are parsed as if it were absent; a token is cut
    at its first ["@"] only, and with two non-empty halves and a valid
    prefix it is stored under the prefix; at a token with two non-empty
    halves whose prefix is not a valid network the parser stops and returns
    what the tokens before it gave.  The function returns for every field
    value, so no other field is affected. *)
Theorem parse_static_routes_tokens `{Ipaddress}
    (s : string) (pre post : list string) (t : string) :
  Py.split s = pre ++ t :: post →
  (skipped t →
     _parse_static_routes (Some s)
     = _parse_static_routes (Some (Py.join " " (pre ++ post))))
  ∧ (∀ r n, stored t r n → Forall (λ t', ¬ rejected t') pre →
       _parse_static_routes (Some (Py.join " " (pre ++ [t])))
       = <[r := {| via := n |}]> (_parse_static_routes (Some (Py.join " " pre))))
  ∧ (rejected t →
       _parse_static_routes (Some s)
       = _parse_static_routes (Some (Py.join " " pre))).
Proof.
  intros Hsplit. pose proof (split_tokens s) as Htok. rewrite Hsplit in Htok.
  apply Forall_app in Htok as [Hpre Htok].
  apply Forall_cons in Htok as [[Hne Hns] Hpost].
  rewrite parse_static_routes_split, Hsplit, !parse_pairs_app.
  repeat split.
  - intros Hskip. rewrite parse_static_routes_join by (by apply Forall_app).
    by rewrite parse_pairs_app, (parse_pairs_skipped t post _ Hns Hskip).
  - intros r n Hst Hrej.
    assert (Forall token (pre ++ [t])) by (apply Forall_app; by repeat constructor).
    rewrite !parse_static_routes_join by done.
    rewrite parse_pairs_app, (parse_pairs_no_reject pre) by done.
    by rewrite (parse_pairs_stored _ _ _ _ _ Hns Hst).
  - intros Hrej. rewrite parse_static_routes_join by done.
    rewrite (parse_pairs_rejected t post _ Hns Hrej).
    by destruct (parse_pairs pre ∅).2.
Qed.

(** Two things the parser does not do, shown with the library's IPv4 and
    IPv6 texts: it does not go on after a token whose prefix is not a
    network, so the valid token after it is lost; and it does not skip a
    token with two ["@"], the second ["@"] stays in the next hop. *)
Lemma parse_static_routes_stops_at_bad_prefix :
  @_parse_static_routes IpText.lib (Some "bad@10.0.0.254 0.0.0.0/0@10.0.0.1") = ∅
  ∧ @_parse_static_routes IpText.lib (Some "10.0.0.0/24@10.0.0.254@x")
    = {[ "10.0.0.0/24" := {| via := "10.0.0.254@x" |} ]}.
Proof. split; evaluate. Qed.

Lemma parse_static_routes_tokens_witness :
  @_parse_static_routes IpText.lib (Some "10.0.0.0/24@10.0.0.254 nonsense 0.0.0.0/0@10.0.0.1")
  = @_parse_static_routes IpText.lib
      (Some (Py.join " " (["10.0.0.0/24@10.0.0.254"] ++ ["0.0.0.0/0@10.0.0.1"]))).
Proof.
  refine (proj1 (@parse_static_routes_tokens IpText.lib
            "10.0.0.0/24@10.0.0.254 nonsense 0.0.0.0/0@10.0.0.1"
            ["10.0.0.0/24@10.0.0.254"] ["0.0.0.0/0@10.0.0.1"] "nonsense" _) _).
  - evaluate.
  - left. reflexivity.
Defined.

(** The example of the specification. *)
Example parse_static_routes_example :
  @_parse_static_routes IpText.lib (Some "10.0.0.0/24@10.0.0.254 0.0.0.0/0@10.0.0.1")
  = <["10.0.0.0/24" := {| via := "10.0.0.254" |}]>
      (<["0.0.0.0/0" := {| via := "10.0.0.1" |}]> ∅).
Proof. evaluate. Qed.

(** ** Secondary addresses *)

Section OtherIpFacts.
Context `{Ipaddress}.

Definition row_name (net : gmap string string) : string :=
  Py.strip (default "" (net !! "NETWORKNAME")).

Definition row_gateway (net : gmap string string) : string :=
  default "" (net !! "GATEWAY").

Definition row_gateway6 (net : gmap string string) : string :=
  default "" (net !! "GATEWAY6").

(** The names of the rows that have one. *)
Definition row_names (rows : list (gmap string string)) : list string :=
  filter (λ name, name ≠ "") (row_name <$> rows).

(** A gateway cell from which an address can be allocated: it is empty, or
    it is an interface text and the sum with the offset is an address of
    its class. *)
Definition allocatable (offset : Z) (gw : string) : Prop :=
  gw = "" ∨ ∃ i, ip_interface gw = Some i
                 ∧ (0 ≤ to_int (ip i) + offset ≤ all_ones (ip i))%Z.

(** The gateway's host address moved by the offset, in the gateway's class. *)
Definition shifted (i : IPInterface) (offset : Z) : IPAddress :=
  of_int (ip i) (to_int (ip i) + offset).

(** What an entry says about the IPv4 columns, resp. the IPv6 columns. *)
Definition entry_v4 (offset : Z) (gw : string) (entry : gmap string string) : Prop :=
  if decide (gw = "") then
    entry !! "type" = None ∧ entry !! "ip" = None ∧ entry !! "netmask" = None
  else
    ∃ i4, ip_interface gw = Some i4
          ∧ entry !! "type" = Some "static"
          ∧ entry !! "ip" = Some (str_address (shifted i4 offset))
          ∧ entry !! "netmask" = Some (str_address (netmask i4)).

Definition entry_v6 (offset : Z) (gw : string) (entry : gmap string string) : Prop :=
  if decide (gw = "") then
    entry !! "type6" = None ∧ entry !! "ip6" = None ∧ entry !! "netmask6" = None
  else
    ∃ i6, ip_interface gw = Some i6
          ∧ entry !! "type6" = Some "static"
          ∧ entry !! "ip6" = Some (str_address (shifted i6 offset))
          ∧ entry !! "netmask6" = Some ("/" +:+ pretty (prefixlen i6)).

Lemma address_add_ok a offset b :
  address_add a offset = Ok b ↔
  (0 ≤ to_int a + offset ≤ all_ones a)%Z ∧ b = of_int a (to_int a + offset).
Proof.
  unfold address_add. case_decide; split.
  - by intros [= <-].
  - by intros [_ ->].
  - done.
  - by intros [? _].
Qed.

(** One family's step of [other_ip_entry], in isolation. *)
Lemma family_step_ok offset gw (k_type k_ip k_mask : string)
    (mask : IPInterface → string) (entry entry' : gmap string string) :
  (if decide (gw = "") then mret entry
   else
     i ← parse_interface gw;
     a ← address_add (ip i) offset;
     mret (<[k_mask := mask i]> (<[k_ip := str_address a]> (<[k_type := "static"]> entry))))
  = Ok entry' ↔
  (gw = "" ∧ entry' = entry)
  ∨ (gw ≠ "" ∧ ∃ i, ip_interface gw = Some i
       ∧ (0 ≤ to_int (ip i) + offset ≤ all_ones (ip i))%Z
       ∧ entry' = <[k_mask := mask i]>
                    (<[k_ip := str_address (shifted i offset)]>
                       (<[k_type := "static"]> entry))).
Proof.
  case_decide as Hgw.
  - split; [intros [= <-]; by left | intros [[_ ->]|[? _]]; done].
  - unfold parse_interface. destruct (ip_interface gw) as [i|] eqn:Hi; simpl.
    + destruct (address_add (ip i) offset) as [a|e] eqn:Ha; simpl.
      * apply address_add_ok in Ha as [Hrange ->]. split.
        -- intros [= <-]. right. split; [done|]. by exists i.
        -- intros [[? _]|[_ (i' & [= <-] & _ & ->)]]; done.
      * split; [done|]. intros [[? _]|[_ (i' & [= <-] & Hrange & _)]]; [done|].
        assert (address_add (ip i) offset = Ok (shifted i offset)) as Hok
          by (by apply address_add_ok).
        congruence.
    + split; [done|]. intros [[? _]|[_ (i' & ? & _)]]; done.
Qed.

Ltac map_lookup :=
  repeat first
    [ rewrite lookup_insert_eq
    | rewrite lookup_insert_ne by discriminate
    | rewrite lookup_empty ].

Lemma other_ip_entry_ok offset net entry :
  other_ip_entry offset net = Ok entry →
  allocatable offset (row_gateway net) ∧ allocatable offset (row_gateway6 net)
  ∧ entry_v4 offset (row_gateway net) entry
  ∧ entry_v6 offset (row_gateway6 net) entry
  ∧ (entry = ∅ ↔ row_gateway net = "" ∧ row_gateway6 net = "").
Proof.
  unfold other_ip_entry, entry_v4, entry_v6, allocatable.
  fold (row_gateway net) (row_gateway6 net).
  destruct (if decide (row_gateway net = "") then _ else _) as [e4|err] eqn:H4;
    [|done].
  apply family_step_ok in H4. cbn [mbind result_bind].
  destruct (if decide (row_gateway6 net = "") then _ else _) as [e6|err] eqn:H6;
    [|done].
  apply family_step_ok in H6. intros [= <-].
  destruct H4 as [[Hg4 ->]|[Hg4 (i4 & Hi4 & Hr4 & ->)]];
    destruct H6 as [[Hg6 ->]|[Hg6 (i6 & Hi6 & Hr6 & ->)]];
    destruct (decide (row_gateway net = "")); try done;
    destruct (decide (row_gateway6 net = "")); try done.
  - split; [by left|]. split; [by left|].
    split; [by map_lookup|]. split; [by map_lookup|]. done.
  - split; [by left|]. split; [right; by exists i6|].
    split; [by map_lookup|]. split; [exists i6; by map_lookup|].
    split; [by intros ?%insert_non_empty | by intros [_ ?]].
  - split; [right; by exists i4|]. split; [by left|].
    split; [exists i4; by map_lookup|]. split; [by map_lookup|].
    split; [by intros ?%insert_non_empty | by intros [? _]].
  - split; [right; by exists i4|]. split; [right; by exists i6|].
    split; [exists i4; by map_lookup|]. split; [exists i6; by map_lookup|].
    split; [by intros ?%insert_non_empty | by intros [? _]].
Qed.

(** Conversely an entry is built whenever both gateway cells allow it. *)
Lemma other_ip_entry_total offset net :
  allocatable offset (row_gateway net) → allocatable offset (row_gateway6 net) →
  ∃ entry, other_ip_entry offset net = Ok entry.
Proof.
  intros H4 H6. unfold other_ip_entry.
  fold (row_gateway net) (row_gateway6 net).
  destruct (if decide (row_gateway net = "") then _ else _) as [e4|err] eqn:E4.
  - cbn [mbind result_bind].
    destruct (if decide (row_gateway6 net = "") then _ else _) as [e6|err] eqn:E6;
      [by eexists|].
    exfalso. destruct H6 as [Hg|(i & Hi & Hr)].
    + by rewrite decide_True in E6.
    + destruct (decide (row_gateway6 net = "")); [done|].
      unfold parse_interface in E6. rewrite Hi in E6. cbn in E6.
      unfold address_add in E6. by rewrite decide_True in E6.
  - exfalso. destruct H4 as [Hg|(i & Hi & Hr)].
    + by rewrite decide_True in E4.
    + destruct (decide (row_gateway net = "")); [done|].
      unfold parse_interface in E4. rewrite Hi in E4. cbn in E4.
      unfold address_add in E4. by rewrite decide_True in E4.
Qed.

(** The loop: every named row is allocatable, and a name that occurs once
    ends with its own entry, or with no entry when the row has no gateway. *)
Lemma other_ip_loop_ok offset rows cfg0 cfg :
  other_ip_loop offset rows cfg0 = Ok cfg →
  (∀ net, net ∈ rows → row_name net ≠ "" →
     ∃ entry, other_ip_entry offset net = Ok entry)
  ∧ (∀ name, name ∉ row_names rows → cfg !! name = cfg0 !! name)
  ∧ (NoDup (row_names rows) →
     ∀ net, net ∈ rows → row_name net ≠ "" →
       ∃ entry, other_ip_entry offset net = Ok entry
         ∧ cfg !! row_name net
           = if decide (entry = ∅) then cfg0 !! row_name net else Some entry).
Proof.
  revert cfg0. induction rows as [|net rows IH]; intros cfg0; cbn [other_ip_loop].
  - intros [= <-]. split; [by intros ? ?%elem_of_nil|]. split; [done|].
    by intros _ ? ?%elem_of_nil.
  - fold (row_name net). unfold row_names. cbn [fmap list_fmap]. fold (row_names rows).
    case_decide as Hname.
    + rewrite filter_cons_False by (by intros ?). fold (row_names rows).
      intros (IH1 & IH2 & IH3)%IH. split; [|split].
      * intros net' [->|?]%elem_of_cons ?; [done|]. by apply IH1.
      * done.
      * intros Hnd net' [->|?]%elem_of_cons ?; [done|]. by apply IH3.
    + rewrite filter_cons_True by done. fold (row_names rows).
      destruct (other_ip_entry offset net) as [entry|err] eqn:Hentry; [|done].
      cbn [mbind result_bind].
      assert (Hstep : ∃ cfg1,
        (if decide (entry = ∅) then other_ip_loop offset rows cfg0
         else other_ip_loop offset rows (<[row_name net := entry]> cfg0))
        = other_ip_loop offset rows cfg1
        ∧ ∀ name, cfg1 !! name =
            if decide (name = row_name net)
            then (if decide (entry = ∅) then cfg0 !! name else Some entry)
            else cfg0 !! name).
      { case_decide.
        - exists cfg0. split; [done|]. intros name. by repeat case_decide; subst.
        - exists (<[row_name net := entry]> cfg0). split; [done|]. intros name.
          case_decide as Hn; [subst; by rewrite lookup_insert_eq | by rewrite lookup_insert_ne]. }
      destruct Hstep as (cfg1 & -> & Hcfg1).
      intros (IH1 & IH2 & IH3)%IH. split; [|split].
      * intros net' [->|?]%elem_of_cons ?; [by exists entry | by apply IH1].
      * intros name [Hne Hnot]%not_elem_of_cons.
        rewrite (IH2 _ Hnot), Hcfg1. by rewrite decide_False.
      * intros [Hfresh Hnd]%NoDup_cons net' [->|Hin]%elem_of_cons Hnm.
        -- exists entry. split; [done|].
           rewrite (IH2 _ Hfresh), Hcfg1. by rewrite decide_True.
        -- destruct (IH3 Hnd net' Hin Hnm) as (entry' & He' & Hlook).
           exists entry'. split; [done|]. rewrite Hlook.
           case_decide; [|done]. rewrite Hcfg1.
           rewrite decide_False; [done|]. intros Heq. apply Hfresh.
           rewrite <- Heq. unfold row_names. apply list_elem_of_filter. split; [done|].
           by apply list_elem_of_fmap_2.
Qed.

Lemma other_ip_loop_total offset rows cfg0 :
  (∀ net, net ∈ rows → row_name net ≠ "" →
     ∃ entry, other_ip_entry offset net = Ok entry) →
  ∃ cfg, other_ip_loop offset rows cfg0 = Ok cfg.
Proof.
  revert cfg0. induction rows as [|net rows IH]; intros cfg0 Hrows;
    cbn [other_ip_loop]; [by eexists|].
  fold (row_name net).
  assert (Hrest : ∀ net', net' ∈ rows → row_name net' ≠ "" →
            ∃ entry, other_ip_entry offset net' = Ok entry).
  { intros net' Hin. apply Hrows. by right. }
  case_decide as Hname; [by apply IH|].
  destruct (Hrows net) as [entry ->]; [by left | done |].
  cbn [mbind result_bind]. case_decide; by apply IH.
Qed.

End OtherIpFacts.

(** C5 (as amended). With network names that occur once and gateway cells
    from which an address can be allocated (an interface text whose host
    address plus the offset is still an address of its class), the
    allocation returns, and for every named row and either family: a row with a gateway gets the gateway's host
    address plus the offset, in the class of the gateway, with the
    gateway's netmask (IPv4 columns) or prefix length (IPv6 columns); a row
    without a gateway for a family has none of that family's keys, and a
    row without any gateway has no entry. *)
Theorem make_other_ip_configs_gateway_plus_offset `{Ipaddress}
    (networks_rows : list (gmap string string)) (offset : Z) :
  NoDup (row_names networks_rows) →
  (∀ net, net ∈ networks_rows → row_name net ≠ "" →
     allocatable offset (row_gateway net)
     ∧ allocatable offset (row_gateway6 net)) →
  ∃ cfg,
    make_other_ip_configs networks_rows offset = Ok cfg
    ∧ ∀ net, net ∈ networks_rows → row_name net ≠ "" →
        (cfg !! row_name net = None
         ↔ row_gateway net = "" ∧ row_gateway6 net = "")
        ∧ ∀ entry, cfg !! row_name net = Some entry →
            entry_v4 offset (row_gateway net) entry
            ∧ entry_v6 offset (row_gateway6 net) entry.
Proof.
  intros Hnd Halloc. unfold make_other_ip_configs.
  destruct (other_ip_loop_total offset networks_rows ∅) as [cfg Hcfg].
  { intros net Hin Hname. destruct (Halloc net Hin Hname).
    by apply other_ip_entry_total. }
  exists cfg. split; [done|]. intros net Hin Hname.
  destruct (other_ip_loop_ok _ _ _ _ Hcfg) as (_ & _ & Hrows).
  destruct (Hrows Hnd net Hin Hname) as (entry & Hentry & Hlook).
  apply other_ip_entry_ok in Hentry as (_ & _ & H4 & H6 & Hempty).
  rewrite Hlook. case_decide as He.
  - rewrite lookup_empty. split; [by rewrite <- Hempty | done].
  - split; [|by intros ? [= <-]]. split; [done|]. by intros ?%Hempty.
Qed.

(** When a named row has a gateway that cannot be shifted, nothing is
    returned. *)
Lemma make_other_ip_configs_raises `{Ipaddress}
    (networks_rows : list (gmap string string)) (offset : Z) cfg :
  make_other_ip_configs networks_rows offset = Ok cfg →
  ∀ net, net ∈ networks_rows → row_name net ≠ "" →
    allocatable offset (row_gateway net) ∧ allocatable offset (row_gateway6 net).
Proof.
  intros Hcfg net Hin Hname.
  destruct (other_ip_loop_ok _ _ _ _ Hcfg) as (Hrows & _ & _).
  destruct (Hrows net Hin Hname) as (entry & Hentry).
  by apply other_ip_entry_ok in Hentry as (? & ? & _).
Qed.

(** The rows of the specification's examples. *)
Definition example_rows : list (gmap string string) :=
  [ <["NETWORKNAME" := "users"]> (<["GATEWAY" := "10.0.0.1/24"]> ∅);
    <["NETWORKNAME" := "guests"]> (<["GATEWAY6" := "2001:db8::1/64"]> ∅);
    <["NETWORKNAME" := "unrouted"]> ∅ ].

Lemma make_other_ip_configs_gateway_plus_offset_witness :
  ∃ cfg,
    @make_other_ip_configs IpText.lib example_rows 2 = Ok cfg
    ∧ ∀ net, net ∈ example_rows → row_name net ≠ "" →
        (cfg !! row_name net = None
         ↔ row_gateway net = "" ∧ row_gateway6 net = "")
        ∧ ∀ entry, cfg !! row_name net = Some entry →
            @entry_v4 IpText.lib 2 (row_gateway net) entry
            ∧ @entry_v6 IpText.lib 2 (row_gateway6 net) entry.
Proof.
  apply (@make_other_ip_configs_gateway_plus_offset IpText.lib example_rows 2).
  - apply (bool_decide_unpack (NoDup (row_names example_rows))).
    vm_compute. exact I.
  - intros net Hin _. unfold example_rows in Hin.
    repeat (apply elem_of_cons in Hin as [->|Hin]); [| | |by apply elem_of_nil in Hin].
    + split; [right|by left].
      exists {| ip := IPv4Address 167772161; prefixlen := 24; scope_id := None |}.
      split; [evaluate | vm_compute; split; discriminate].
    + split; [by left|right].
      exists {| ip := IPv6Address 42540766411282592856903984951653826561;
                prefixlen := 64; scope_id := None |}.
      split; [evaluate | vm_compute; split; discriminate].
    + split; by left.
Defined.

Example make_other_ip_configs_offset_2 :
  @make_other_ip_configs IpText.lib example_rows 2
  = Ok (<["users" := <["type" := "static"]> (<["ip" := "10.0.0.3"]>
                        (<["netmask" := "255.255.255.0"]> ∅))]>
          (<["guests" := <["type6" := "static"]> (<["ip6" := "2001:db8::3"]>
                            (<["netmask6" := "/64"]> ∅))]> ∅)).
Proof. evaluate. Qed.

Example make_other_ip_configs_offset_1 :
  @make_other_ip_configs IpText.lib
    [ <["NETWORKNAME" := "guests"]> (<["GATEWAY6" := "2001:db8::1/64"]> ∅) ] 1
  = Ok {[ "guests" := <["type6" := "static"]> (<["ip6" := "2001:db8::2"]>
                        (<["netmask6" := "/64"]> ∅)) ]}.
Proof. evaluate. Qed.

(** Not every gateway can be shifted: the last address of a class has no
    successor in the class, and the allocation raises. *)
Lemma make_other_ip_configs_overflow :
  @make_other_ip_configs IpText.lib
    [ <["NETWORKNAME" := "edge"]> (<["GATEWAY" := "255.255.255.255/32"]> ∅) ] 1
  = Raise AddressValueError.
Proof. evaluate. Qed.

(** ** Sorting *)

Section SortFacts.
Context {A : Type} (ltb : A → A → bool).
Hypothesis ltb_irrefl : ∀ x, ltb x x = false.
Hypothesis ltb_trans : ∀ x y z, ltb x y = true → ltb y z = true → ltb x z = true.
Hypothesis ltb_total : ∀ x y, ltb x y = false → ltb y x = false → x = y.

Lemma insert_sorted_perm x l : Py.insert_sorted ltb x l ≡ₚ x :: l.
Proof.
  induction l as [|y l IH]; simpl; [done|].
  destruct (ltb y x); [|done]. rewrite IH. apply Permutation_swap.
Qed.

Lemma sorted_perm l : Py.sorted ltb l ≡ₚ l.
Proof.
  induction l as [|x l IH]; simpl; [done|].
  by rewrite insert_sorted_perm, IH.
Qed.

Lemma ltb_asym x y : ltb x y = true → ltb y x = false.
Proof.
  intros Hxy. destruct (ltb y x) eqn:Hyx; [|done].
  by rewrite <- (ltb_irrefl x), (ltb_trans x y x).
Qed.

(** [x] is not above [y], and [y] not above [z]: then [x] is not above [z]. *)
Lemma not_above_trans x y z :
  ltb y x = false → ltb z y = false → ltb z x = false.
Proof.
  intros Hyx Hzy. destruct (ltb z x) eqn:Hzx; [|done].
  destruct (ltb x y) eqn:Hxy.
  - by rewrite (ltb_trans z x y) in Hzy.
  - rewrite (ltb_total x y Hxy Hyx) in Hzx. congruence.
Qed.

Lemma insert_sorted_sorted x l :
  StronglySorted (λ a b, ltb b a = false) l →
  StronglySorted (λ a b, ltb b a = false) (Py.insert_sorted ltb x l).
Proof.
  induction 1 as [|y l Hl IH Hy]; simpl.
  - by repeat constructor.
  - destruct (ltb y x) eqn:Hyx.
    + constructor; [done|]. rewrite insert_sorted_perm.
      constructor; [by apply ltb_asym | done].
    + constructor; [by constructor|]. constructor; [done|].
      eapply Forall_impl; [exact Hy|]. intros z Hzy. by apply (not_above_trans x y z).
Qed.

Lemma sorted_sorted l : StronglySorted (λ a b, ltb b a = false) (Py.sorted ltb l).
Proof.
  induction l as [|x l IH]; simpl; [constructor | by apply insert_sorted_sorted].
Qed.

(** Without repetitions the result is strictly increasing. *)
Lemma sorted_strict l :
  NoDup l → StronglySorted (λ a b, ltb a b = true) (Py.sorted ltb l).
Proof.
  intros Hnd. rewrite <- sorted_perm in Hnd.
  pose proof (sorted_sorted l) as Hs.
  induction Hs as [|x l' Hl' IH Hx]; [constructor|].
  apply NoDup_cons in Hnd as [Hfresh Hnd]. constructor; [by apply IH|].
  apply Forall_forall. intros y Hy.
  rewrite Forall_forall in Hx. specialize (Hx y Hy).
  destruct (ltb x y) eqn:Hxy; [done|].
  destruct Hfresh. by rewrite (ltb_total x y Hxy Hx).
Qed.

(** A strictly increasing list is its own sorting: the sorted order of a
    list without repetitions does not depend on the order it is given in. *)
Lemma sorted_unique l1 l2 :
  StronglySorted (λ a b, ltb a b = true) l1 →
  StronglySorted (λ a b, ltb a b = true) l2 →
  l1 ≡ₚ l2 → l1 = l2.
Proof.
  intros H1. revert l2. induction H1 as [|x l1 Hl1 IH Hx]; intros l2 H2 Hp.
  - by apply Permutation_nil_l in Hp.
  - destruct H2 as [|y l2 Hl2 Hy].
    { by apply Permutation_nil_r in Hp. }
    rewrite Forall_forall in Hx, Hy.
    assert (x = y) as <-.
    { assert (Hyin : y ∈ x :: l1) by (rewrite Hp; by left).
      assert (Hxin : x ∈ y :: l2) by (rewrite <- Hp; by left).
      apply elem_of_cons in Hyin as [?|Hyin]; [done|].
      apply elem_of_cons in Hxin as [?|Hxin]; [done|].
      pose proof (ltb_asym _ _ (Hx _ Hyin)) as Habs.
      by rewrite (Hy _ Hxin) in Habs. }
    f_equal. apply IH; [done|]. by apply (inj (cons x)).
Qed.
End SortFacts.

(** Comparisons with three outcomes, and the lexicographic product. *)
Definition lawful {A : Type} (cmp : A → A → comparison) : Prop :=
  (∀ x y, cmp x y = Eq ↔ x = y)
  ∧ (∀ x y, cmp y x = CompOpp (cmp x y))
  ∧ (∀ x y z, cmp x y = Lt → cmp y z = Lt → cmp x z = Lt).

Definition below {A : Type} (cmp : A → A → comparison) (x y : A) : bool :=
  match cmp x y with Lt => true | _ => false end.

Lemma below_irrefl {A} (cmp : A → A → comparison) :
  lawful cmp → ∀ x, below cmp x x = false.
Proof.
  intros (Heq & _ & _) x. unfold below.
  by rewrite (proj2 (Heq x x) eq_refl).
Qed.

Lemma below_trans {A} (cmp : A → A → comparison) :
  lawful cmp → ∀ x y z,
    below cmp x y = true → below cmp y z = true → below cmp x z = true.
Proof.
  intros (_ & _ & Htrans) x y z. unfold below.
  destruct (cmp x y) eqn:Hxy; try done.
  destruct (cmp y z) eqn:Hyz; try done.
  by rewrite (Htrans x y z).
Qed.

Lemma below_total {A} (cmp : A → A → comparison) :
  lawful cmp → ∀ x y, below cmp x y = false → below cmp y x = false → x = y.
Proof.
  intros (Heq & Hopp & _) x y. unfold below. rewrite (Hopp x y).
  destruct (cmp x y) eqn:Hxy; try done. intros _ _. by apply Heq.
Qed.

Lemma string_compare_lawful : lawful String.compare.
Proof.
  split; [|split].
  - intros x y. split; [apply String.compare_eq_iff|].
    intros <-. pose proof (String.compare_antisym x x) as Hx.
    by destruct (String.compare x x).
  - intros x y. apply String.compare_antisym.
  - intros x y z Hxy Hyz.
    assert (Hle : String.le x z).
    { trans y; unfold String.le, String.leb; by rewrite ?Hxy, ?Hyz. }
    unfold String.le, String.leb in Hle.
    destruct (String.compare x z) eqn:Hxz; [|done..].
    apply String.compare_eq_iff in Hxz. subst z.
    rewrite String.compare_antisym, Hxy in Hyz. done.
Qed.




Lemma sorted_strings_perm l : Py.sorted Py.lt l ≡ₚ l.
Proof. apply sorted_perm. Qed.

Lemma sorted_strings_strict l :
  NoDup l → StronglySorted (λ a b, Py.lt a b = true) (Py.sorted Py.lt l).
Proof.
  apply (sorted_strict (below String.compare)).
  - apply below_irrefl, string_compare_lawful.
  - apply below_trans, string_compare_lawful.
  - apply below_total, string_compare_lawful.
Qed.

Lemma sorted_links_perm l : Py.sorted link_lt l ≡ₚ l.
Proof. apply sorted_perm. Qed.



(** ** Core devices and their offsets *)

Lemma core_role_devices_elem (roles : gmap string string) d :
  d ∈ core_role_devices roles ↔ roles !! d = Some "collapsed-core".
Proof.
  unfold core_role_devices. rewrite list_elem_of_fmap. split.
  - intros ([d' r] & -> & [Hr Hin]%list_elem_of_filter). simpl in *. subst r.
    by apply elem_of_map_to_list.
  - intros Hd. exists (d, "collapsed-core"). split; [done|].
    apply list_elem_of_filter. split; [done|]. by apply elem_of_map_to_list.
Qed.

Lemma core_role_devices_NoDup (roles : gmap string string) :
  NoDup (core_role_devices roles).
Proof.
  unfold core_role_devices.
  eapply sublist_NoDup; [apply (NoDup_fst_map_to_list roles)|].
  apply fmap_sublist, sublist_filter.
Qed.

Lemma is_core_elem (roles : gmap string string) d :
  is_core roles d = true ↔ d ∈ Py.sorted Py.lt (core_role_devices roles).
Proof.
  rewrite sorted_strings_perm, core_role_devices_elem.
  unfold is_core. apply bool_decide_eq_true.
Qed.

Lemma StronglySorted_weaken {A} (R S : A → A → Prop) (l : list A) :
  (∀ a b, R a b → S a b) → StronglySorted R l → StronglySorted S l.
Proof.
  intros HRS. induction 1 as [|x l _ IH Hx]; constructor; [done|].
  eapply Forall_impl; [exact Hx|]. intros y. apply HRS.
Qed.

(** Two devices of a list without repetitions. *)
Lemma two_of_NoDup {A} (l : list A) (a b : A) :
  NoDup l → a ∈ l → b ∈ l → a ≠ b → (2 ≤ length l)%nat.
Proof.
  intros Hnd Ha Hb Hne. destruct l as [|x [|y l]]; cbn; [|exfalso|lia].
  - by apply elem_of_nil in Ha.
  - apply list_elem_of_singleton in Ha, Hb. congruence.
Qed.

Lemma one_of_NoDup {A} (l : list A) :
  length l < 2 → ∀ a b, a ∈ l → b ∈ l → a = b.
Proof.
  destruct l as [|x [|y l]]; cbn; [| |lia]; intros _ a b Ha Hb.
  - by apply elem_of_nil in Ha.
  - apply list_elem_of_singleton in Ha, Hb. congruence.
Qed.

(** C7. The core devices are the devices of the role map with the role
    [collapsed-core], each once, in increasing order of their names as
    texts; the first of them has offset 1 and the second has offset 2.
    The first is the least name with that role and the second the least
    of the others.  The order is there whenever two devices have the role;
    with fewer than two the run stops. *)
Theorem core_offsets_by_sorted_name (roles : gmap string string) :
  (∀ a b, roles !! a = Some "collapsed-core" → roles !! b = Some "collapsed-core" →
          a ≠ b → ∃ core_devices, create_fabric_core_devices roles = Ok core_devices)
  ∧ match create_fabric_core_devices roles with
    | Ok core_devices =>
        (∀ d, d ∈ core_devices ↔ roles !! d = Some "collapsed-core")
        ∧ NoDup core_devices
        ∧ StronglySorted (λ a b, Py.lt a b = true) core_devices
        ∧ StronglySorted (λ a b, String.compare a b = Lt) core_devices
        ∧ ∃ c0 c1 others,
            core_devices = c0 :: c1 :: others
            ∧ core_offset roles c0 = Ok 1%Z
            ∧ core_offset roles c1 = Ok 2%Z
            ∧ roles !! c0 = Some "collapsed-core"
            ∧ roles !! c1 = Some "collapsed-core"
            ∧ String.compare c0 c1 = Lt
            ∧ ∀ d, roles !! d = Some "collapsed-core" →
                   d = c0 ∨ d = c1 ∨ String.compare c1 d = Lt
    | Raise e =>
        e = TopologyUnderspecifiedError
        ∧ length (core_role_devices roles) < 2
        ∧ ∀ a b, roles !! a = Some "collapsed-core" →
                 roles !! b = Some "collapsed-core" → a = b
    end.
Proof.
  unfold core_offset, create_fabric_core_devices.
  pose proof (sorted_strings_perm (core_role_devices roles)) as Hperm.
  pose proof (sorted_strings_strict _ (core_role_devices_NoDup roles)) as Hsorted.
  pose proof (core_role_devices_NoDup roles) as Hnd.
  assert (Hcompare : StronglySorted (λ a b, String.compare a b = Lt)
                       (Py.sorted Py.lt (core_role_devices roles))).
  { eapply StronglySorted_weaken; [|exact Hsorted].
    intros a b. unfold Py.lt. by destruct (String.compare a b). }
  split.
  { intros a b Ha%core_role_devices_elem Hb%core_role_devices_elem Hne.
    pose proof (two_of_NoDup _ a b Hnd Ha Hb Hne) as Hlen.
    rewrite <- Hperm in Hlen. rewrite decide_False by lia. by eexists. }
  case_decide as Hlen.
  - split; [done|]. rewrite Hperm in Hlen. split; [done|].
    intros a b Ha%core_role_devices_elem Hb%core_role_devices_elem.
    by apply (one_of_NoDup (core_role_devices roles)).
  - assert (Helem : ∀ d, d ∈ Py.sorted Py.lt (core_role_devices roles)
                         ↔ roles !! d = Some "collapsed-core").
    { intros d. by rewrite Hperm, core_role_devices_elem. }
    split; [done|]. split; [by rewrite Hperm|]. split; [done|]. split; [done|].
    destruct (Py.sorted Py.lt (core_role_devices roles)) as [|c0 [|c1 others]];
      [simpl in Hlen; lia..|].
    exists c0, c1, others. split; [done|].
    apply StronglySorted_inv in Hcompare as [Hrest Hc0].
    apply StronglySorted_inv in Hrest as [_ Hc1].
    apply Forall_cons in Hc0 as [Hc01 _].
    assert (Hne : c0 ≠ c1).
    { intros ->. pose proof (below_irrefl _ string_compare_lawful c1) as Hirr.
      unfold below in Hirr. by rewrite Hc01 in Hirr. }
    cbn. split; [by rewrite lookup_insert_ne, lookup_insert_eq|].
    split; [by rewrite lookup_insert_eq|].
    split; [apply Helem; by left|]. split; [apply Helem; right; by left|].
    split; [done|]. intros d Hd%Helem.
    apply elem_of_cons in Hd as [->|Hd]; [by left|].
    apply elem_of_cons in Hd as [->|Hd]; [right; by left|].
    right; right. rewrite Forall_forall in Hc1. by apply Hc1.
Qed.

Example core_offsets_example :
  core_offset (<["sw-b" := "collapsed-core"]> (<["acc-1" := "access"]>
                 (<["sw-a" := "collapsed-core"]> ∅))) "sw-a" = Ok 1%Z
  ∧ core_offset (<["sw-b" := "collapsed-core"]> (<["acc-1" := "access"]>
                   (<["sw-a" := "collapsed-core"]> ∅))) "sw-b" = Ok 2%Z.
Proof. split; evaluate. Qed.

Example core_devices_too_few :
  create_fabric_core_devices
    (<["acc-1" := "access"]> (<["sw-a" := "collapsed-core"]> ∅))
  = Raise TopologyUnderspecifiedError.
Proof. evaluate. Qed.

(** ** Topology synthesis: core links *)

Definition entry_key (e : InterfaceLink) : gset endpoint :=
  link_key (src_device e, src_int e) (dst_device e, dst_int e).

Definition core_link_key (l : CoreLink) : gset endpoint :=
  link_key (core1 l, port1 l) (core2 l, port2 l).

Definition link_of_entry (e : InterfaceLink) : CoreLink :=
  {| core1 := src_device e; port1 := src_int e;
     core2 := dst_device e; port2 := dst_int e |}.

(** The key is the unordered pair of the two ends. *)
Lemma link_key_unordered (a b c d : endpoint) :
  link_key a b = link_key c d ↔ (a = c ∧ b = d) ∨ (a = d ∧ b = c).
Proof.
  unfold link_key. split.
  - intros Heq.
    assert (Ha : a ∈ ({[c; d]} : gset endpoint)).
    { rewrite <- Heq. apply elem_of_union_l. by apply elem_of_singleton. }
    assert (Hb : b ∈ ({[c; d]} : gset endpoint)).
    { rewrite <- Heq. apply elem_of_union_r. by apply elem_of_singleton. }
    assert (Hc : c ∈ ({[a; b]} : gset endpoint)).
    { rewrite Heq. apply elem_of_union_l. by apply elem_of_singleton. }
    assert (Hd : d ∈ ({[a; b]} : gset endpoint)).
    { rewrite Heq. apply elem_of_union_r. by apply elem_of_singleton. }
    apply elem_of_union in Ha as [Ha|Ha], Hb as [Hb|Hb], Hc as [Hc|Hc], Hd as [Hd|Hd];
      apply elem_of_singleton in Ha, Hb, Hc, Hd; subst; auto.
  - intros [[-> ->]|[-> ->]]; [done|]. apply (comm_L (∪)).
Qed.

Lemma count_key_once {A K} `{EqDecision K} (f : A → K) (l : list A) (k : K) :
  NoDup (f <$> l) → k ∈ f <$> l →
  length (filter (λ x, f x = k) l) = 1.
Proof.
  induction l as [|x l IH]; simpl.
  - by intros _ ?%elem_of_nil.
  - intros [Hfresh Hnd]%NoDup_cons Hin. rewrite filter_cons. case_decide as Hx.
    + subst k. simpl. f_equal. apply length_zero_iff_nil.
      apply elem_of_nil_inv. intros y [Hy ?]%list_elem_of_filter.
      apply Hfresh. rewrite <- Hy. by apply list_elem_of_fmap_2.
    + apply IH; [done|]. by apply elem_of_cons in Hin as [?|?].
Qed.

Lemma core_links_loop_spec cores entries seen links :
  seen = list_to_set (core_link_key <$> links) →
  NoDup (core_link_key <$> links) →
  NoDup (core_link_key <$> core_links_loop cores entries seen links)
  ∧ (∃ new, core_links_loop cores entries seen links = links ++ new
       ∧ ∀ l, l ∈ new →
           ∃ e, e ∈ entries ∧ src_device e ∈ cores ∧ dst_device e ∈ cores
                ∧ l = link_of_entry e)
  ∧ (∀ e, e ∈ entries → src_device e ∈ cores → dst_device e ∈ cores →
       entry_key e ∈ core_link_key <$> core_links_loop cores entries seen links).
Proof.
  revert seen links. induction entries as [|e entries IH]; intros seen links Hseen Hnd.
  - cbn [core_links_loop]. split; [done|]. split.
    + exists []. split; [by rewrite (right_id_L [] (++))|]. by intros ? ?%elem_of_nil.
    + by intros ? ?%elem_of_nil.
  - cbn [core_links_loop].
    assert (Hweaken : ∀ res : list CoreLink,
      (NoDup (core_link_key <$> res)
       ∧ (∃ new, res = links ++ new
            ∧ ∀ l, l ∈ new →
                ∃ e', e' ∈ entries ∧ src_device e' ∈ cores ∧ dst_device e' ∈ cores
                      ∧ l = link_of_entry e')
       ∧ (∀ e', e' ∈ entries → src_device e' ∈ cores → dst_device e' ∈ cores →
            entry_key e' ∈ core_link_key <$> res)) →
      (src_device e ∈ cores → dst_device e ∈ cores →
         entry_key e ∈ core_link_key <$> links) →
      NoDup (core_link_key <$> res)
      ∧ (∃ new, res = links ++ new
           ∧ ∀ l, l ∈ new →
               ∃ e', e' ∈ e :: entries ∧ src_device e' ∈ cores
                     ∧ dst_device e' ∈ cores ∧ l = link_of_entry e')
      ∧ (∀ e', e' ∈ e :: entries → src_device e' ∈ cores → dst_device e' ∈ cores →
           entry_key e' ∈ core_link_key <$> res)).
    { intros res (H1 & (new & -> & H2) & H3) Hhead. split; [done|]. split.
      - exists new. split; [done|]. intros l Hl.
        destruct (H2 l Hl) as (e' & ? & ?). exists e'. split; [by right | done].
      - intros e' [->|Hin]%elem_of_cons Hs Hd; [|by apply H3].
        rewrite fmap_app. apply elem_of_app. left. by apply Hhead. }
    destruct (bool_decide (src_device e ∈ cores) && bool_decide (dst_device e ∈ cores))
      eqn:Hcore.
    + apply andb_true_iff in Hcore as [Hs%bool_decide_eq_true Hd%bool_decide_eq_true].
      fold (entry_key e). case_decide as Hin.
      * apply Hweaken; [by apply IH|]. intros _ _.
        subst seen. by apply elem_of_list_to_set in Hin.
      * fold (link_of_entry e).
        destruct (IH ({[entry_key e]} ∪ seen) (links ++ [link_of_entry e]))
          as (H1 & (new & Hnew & H2) & H3).
        { subst seen. rewrite fmap_app, list_to_set_app_L. simpl.
          rewrite (right_id_L ∅ (∪)). apply (comm_L (∪)). }
        { rewrite fmap_app. apply NoDup_app. split; [done|]. split.
          - intros k Hk [->|[]%elem_of_nil]%elem_of_cons. apply Hin. subst seen.
            by apply elem_of_list_to_set.
          - apply NoDup_singleton. }
        split; [done|]. split.
        -- exists (link_of_entry e :: new). split; [by rewrite Hnew, <- (assoc_L (++))|].
           intros l [->|Hl]%elem_of_cons.
           ++ exists e. split; [by left | done].
           ++ destruct (H2 l Hl) as (e' & ? & ?). exists e'. split; [by right | done].
        -- intros e' [->|Hin']%elem_of_cons Hs' Hd'; [|by apply H3].
           rewrite Hnew, <- (assoc_L (++)), !fmap_app. apply elem_of_app. right.
           apply elem_of_app. left. by apply list_elem_of_singleton.
    + apply Hweaken; [by apply IH|]. intros Hs Hd.
      by rewrite !bool_decide_eq_true_2 in Hcore.
Qed.

(** ** Topology synthesis: aggregation groups *)

(** A record is a leg of aggregation [ae]: it carries that id and exactly
    one of its ends is a core device. *)
Definition qualifies (device_roles : gmap string string) (ae : Z)
    (e : InterfaceLink) : Prop :=
  ae_idx e = Some ae
  ∧ xorb (is_core device_roles (src_device e))
         (is_core device_roles (dst_device e)) = true.

#[local] Instance qualifies_dec device_roles ae e :
  Decision (qualifies device_roles ae e).
Proof. unfold qualifies. apply _. Defined.

(** The legs of [ae], in the order of the sheet. *)
Definition legs_of (device_roles : gmap string string)
    (entries : list InterfaceLink) (ae : Z) : list InterfaceLink :=
  filter (qualifies device_roles ae) entries.

(** The list held under [ae] in the ordered dictionary. *)
Definition group_of (ae : Z) (ae_groups : list (Z * list InterfaceLink))
    : option (list InterfaceLink) :=
  (list_to_map ae_groups : gmap Z (list InterfaceLink)) !! ae.

Lemma setdefault_append_lookup ae e groups k :
  group_of k (setdefault_append ae e groups) =
    if decide (k = ae) then Some (default [] (group_of ae groups) ++ [e])
    else group_of k groups.
Proof.
  unfold group_of. induction groups as [|[k' conns] groups IH]; simpl.
  - case_decide; subst; [by rewrite lookup_insert_eq|].
    by rewrite lookup_insert_ne.
  - destruct (decide (k' = ae)) as [->|Hne]; simpl.
    + rewrite lookup_insert_eq. case_decide; subst.
      * by rewrite lookup_insert_eq.
      * by rewrite !lookup_insert_ne.
    + rewrite (lookup_insert_ne _ k' ae) by done.
      destruct (decide (k = k')) as [->|Hne'].
      * rewrite !lookup_insert_eq. by rewrite decide_False.
      * by rewrite !lookup_insert_ne.
Qed.

Lemma setdefault_append_keys ae e groups :
  (setdefault_append ae e groups).*1 =
    groups.*1 ++ (if decide (ae ∈ groups.*1) then [] else [ae]).
Proof.
  induction groups as [|[k conns] groups IH]; cbn [setdefault_append fmap list_fmap fst app].
  - rewrite decide_False; [done|]. apply not_elem_of_nil.
  - destruct (decide (k = ae)) as [->|Hne]; cbn [fmap list_fmap fst app].
    + rewrite decide_True by (by left). by rewrite (right_id_L [] (++)).
    + rewrite IH. f_equal. destruct (decide (ae ∈ groups.*1)).
      * by rewrite decide_True by (by right).
      * rewrite decide_False; [done|]. by intros [?|?]%elem_of_cons.
Qed.

Lemma setdefault_append_NoDup ae e groups :
  NoDup groups.*1 → NoDup (setdefault_append ae e groups).*1.
Proof.
  intros Hnd. rewrite setdefault_append_keys. case_decide.
  - by rewrite (right_id_L [] (++)).
  - apply NoDup_app. split; [done|]. split; [|apply NoDup_singleton].
    by intros k Hk ->%list_elem_of_singleton.
Qed.

Lemma group_legs_NoDup device_roles entries groups :
  NoDup groups.*1 → NoDup (group_legs device_roles entries groups).*1.
Proof.
  revert groups. induction entries as [|e entries IH]; intros groups Hnd; [done|].
  cbn [group_legs]. destruct (ae_idx e) as [ae|]; [|by apply IH].
  destruct (xorb _ _); apply IH; [|done]. by apply setdefault_append_NoDup.
Qed.

Lemma legs_of_cons device_roles e entries ae :
  legs_of device_roles (e :: entries) ae =
    if decide (qualifies device_roles ae e)
    then e :: legs_of device_roles entries ae
    else legs_of device_roles entries ae.
Proof. unfold legs_of. by rewrite filter_cons. Qed.

(** The dictionary after the second loop: under each id the legs of that
    id, appended to what it held before. *)
Lemma group_legs_lookup device_roles entries groups ae :
  group_of ae (group_legs device_roles entries groups) =
    match legs_of device_roles entries ae with
    | [] => group_of ae groups
    | legs => Some (default [] (group_of ae groups) ++ legs)
    end.
Proof.
  revert groups. induction entries as [|e entries IH]; intros groups; [done|].
  cbn [group_legs]. rewrite legs_of_cons.
  destruct (decide (qualifies device_roles ae e)) as [[Hae Hx]|Hnq].
  - rewrite Hae, Hx, IH, setdefault_append_lookup, decide_True by done. simpl.
    destruct (legs_of device_roles entries ae); [done|].
    by rewrite <- (assoc_L (++)).
  - destruct (ae_idx e) as [ae'|] eqn:Hae; [|apply IH].
    destruct (xorb _ _) eqn:Hx; [|apply IH].
    rewrite IH, setdefault_append_lookup. rewrite decide_False; [done|].
    intros ->. by apply Hnq.
Qed.

Lemma group_legs_elem device_roles entries ae conns :
  (ae, conns) ∈ group_legs device_roles entries [] ↔
  conns = legs_of device_roles entries ae ∧ conns ≠ [].
Proof.
  rewrite (elem_of_list_to_map (M := gmap Z))
    by (apply group_legs_NoDup; constructor).
  fold (group_of ae (group_legs device_roles entries [])).
  rewrite group_legs_lookup. unfold group_of. simpl. rewrite lookup_empty.
  destruct (legs_of device_roles entries ae) as [|c legs]; simpl.
  - split; [done|]. by intros [-> ?].
  - split; [by intros [= <-] | by intros [-> _]].
Qed.

(** The ids are met in the order in which their first legs stand in the
    sheet. *)
Lemma group_legs_keys device_roles entries groups :
  (group_legs device_roles entries groups).*1 =
    foldl (λ keys e,
             match ae_idx e with
             | Some ae =>
                 if decide (qualifies device_roles ae e)
                 then (if decide (ae ∈ keys) then keys else keys ++ [ae])
                 else keys
             | None => keys
             end) groups.*1 entries.
Proof.
  revert groups. induction entries as [|e entries IH]; intros groups; [done|].
  cbn [group_legs foldl].
  destruct (ae_idx e) as [ae|] eqn:Hae; [|apply IH].
  destruct (decide (qualifies device_roles ae e)) as [[_ Hx]|Hnq].
  - rewrite Hx, IH, setdefault_append_keys.
    case_decide; [by rewrite (right_id_L [] (++)) | done].
  - destruct (xorb _ _) eqn:Hx; [by destruct Hnq | apply IH].
Qed.

(** Every leg in a group has exactly one core end. *)
Lemma group_legs_qualify device_roles entries ae conns c :
  (ae, conns) ∈ group_legs device_roles entries [] → c ∈ conns →
  qualifies device_roles ae c.
Proof.
  intros [-> _]%group_legs_elem Hc. unfold legs_of in Hc.
  by apply list_elem_of_filter in Hc as [? _].
Qed.

(** ** Topology synthesis: the port-configuration maps *)

(** The entry of a (device, port) pair in a nested map. *)
Definition port_lookup (cfg : gmap string (gmap string PortConfigEntry))
    (x : endpoint) : option PortConfigEntry :=
  cfg !! x.1 ≫= (λ ports, ports !! x.2).

(** The core end and the access end of a leg. *)
Definition leg_core (device_roles : gmap string string) (c : InterfaceLink)
    : endpoint :=
  let '(core_dev, core_port, _, _) := leg_ends device_roles c in
  (core_dev, core_port).

Definition leg_access (device_roles : gmap string string) (c : InterfaceLink)
    : endpoint :=
  let '(_, _, access_dev, access_port) := leg_ends device_roles c in
  (access_dev, access_port).

Lemma port_lookup_insert cfg d p v ports x :
  cfg !! d = Some ports →
  port_lookup (<[d := <[p := v]> ports]> cfg) x =
    if decide (x = (d, p)) then Some v else port_lookup cfg x.
Proof.
  intros Hd. destruct x as [d' p']. unfold port_lookup. simpl.
  destruct (decide (d' = d)) as [->|Hne].
  - rewrite lookup_insert_eq, Hd. simpl.
    destruct (decide (p' = p)) as [->|Hne'].
    + by rewrite lookup_insert_eq, decide_True.
    + rewrite lookup_insert_ne by done. rewrite decide_False; [done|]. congruence.
  - rewrite lookup_insert_ne by done. rewrite decide_False; [done|]. congruence.
Qed.

Lemma set_port_inv cfg d p v cfg' :
  set_port cfg d p v = Ok cfg' →
  d ∈ dom cfg ∧ dom cfg' = dom cfg
  ∧ ∀ x, port_lookup cfg' x = if decide (x = (d, p)) then Some v else port_lookup cfg x.
Proof.
  unfold set_port. destruct (cfg !! d) as [ports|] eqn:Hd; [|done].
  intros [= <-]. split; [by apply elem_of_dom|]. split.
  - by rewrite dom_insert_lookup_L.
  - intros x. by apply port_lookup_insert.
Qed.

Lemma set_port_total cfg d p v :
  d ∈ dom cfg → ∃ cfg', set_port cfg d p v = Ok cfg'.
Proof.
  intros [ports Hd]%elem_of_dom. unfold set_port. rewrite Hd. by eexists.
Qed.

Section Legs.
Context (device_roles : gmap string string).

Lemma process_conns_ok ae conns cpc ad ap cpc' ad' ap' :
  process_conns device_roles ae conns cpc ad ap = Ok (cpc', ad', ap') →
  dom cpc' = dom cpc
  ∧ ad' = match last conns with
          | Some c => Some (leg_access device_roles c).1
          | None => ad
          end
  ∧ ap' = ap ++ ((λ c, (leg_access device_roles c).2) <$> conns)
  ∧ NoDup (leg_core device_roles <$> conns)
  ∧ (∀ c, c ∈ conns → port_lookup cpc (leg_core device_roles c) = None)
  ∧ ∀ x, port_lookup cpc' x =
         if decide (x ∈ leg_core device_roles <$> conns) then Some (esi_lag_core_entry ae)
         else port_lookup cpc x.
Proof.
  revert cpc ad ap. induction conns as [|c conns IH]; intros cpc ad ap.
  - intros [= <- <- <-]. cbn [fmap list_fmap last]. rewrite (right_id_L [] (++)).
    split; [done|]. split; [done|]. split; [done|].
    split; [apply NoDup_nil_2|]. split; [by intros ? ?%elem_of_nil|].
    intros x. rewrite decide_False; [done|]. apply not_elem_of_nil.
  - cbn [process_conns].
    assert (Hcore : leg_core device_roles c
                    = ((leg_ends device_roles c).1.1.1, (leg_ends device_roles c).1.1.2)).
    { unfold leg_core. by destruct (leg_ends device_roles c) as [[[? ?] ?] ?]. }
    assert (Hacc : leg_access device_roles c
                   = ((leg_ends device_roles c).1.2, (leg_ends device_roles c).2)).
    { unfold leg_access. by destruct (leg_ends device_roles c) as [[[? ?] ?] ?]. }
    destruct (leg_ends device_roles c) as [[[cd cp] ad1] ap1] eqn:Hends.
    simpl in Hcore, Hacc.
    destruct (cpc !! cd) as [ports|] eqn:Hcd; [|done].
    case_decide as Hused; [done|].
    intros (Hdom & Had & Hap & Hnd & Hfresh & Hlook)%IH.
    assert (Hhead : port_lookup cpc (cd, cp) = None).
    { unfold port_lookup. simpl. rewrite Hcd. simpl.
      by apply eq_None_not_Some. }
    assert (Hnotin : (cd, cp) ∉ leg_core device_roles <$> conns).
    { intros (c' & Hc' & Hin)%list_elem_of_fmap.
      specialize (Hfresh c' Hin). rewrite <- Hc' in Hfresh.
      rewrite (port_lookup_insert _ _ _ _ _ _ Hcd), decide_True in Hfresh; done. }
    split; [|split; [|split; [|split; [|split]]]].
    + by rewrite Hdom, dom_insert_lookup_L.
    + rewrite Had, last_cons. destruct (last conns); [done|].
      by rewrite Hacc.
    + rewrite Hap, <- (assoc_L (++)). cbn [fmap list_fmap app]. by rewrite Hacc.
    + cbn [fmap list_fmap]. rewrite Hcore. by apply NoDup_cons.
    + intros c' [->|Hin]%elem_of_cons; [by rewrite Hcore|].
      specialize (Hfresh c' Hin).
      rewrite (port_lookup_insert _ _ _ _ _ _ Hcd) in Hfresh.
      by case_decide.
    + intros x. rewrite Hlook. cbn [fmap list_fmap]. rewrite Hcore.
      rewrite (port_lookup_insert _ _ _ _ _ _ Hcd).
      destruct (decide (x = (cd, cp))) as [->|Hne].
      * rewrite (decide_True (P := (cd, cp) ∈ (cd, cp) :: _)) by (by left).
        by case_decide.
      * destruct (decide (x ∈ _ <$> conns)) as [Hin|Hnin].
        -- by rewrite decide_True by (by right).
        -- rewrite decide_False; [done|]. by intros [?|?]%elem_of_cons.
Qed.

Lemma process_conns_raise ae conns cpc ad ap e :
  process_conns device_roles ae conns cpc ad ap = Raise e →
  (∃ d p pre c post,
      e = PortConflictError d p ∧ conns = pre ++ c :: post ∧ leg_core device_roles c = (d, p)
      ∧ ((d, p) ∈ leg_core device_roles <$> pre ∨ is_Some (port_lookup cpc (d, p))))
  ∨ (∃ c, e = KeyError (leg_core device_roles c).1 ∧ c ∈ conns ∧ (leg_core device_roles c).1 ∉ dom cpc).
Proof.
  revert cpc ad ap. induction conns as [|c conns IH]; intros cpc ad ap; [done|].
  cbn [process_conns].
  assert (Hcore : leg_core device_roles c = ((leg_ends device_roles c).1.1.1,
                                 (leg_ends device_roles c).1.1.2)).
  { unfold leg_core. by destruct (leg_ends device_roles c) as [[[? ?] ?] ?]. }
  destruct (leg_ends device_roles c) as [[[cd cp] ad1] ap1] eqn:Hends.
  simpl in Hcore.
  destruct (cpc !! cd) as [ports|] eqn:Hcd.
  - case_decide as Hused.
    + intros [= <-]. left. exists cd, cp, [], c, conns.
      repeat split; try done. right. unfold port_lookup. simpl. by rewrite Hcd.
    + intros [Hconf|Hkey]%IH.
      * destruct Hconf as (d & p & pre & c' & post & -> & -> & Hc' & Hwhere).
        left. exists d, p, (c :: pre), c', post. repeat split; try done.
        destruct Hwhere as [Hin|Hsome]; [left; by right|].
        rewrite (port_lookup_insert _ _ _ _ _ _ Hcd) in Hsome.
        case_decide as Heq; [|by right].
        left. rewrite Heq. cbn [fmap list_fmap]. rewrite Hcore. by left.
      * destruct Hkey as (c' & -> & Hin & Hdom). right. exists c'.
        split; [done|]. split; [by right|].
        by rewrite dom_insert_lookup_L in Hdom.
  - intros [= <-]. right. exists c. rewrite Hcore. simpl.
    split; [done|]. split; [by left|]. by apply not_elem_of_dom.
Qed.

Lemma process_conns_total ae conns cpc ad ap :
  (∀ c, c ∈ conns → (leg_core device_roles c).1 ∈ dom cpc) →
  NoDup (leg_core device_roles <$> conns) →
  (∀ c, c ∈ conns → port_lookup cpc (leg_core device_roles c) = None) →
  ∃ r, process_conns device_roles ae conns cpc ad ap = Ok r.
Proof.
  intros Hdom Hnd Hfresh.
  destruct (process_conns device_roles ae conns cpc ad ap) as [r|e] eqn:Hrun;
    [by exists r|].
  exfalso. apply process_conns_raise in Hrun as [Hconf|(c & _ & Hin & Hout)].
  - destruct Hconf as (d & p & pre & c & post & _ & -> & Hc & [Hin|Hsome]).
    + rewrite fmap_app in Hnd. apply NoDup_app in Hnd as (_ & Hdisj & _).
      apply (Hdisj _ Hin). cbn [fmap list_fmap]. rewrite Hc. by left.
    + rewrite <- Hc, Hfresh in Hsome; [by destruct Hsome|].
      apply elem_of_app. right. by left.
  - by apply Hout, Hdom.
Qed.
End Legs.

(** The access device of a group is the access end of its last leg; the
    bundle key is made of the access ports of all its legs. *)
Definition group_access_dev (device_roles : gmap string string)
    (conns : list InterfaceLink) : option string :=
  (λ c, (leg_access device_roles c).1) <$> last conns.

Definition group_port_key (device_roles : gmap string string)
    (conns : list InterfaceLink) : string :=
  bundle_port_key ((λ c, (leg_access device_roles c).2) <$> conns).

(** The bundle that the groups leave for an access device: that of the
    last group, in processing order, whose access device it is. *)
Definition last_bundle (device_roles : gmap string string)
    (ae_groups : list (Z * list InterfaceLink)) (dev : string)
    : option (gmap string PortConfigEntry) :=
  (λ g : Z * list InterfaceLink,
     {[ group_port_key device_roles g.2 := esi_lag_access_entry g.1 ]})
  <$> last (filter (λ g, group_access_dev device_roles g.2 = Some dev) ae_groups).

Lemma legs_cons (ae : Z) (conns : list InterfaceLink)
    (groups : list (Z * list InterfaceLink)) :
  mjoin ((ae, conns) :: groups).*2 = conns ++ mjoin groups.*2.
Proof. reflexivity. Qed.

Section Groups.
Context (device_roles : gmap string string).

Lemma process_groups_ok groups cpc apc cpc' apc' :
  process_groups device_roles groups cpc apc = Ok (cpc', apc') →
  Forall (λ g, length g.2 = 2) groups
  ∧ dom cpc' = dom cpc
  ∧ NoDup (leg_core device_roles <$> mjoin groups.*2)
  ∧ (∀ c, c ∈ mjoin groups.*2 → port_lookup cpc (leg_core device_roles c) = None)
  ∧ (∀ x, x ∉ leg_core device_roles <$> mjoin groups.*2 →
       port_lookup cpc' x = port_lookup cpc x)
  ∧ (∀ ae conns c, (ae, conns) ∈ groups → c ∈ conns →
       port_lookup cpc' (leg_core device_roles c) = Some (esi_lag_core_entry ae))
  ∧ (∀ dev, apc' !! dev =
       match last_bundle device_roles groups dev with
       | Some bundle => Some bundle
       | None => apc !! dev
       end).
Proof.
  revert cpc apc. induction groups as [|[ae conns] groups IH]; intros cpc apc.
  - intros [= <- <-]. cbn.
    split; [constructor|]. split; [done|]. split; [apply NoDup_nil_2|].
    split; [by intros ? ?%elem_of_nil|]. split; [done|].
    split; [by intros ? ? ? ?%elem_of_nil | done].
  - cbn [process_groups]. case_decide as Hlen; [done|].
    destruct (process_conns device_roles ae conns cpc None [])
      as [[[cpc1 ad] ap]|e] eqn:Hconns; [|done].
    cbn [mbind result_bind].
    apply process_conns_ok in Hconns as (Hdom1 & Had & Hap & Hnd1 & Hfresh1 & Hlook1).
    cbn [app] in Hap.
    intros (Hsize & Hdom & Hnd & Hfresh & Hout & Hin & Hapc)%IH.
    assert (Hdisj : ∀ x, x ∈ leg_core device_roles <$> conns →
                         x ∉ leg_core device_roles <$> mjoin groups.*2).
    { intros x Hx (c & -> & Hc)%list_elem_of_fmap.
      specialize (Hfresh c Hc). rewrite Hlook1, decide_True in Hfresh; done. }
    rewrite !legs_cons, fmap_app.
    split; [|split; [|split; [|split; [|split; [|split]]]]].
    + constructor; [simpl; lia | done].
    + by rewrite Hdom.
    + apply NoDup_app. by repeat split.
    + intros c [Hc|Hc]%elem_of_app; [by apply Hfresh1|].
      specialize (Hfresh c Hc). rewrite Hlook1 in Hfresh. by case_decide.
    + intros x [Hx1 Hx2]%not_elem_of_app.
      by rewrite (Hout x Hx2), Hlook1, decide_False.
    + intros ae' conns' c [[= -> ->]|Hg]%elem_of_cons Hc; [|by eapply Hin].
      rewrite Hout, Hlook1.
      * rewrite decide_True; [done|]. by apply list_elem_of_fmap_2.
      * by apply Hdisj, list_elem_of_fmap_2.
    + assert (Hgad : group_access_dev device_roles conns = ad).
      { unfold group_access_dev. rewrite Had. by destruct (last conns). }
      assert (Hkey : group_port_key device_roles conns = bundle_port_key ap).
      { unfold group_port_key. by rewrite Hap. }
      destruct ad as [d|]; last first.
      { unfold group_access_dev in Hgad.
        destruct (last conns) eqn:Hl; [done|].
        apply last_None in Hl. subst conns. simpl in Hlen. lia. }
      intros dev. rewrite Hapc. unfold last_bundle. rewrite filter_cons.
      cbn [snd]. rewrite Hgad.
      destruct (decide (Some d = Some dev)) as [[= ->]|Hd].
      * rewrite last_cons.
        destruct (last (filter _ groups)) as [g|]; [done|]. cbn [fmap option_fmap option_map fst snd].
        by rewrite lookup_insert_eq, Hkey.
      * destruct (last (filter _ groups)) as [g|]; [done|]. cbn [fmap option_fmap option_map].
        rewrite lookup_insert_ne; [done|]. congruence.
Qed.

Lemma process_groups_raise groups cpc apc e :
  process_groups device_roles groups cpc apc = Raise e →
  (∃ pre ae conns post,
      e = AggregationGroupSizeError ae (length conns)
      ∧ groups = pre ++ (ae, conns) :: post ∧ length conns ≠ 2
      ∧ Forall (λ g, length g.2 = 2) pre)
  ∨ (∃ d p pre c post,
      e = PortConflictError d p ∧ mjoin groups.*2 = pre ++ c :: post
      ∧ leg_core device_roles c = (d, p)
      ∧ ((d, p) ∈ leg_core device_roles <$> pre ∨ is_Some (port_lookup cpc (d, p))))
  ∨ (∃ c, e = KeyError (leg_core device_roles c).1 ∧ c ∈ mjoin groups.*2
          ∧ (leg_core device_roles c).1 ∉ dom cpc).
Proof.
  revert cpc apc. induction groups as [|[ae conns] groups IH]; intros cpc apc; [done|].
  cbn [process_groups]. case_decide as Hlen.
  { intros [= <-]. left. by exists [], ae, conns, groups. }
  destruct (process_conns device_roles ae conns cpc None [])
    as [[[cpc1 ad] ap]|e'] eqn:Hconns; cbn [mbind result_bind].
  - apply process_conns_ok in Hconns as (Hdom1 & _ & _ & _ & _ & Hlook1).
    intros [Hsize|[Hconf|Hkey]]%IH.
    + destruct Hsize as (pre & ae' & conns' & post & -> & -> & Hbad & Hpre).
      left. exists ((ae, conns) :: pre), ae', conns', post.
      repeat split; try done. constructor; [simpl; lia | done].
    + destruct Hconf as (d & p & pre & c & post & -> & Hcat & Hc & Hwhere).
      right; left. exists d, p, (conns ++ pre), c, post.
      split; [done|]. split.
      { rewrite !legs_cons. by rewrite Hcat, <- (assoc_L (++)). }
      split; [done|]. rewrite fmap_app. destruct Hwhere as [Hin|Hsome].
      * left. apply elem_of_app. by right.
      * rewrite Hlook1 in Hsome. case_decide; [|by right].
        left. apply elem_of_app. by left.
    + destruct Hkey as (c & -> & Hc & Hout). right; right. exists c.
      split; [done|]. split; [|by rewrite <- Hdom1].
      rewrite !legs_cons. apply elem_of_app. by right.
  - intros [= <-]. apply process_conns_raise in Hconns as [Hconf|Hkey].
    + destruct Hconf as (d & p & pre & c & post & -> & -> & Hc & Hwhere).
      right; left. exists d, p, pre, c, (post ++ mjoin groups.*2).
      split; [done|]. split; [|done].
      rewrite !legs_cons. by rewrite <- (assoc_L (++)).
    + destruct Hkey as (c & -> & Hc & Hout). right; right. exists c.
      split; [done|]. split; [|done].
      rewrite !legs_cons. apply elem_of_app. by left.
Qed.

Lemma process_groups_total groups cpc apc :
  Forall (λ g, length g.2 = 2) groups →
  (∀ c, c ∈ mjoin groups.*2 → (leg_core device_roles c).1 ∈ dom cpc) →
  NoDup (leg_core device_roles <$> mjoin groups.*2) →
  (∀ c, c ∈ mjoin groups.*2 → port_lookup cpc (leg_core device_roles c) = None) →
  ∃ r, process_groups device_roles groups cpc apc = Ok r.
Proof.
  intros Hsize Hdom Hnd Hfresh.
  destruct (process_groups device_roles groups cpc apc) as [r|e] eqn:Hrun;
    [by exists r|].
  exfalso. apply process_groups_raise in Hrun as [Hbad|[Hconf|Hkey]].
  - destruct Hbad as (pre & ae & conns & post & _ & -> & Hlen & _).
    apply Forall_app in Hsize as [_ Hsize]. apply Forall_cons in Hsize as [? _]. done.
  - destruct Hconf as (d & p & pre & c & post & _ & Hcat & Hc & [Hin|Hsome]).
    + rewrite Hcat, fmap_app in Hnd. apply NoDup_app in Hnd as (_ & Hdisj & _).
      apply (Hdisj _ Hin). cbn [fmap list_fmap]. rewrite Hc. by left.
    + rewrite <- Hc, Hfresh in Hsome; [by destruct Hsome|].
      rewrite Hcat. apply elem_of_app. right. by left.
  - destruct Hkey as (c & _ & Hc & Hout). by apply Hout, Hdom.
Qed.

Lemma process_groups_app pre post cpc apc :
  process_groups device_roles (pre ++ post) cpc apc =
    r ← process_groups device_roles pre cpc apc;
    process_groups device_roles post r.1 r.2.
Proof.
  revert cpc apc. induction pre as [|[ae conns] pre IH]; intros cpc apc; [done|].
  cbn [app process_groups]. case_decide; [done|].
  destruct (process_conns device_roles ae conns cpc None []) as [[[cpc1 ad] ap]|e];
    cbn [mbind result_bind]; [|done].
  apply IH.
Qed.
End Groups.

(** ** Topology synthesis: the core-link assignments *)

(** The two ends of a core link. *)
Definition link_ends (l : CoreLink) : list endpoint :=
  [(core1 l, port1 l); (core2 l, port2 l)].

Lemma link_usages_odd n :
  link_usages n =
    if Nat.odd n then ("evpn_downlink", "evpn_uplink")
    else ("evpn_uplink", "evpn_downlink").
Proof.
  unfold link_usages. destruct (Nat.odd n) eqn:Hodd.
  - apply Nat.odd_spec in Hodd as [m ->]. rewrite decide_True; [done|].
    replace (2 * m + 1) with (1 + m * 2) by lia. by rewrite Nat.Div0.mod_add.
  - rewrite decide_False; [done|]. intros Hmod.
    assert (Nat.odd n = true); [|congruence].
    apply Nat.odd_spec. exists (n / 2). pose proof (Nat.div_mod_eq n 2). lia.
Qed.

(** One iteration: two writes, the one for [core2] last. *)
Lemma assign_links_cons i l links cpc cpc' :
  assign_links i (l :: links) cpc = Ok cpc' →
  ∃ after,
    core1 l ∈ dom cpc ∧ core2 l ∈ dom cpc ∧ dom after = dom cpc
    ∧ (∀ x, port_lookup after x =
         if decide (x = (core2 l, port2 l))
         then Some (link_entry (link_usages i).2 i)
         else if decide (x = (core1 l, port1 l))
              then Some (link_entry (link_usages i).1 i)
              else port_lookup cpc x)
    ∧ assign_links (S i) links after = Ok cpc'.
Proof.
  cbn [assign_links]. destruct (link_usages i) as [u1 u2].
  destruct (set_port cpc (core1 l) (port1 l) (link_entry u1 i)) as [cfg1|] eqn:H1;
    [|done].
  cbn [mbind result_bind].
  destruct (set_port cfg1 (core2 l) (port2 l) (link_entry u2 i)) as [cfg2|] eqn:H2;
    [|done].
  cbn [mbind result_bind]. intros Hrest. exists cfg2.
  apply set_port_inv in H1 as (Hd1 & Hdom1 & Hl1).
  apply set_port_inv in H2 as (Hd2 & Hdom2 & Hl2).
  split; [done|]. split; [by rewrite <- Hdom1|]. split; [by rewrite Hdom2|].
  split; [|done]. intros x. by rewrite Hl2, Hl1.
Qed.


Lemma assign_links_total i links cpc :
  (∀ l, l ∈ links → core1 l ∈ dom cpc ∧ core2 l ∈ dom cpc) →
  ∃ cpc', assign_links i links cpc = Ok cpc'.
Proof.
  revert i cpc. induction links as [|l links IH]; intros i cpc Hdom; [by eexists|].
  cbn [assign_links]. destruct (link_usages i) as [u1 u2].
  destruct (Hdom l) as [Hd1 Hd2]; [by left|].
  destruct (set_port_total cpc (core1 l) (port1 l) (link_entry u1 i) Hd1)
    as [cfg1 H1].
  rewrite H1. cbn [mbind result_bind].
  apply set_port_inv in H1 as (_ & Hdom1 & _).
  destruct (set_port_total cfg1 (core2 l) (port2 l) (link_entry u2 i))
    as [cfg2 H2]; [by rewrite Hdom1|].
  rewrite H2. cbn [mbind result_bind].
  apply set_port_inv in H2 as (_ & Hdom2 & _).
  apply IH. intros l' Hl'. rewrite Hdom2, Hdom1. apply Hdom. by right.
Qed.

(** After the loop every end of a link carries a link assignment, and no
    other port is touched. *)
Lemma assign_links_final i links cpc cpc' :
  assign_links i links cpc = Ok cpc' →
  dom cpc' = dom cpc
  ∧ (∀ l, l ∈ links → core1 l ∈ dom cpc ∧ core2 l ∈ dom cpc)
  ∧ (∀ x, x ∈ mjoin (link_ends <$> links) →
       ∃ u k, port_lookup cpc' x = Some (link_entry u k)
              ∧ (u = "evpn_uplink" ∨ u = "evpn_downlink"))
  ∧ (∀ x, x ∉ mjoin (link_ends <$> links) → port_lookup cpc' x = port_lookup cpc x).
Proof.
  revert i cpc. induction links as [|l links IH]; intros i cpc.
  - intros [= <-]. split; [done|]. split; [by intros ? ?%elem_of_nil|].
    split; [by intros ? ?%elem_of_nil | done].
  - intros (after & Hd1 & Hd2 & Hdom & Hlook & Hrest)%assign_links_cons.
    apply IH in Hrest as (Hdom' & Hdoms & Hin & Hout).
    assert (Husage : ∀ u, u = (link_usages i).1 ∨ u = (link_usages i).2 →
                          u = "evpn_uplink" ∨ u = "evpn_downlink").
    { intros u. rewrite link_usages_odd. destruct (Nat.odd i); simpl; tauto. }
    split; [by rewrite Hdom'|]. split; [|split].
    + intros l' [->|Hl']%elem_of_cons; [done|]. rewrite <- Hdom. by apply Hdoms.
    + intros x Hx. destruct (decide (x ∈ mjoin (link_ends <$> links))) as [Hlater|Hlater].
      { by apply Hin. }
      rewrite (Hout x Hlater), Hlook.
      cbn [fmap list_fmap mjoin list_join link_ends app] in Hx.
      repeat case_decide.
      * eexists _, _. split; [done|]. apply Husage. by right.
      * eexists _, _. split; [done|]. apply Husage. by left.
      * apply elem_of_cons in Hx as [?|Hx]; [done|].
        apply elem_of_cons in Hx as [?|Hx]; done.
    + intros x Hx. cbn [fmap list_fmap mjoin list_join link_ends app] in Hx.
      apply not_elem_of_cons in Hx as [Hx1 Hx].
      apply not_elem_of_cons in Hx as [Hx2 Hx].
      rewrite (Hout x Hx), Hlook. by rewrite !decide_False.
Qed.

(** ** Topology synthesis: the whole run *)

(** The core map before the aggregation groups are processed. *)
Definition initial_core_config (core_devices : list string)
    : gmap string (gmap string PortConfigEntry) :=
  list_to_map ((λ c, (c, ∅)) <$> core_devices).

Lemma initial_core_config_lookup core_devices d :
  initial_core_config core_devices !! d =
    if decide (d ∈ core_devices) then Some ∅ else None.
Proof.
  induction core_devices as [|c cores IH].
  - rewrite decide_False by apply not_elem_of_nil. apply lookup_empty.
  - change (initial_core_config (c :: cores))
      with (<[c := ∅]> (initial_core_config cores)).
    destruct (decide (d = c)) as [->|Hne].
    + rewrite lookup_insert_eq. by rewrite decide_True by (by left).
    + rewrite lookup_insert_ne, IH by done. destruct (decide (d ∈ cores)).
      * by rewrite decide_True by (by right).
      * rewrite decide_False; [done|]. by intros [?|?]%elem_of_cons.
Qed.

Lemma initial_core_config_dom core_devices d :
  d ∈ dom (initial_core_config core_devices) ↔ d ∈ core_devices.
Proof.
  rewrite elem_of_dom, initial_core_config_lookup.
  case_decide; [done|]. split; [by intros [? ?] | done].
Qed.

Lemma initial_core_config_ports core_devices x :
  port_lookup (initial_core_config core_devices) x = None.
Proof.
  unfold port_lookup. rewrite initial_core_config_lookup. by case_decide.
Qed.

(** The sorted core devices of a role map. *)
Definition sorted_cores (device_roles : gmap string string) : list string :=
  Py.sorted Py.lt (core_role_devices device_roles).

Lemma build_topology_ok entries device_roles links cpc apc :
  _build_topology entries device_roles = Ok (links, cpc, apc) →
  (2 ≤ length (core_role_devices device_roles))%nat
  ∧ links = core_links_loop (sorted_cores device_roles) entries ∅ []
  ∧ ∃ cpc1,
      process_groups device_roles (group_legs device_roles entries [])
        (initial_core_config (sorted_cores device_roles)) ∅ = Ok (cpc1, apc)
      ∧ assign_links 1 (Py.sorted link_lt links) cpc1 = Ok cpc.
Proof.
  unfold _build_topology. case_decide as Hlen; [done|].
  fold (sorted_cores device_roles).
  fold (initial_core_config (sorted_cores device_roles)).
  destruct (process_groups _ _ _ _) as [[cpc1 apc1]|e] eqn:Hgroups; [|done].
  cbn [mbind result_bind].
  destruct (assign_links _ _ _) as [cpc2|e] eqn:Hlinks; [|done].
  cbn [mbind result_bind mret result_ret]. intros [= <- <- <-].
  split; [lia|]. split; [done|]. by exists cpc1.
Qed.

Lemma build_topology_raise entries device_roles e :
  _build_topology entries device_roles = Raise e →
  (e = TopologyUnderspecifiedError ∧ length (core_role_devices device_roles) < 2)
  ∨ ((2 ≤ length (core_role_devices device_roles))%nat
     ∧ process_groups device_roles (group_legs device_roles entries [])
         (initial_core_config (sorted_cores device_roles)) ∅ = Raise e)
  ∨ (∃ cpc1 apc,
       process_groups device_roles (group_legs device_roles entries [])
         (initial_core_config (sorted_cores device_roles)) ∅ = Ok (cpc1, apc)
       ∧ assign_links 1
           (Py.sorted link_lt
              (core_links_loop (sorted_cores device_roles) entries ∅ [])) cpc1
         = Raise e).
Proof.
  unfold _build_topology. case_decide as Hlen.
  { intros [= <-]. by left. }
  fold (sorted_cores device_roles).
  fold (initial_core_config (sorted_cores device_roles)).
  destruct (process_groups _ _ _ _) as [[cpc1 apc1]|e'] eqn:Hgroups.
  - cbn [mbind result_bind].
    destruct (assign_links _ _ _) as [cpc2|e''] eqn:Hlinks; [done|].
    cbn [mbind result_bind]. intros [= <-]. right; right. by exists cpc1, apc1.
  - cbn [mbind result_bind]. intros [= <-]. right; left. split; [lia | done].
Qed.

(** The core end of a leg is a core device. *)
Lemma leg_core_is_core device_roles ae c :
  qualifies device_roles ae c →
  (leg_core device_roles c).1 ∈ sorted_cores device_roles.
Proof.
  intros [_ Hx]. apply is_core_elem. unfold leg_core, leg_ends.
  destruct (is_core device_roles (src_device c)) eqn:Hs; simpl; [done|].
  by destruct (is_core device_roles (dst_device c)).
Qed.

Lemma core_links_in_cores device_roles entries l :
  l ∈ core_links_loop (sorted_cores device_roles) entries ∅ [] →
  core1 l ∈ sorted_cores device_roles ∧ core2 l ∈ sorted_cores device_roles.
Proof.
  destruct (core_links_loop_spec (sorted_cores device_roles) entries ∅ [])
    as (_ & (new & -> & Hnew) & _); [done | constructor |].
  intros Hl. destruct (Hnew l Hl) as (e & _ & Hs & Hd & ->). done.
Qed.

(** The third loop cannot fail: a core link joins two core devices. *)
Lemma assign_links_never_raises device_roles entries i cpc1 :
  dom cpc1 = dom (initial_core_config (sorted_cores device_roles)) →
  ∃ cpc,
    assign_links i
      (Py.sorted link_lt (core_links_loop (sorted_cores device_roles) entries ∅ []))
      cpc1 = Ok cpc.
Proof.
  intros Hdom. apply assign_links_total. intros l Hl.
  rewrite sorted_links_perm in Hl. apply core_links_in_cores in Hl as [H1 H2].
  rewrite Hdom. by split; apply initial_core_config_dom.
Qed.

(** A record with two core ends, or without aggregation id, is no leg: the
    groups are the same with it and without it. *)
Lemma group_legs_skip device_roles pre e post groups :
  ae_idx e = None
  ∨ xorb (is_core device_roles (src_device e))
         (is_core device_roles (dst_device e)) = false →
  group_legs device_roles (pre ++ e :: post) groups
  = group_legs device_roles (pre ++ post) groups.
Proof.
  intros He. revert groups. induction pre as [|e' pre IH]; intros groups.
  - cbn [app group_legs]. destruct He as [-> | Hx]; [done|].
    rewrite Hx. by destruct (ae_idx e).
  - cbn [app group_legs]. destruct (ae_idx e'); [|apply IH].
    destruct (xorb (is_core device_roles (src_device e'))
                   (is_core device_roles (dst_device e'))); apply IH.
Qed.

(** The failures of a run: too few core devices, or a failure of the
    aggregation groups.  The last loop adds none. *)
Lemma build_topology_raise_iff entries device_roles err :
  _build_topology entries device_roles = Raise err ↔
  (err = TopologyUnderspecifiedError
   ∧ length (core_role_devices device_roles) < 2)
  ∨ ((2 ≤ length (core_role_devices device_roles))%nat
     ∧ process_groups device_roles (group_legs device_roles entries [])
         (initial_core_config (sorted_cores device_roles)) ∅ = Raise err).
Proof.
  split.
  - intros [?|[?|(cpc1 & apc & Hgroups & Hlinks)]]%build_topology_raise;
      [by left | by right |].
    apply process_groups_ok in Hgroups as (_ & Hdom & _).
    destruct (assign_links_never_raises device_roles entries 1 cpc1 Hdom)
      as [cpc Hok]. congruence.
  - unfold _build_topology. intros [[-> Hlen]|[Hlen Hgroups]].
    + by rewrite decide_True.
    + rewrite decide_False by lia.
      fold (sorted_cores device_roles).
      fold (initial_core_config (sorted_cores device_roles)).
      by rewrite Hgroups.
Qed.

(** The order in which the devices of a role map are listed does not
    matter: any listing of the core devices sorts to the same list. *)
Lemma sorted_cores_any_order device_roles (listing : list string) :
  listing ≡ₚ core_role_devices device_roles →
  Py.sorted Py.lt listing = sorted_cores device_roles.
Proof.
  intros Hperm.
  apply (sorted_unique (below String.compare)).
  - apply below_irrefl, string_compare_lawful.
  - apply below_trans, string_compare_lawful.
  - apply sorted_strings_strict. rewrite Hperm. apply core_role_devices_NoDup.
  - apply sorted_strings_strict, core_role_devices_NoDup.
  - unfold sorted_cores. by rewrite !sorted_strings_perm.
Qed.

(** ** Properties of the synthesized topology *)

(** C3. Two records of the same physical core link, seen from its two
    ends, have the same key, and the returned list holds exactly one
    link with that key; keys are unordered pairs of (device, port) ends and
    no two returned links share one. *)
Theorem core_link_recorded_once
    (entries : list InterfaceLink) (device_roles : gmap string string)
    (links : list CoreLink) (cpc apc : gmap string (gmap string PortConfigEntry))
    (e1 e2 : InterfaceLink) :
  _build_topology entries device_roles = Ok (links, cpc, apc) →
  e1 ∈ entries → e2 ∈ entries →
  device_roles !! src_device e1 = Some "collapsed-core" →
  device_roles !! dst_device e1 = Some "collapsed-core" →
  (src_device e2, src_int e2) = (dst_device e1, dst_int e1) →
  (dst_device e2, dst_int e2) = (src_device e1, src_int e1) →
  entry_key e2 = entry_key e1
  ∧ length (filter (λ l, core_link_key l = entry_key e1) links) = 1
  ∧ NoDup (core_link_key <$> links)
  ∧ ∀ a b c d : endpoint,
      link_key a b = link_key c d ↔ (a = c ∧ b = d) ∨ (a = d ∧ b = c).
Proof.
  intros (_ & -> & _)%build_topology_ok Hin1 Hin2 Hs Hd Hswap1 Hswap2.
  destruct (core_links_loop_spec (sorted_cores device_roles) entries ∅ [])
    as (Hnd & _ & Hkeys); [done | constructor |].
  assert (Hkey : entry_key e2 = entry_key e1).
  { unfold entry_key. apply link_key_unordered. right. by rewrite Hswap1, Hswap2. }
  split; [done|]. split; [|split; [done | apply link_key_unordered]].
  apply count_key_once; [done|]. apply Hkeys; [done|..];
    by apply is_core_elem, bool_decide_eq_true.
Qed.





(** C6 (as amended). The legs of an id are the records that carry it and
    have exactly one core end; an id without legs forms no group.  A run that returns
    has only groups of two legs, and a size failure names an id with one
    leg or with three or more.  With two core devices and no core port
    claimed twice, the run returns when every group has two legs, and
    fails with the size error of the first group that has not. *)
Theorem aggregation_group_sizes
    (entries : list InterfaceLink) (device_roles : gmap string string) :
  (∀ ae conns,
      (ae, conns) ∈ group_legs device_roles entries [] ↔
      conns = legs_of device_roles entries ae ∧ conns ≠ [])
  ∧ (∀ r, _build_topology entries device_roles = Ok r →
       ∀ ae, length (legs_of device_roles entries ae) = 0
             ∨ length (legs_of device_roles entries ae) = 2)
  ∧ (∀ ae n,
       _build_topology entries device_roles = Raise (AggregationGroupSizeError ae n) →
       n = length (legs_of device_roles entries ae) ∧ (n = 1 ∨ 3 ≤ n)%nat)
  ∧ ((2 ≤ length (core_role_devices device_roles))%nat →
     Forall (λ g, length g.2 = 2) (group_legs device_roles entries []) →
     NoDup (leg_core device_roles <$> mjoin (group_legs device_roles entries []).*2) →
     ∃ r, _build_topology entries device_roles = Ok r)
  ∧ ((2 ≤ length (core_role_devices device_roles))%nat →
     ∀ pre ae conns post,
       group_legs device_roles entries [] = pre ++ (ae, conns) :: post →
       Forall (λ g, length g.2 = 2) pre →
       NoDup (leg_core device_roles <$> mjoin pre.*2) →
       length conns ≠ 2 →
       _build_topology entries device_roles
       = Raise (AggregationGroupSizeError ae (length conns))).
Proof.
  assert (Hcore : ∀ c, c ∈ mjoin (group_legs device_roles entries []).*2 →
            (leg_core device_roles c).1
            ∈ dom (initial_core_config (sorted_cores device_roles))).
  { intros c (conns & Hc & Hconns)%list_elem_of_join.
    apply list_elem_of_fmap in Hconns as ([ae conns'] & -> & Hg).
    apply initial_core_config_dom. eapply leg_core_is_core.
    by eapply group_legs_qualify. }
  split; [apply group_legs_elem|]. split; [|split; [|split]].
  - intros [[links cpc] apc] (_ & _ & cpc1 & Hgroups & _)%build_topology_ok ae.
    apply process_groups_ok in Hgroups as (Hsize & _).
    destruct (legs_of device_roles entries ae) as [|c legs] eqn:Hlegs; [by left|].
    right. rewrite <- Hlegs. rewrite Forall_forall in Hsize.
    apply (Hsize (ae, legs_of device_roles entries ae)).
    apply group_legs_elem. by rewrite Hlegs.
  - intros ae n [[? _]|[[_ Hrun]|(cpc1 & apc & Hgroups & Hlinks)]]%build_topology_raise;
      [done| |].
    + apply process_groups_raise in Hrun
        as [(pre & ae' & conns & post & [= -> ->] & Hcut & Hbad & _)
           |[(? & ? & ? & ? & ? & ? & _)|(? & ? & _)]]; [|done..].
      assert (Hin : (ae', conns) ∈ group_legs device_roles entries []).
      { rewrite Hcut. apply elem_of_app. right. by left. }
      apply group_legs_elem in Hin as [-> Hne]. split; [done|].
      destruct (legs_of device_roles entries ae') as [|? [|? [|? ?]]];
        simpl in *; try done; lia.
    + apply process_groups_ok in Hgroups as (_ & Hdom & _).
      destruct (assign_links_never_raises device_roles entries 1 cpc1 Hdom)
        as [cpc Hok]. congruence.
  - intros Hlen Hsize Hnd.
    destruct (process_groups_total device_roles
                (group_legs device_roles entries [])
                (initial_core_config (sorted_cores device_roles)) ∅)
      as [[cpc1 apc] Hgroups]; [done.. | |].
    { intros c _. apply initial_core_config_ports. }
    pose proof Hgroups as (_ & Hdom & _)%process_groups_ok.
    destruct (assign_links_never_raises device_roles entries 1 cpc1 Hdom)
      as [cpc Hok].
    unfold _build_topology. rewrite decide_False by lia.
    fold (sorted_cores device_roles).
    fold (initial_core_config (sorted_cores device_roles)).
    rewrite Hgroups. cbn [mbind result_bind]. rewrite Hok. by eexists.
  - intros Hlen pre ae conns post Hcut Hsize Hnd Hbad.
    unfold _build_topology. rewrite decide_False by lia.
    fold (sorted_cores device_roles).
    fold (initial_core_config (sorted_cores device_roles)).
    rewrite Hcut, process_groups_app.
    destruct (process_groups_total device_roles pre
                (initial_core_config (sorted_cores device_roles)) ∅)
      as [[cpc1 apc] ->]; [done | | done | |].
    { intros c Hc. apply Hcore. rewrite Hcut, fmap_app, join_app.
      apply elem_of_app. by left. }
    { intros c _. apply initial_core_config_ports. }
    cbn [mbind result_bind fst snd process_groups]. by rewrite decide_True.
Qed.

(** C9. The access map of a run that returns holds, for each access
    device, one bundle with one key: the bundle of the last group, in
    processing order, whose access device it is; earlier groups of the same
    device leave nothing behind, and no error is raised for them. *)
Theorem access_bundle_last_group_wins
    (entries : list InterfaceLink) (device_roles : gmap string string)
    (links : list CoreLink) (cpc apc : gmap string (gmap string PortConfigEntry)) :
  _build_topology entries device_roles = Ok (links, cpc, apc) →
  (∀ dev, apc !! dev
          = last_bundle device_roles (group_legs device_roles entries []) dev)
  ∧ ∀ dev bundle, apc !! dev = Some bundle → size bundle = 1.
Proof.
  intros (_ & _ & cpc1 & Hgroups & _)%build_topology_ok.
  apply process_groups_ok in Hgroups as (_ & _ & _ & _ & _ & _ & Hapc).
  assert (Hlast : ∀ dev, apc !! dev
            = last_bundle device_roles (group_legs device_roles entries []) dev).
  { intros dev. rewrite Hapc. by destruct (last_bundle _ _ _). }
  split; [done|]. intros dev bundle. rewrite Hlast. unfold last_bundle.
  destruct (last _) as [g|]; [|done]. intros [= <-]. apply map_size_singleton.
Qed.

(** C10 (as amended). The record of a core link has no part in a
    port-conflict failure: the run raises that failure, for the same port,
    with the record and without it, whether or not an end of the link is
    also the core end of an aggregation leg.  The failure always stems
    from two aggregation legs with the same core port, and is not raised
    when no two legs share one.  The core links are written after the
    aggregation groups: in a run that returns, the core end of every leg
    held its aggregation entry when the groups were done, and every end of
    a core link carries its link assignment at the end, also where a leg
    had claimed that port. *)
Theorem core_link_overrides_esi_lag
    (entries : list InterfaceLink) (device_roles : gmap string string) :
  (∀ pre e post d p,
      entries = pre ++ e :: post →
      device_roles !! src_device e = Some "collapsed-core" →
      device_roles !! dst_device e = Some "collapsed-core" →
      _build_topology entries device_roles = Raise (PortConflictError d p)
      ↔ _build_topology (pre ++ post) device_roles = Raise (PortConflictError d p))
  ∧ (∀ d p,
       _build_topology entries device_roles = Raise (PortConflictError d p) →
       ∃ pre c1 mid c2 post,
         mjoin (group_legs device_roles entries []).*2
         = pre ++ c1 :: mid ++ c2 :: post
         ∧ leg_core device_roles c1 = (d, p) ∧ leg_core device_roles c2 = (d, p))
  ∧ (NoDup (leg_core device_roles <$> mjoin (group_legs device_roles entries []).*2) →
     ∀ d p, _build_topology entries device_roles ≠ Raise (PortConflictError d p))
  ∧ (∀ links cpc apc,
       _build_topology entries device_roles = Ok (links, cpc, apc) →
       ∃ cpc_agg,
         process_groups device_roles (group_legs device_roles entries [])
           (initial_core_config (sorted_cores device_roles)) ∅ = Ok (cpc_agg, apc)
         ∧ assign_links 1 (Py.sorted link_lt links) cpc_agg = Ok cpc
         ∧ (∀ ae c, c ∈ legs_of device_roles entries ae →
              port_lookup cpc_agg (leg_core device_roles c)
              = Some (esi_lag_core_entry ae))
         ∧ ∀ l x, l ∈ links → x ∈ link_ends l →
             ∃ u k, port_lookup cpc x = Some (link_entry u k)
                    ∧ (u = "evpn_uplink" ∨ u = "evpn_downlink")).
Proof.
  assert (Hconflict : ∀ d p,
    _build_topology entries device_roles = Raise (PortConflictError d p) →
    ∃ pre c1 mid c2 post,
      mjoin (group_legs device_roles entries []).*2
      = pre ++ c1 :: mid ++ c2 :: post
      ∧ leg_core device_roles c1 = (d, p) ∧ leg_core device_roles c2 = (d, p)).
  { intros d p [[? _]|[_ Hrun]]%build_topology_raise_iff; [done|].
    apply process_groups_raise in Hrun
      as [(? & ? & ? & ? & ? & _)
         |[(d' & p' & pre & c & post & [= <- <-] & Hcat & Hc & Hwhere)
          |(? & ? & _)]]; [done| |done].
    destruct Hwhere as [Hin|Hsome]; last first.
    { rewrite initial_core_config_ports in Hsome. by destruct Hsome. }
    apply list_elem_of_fmap in Hin as (c1 & Hc1 & Hin).
    apply list_elem_of_split in Hin as (pre1 & mid & ->).
    exists pre1, c1, mid, c, post. by rewrite Hcat, <- (assoc_L (++)). }
  split; [|split; [done|split]].
  - intros pre e post d p -> Hs Hd. rewrite !build_topology_raise_iff.
    rewrite group_legs_skip; [done|]. right. unfold is_core.
    by rewrite !bool_decide_eq_true_2.
  - intros Hnd d p (pre & c1 & mid & c2 & post & Hcut & H1 & H2)%Hconflict.
    rewrite Hcut, fmap_app, fmap_cons, fmap_app, fmap_cons, H1, H2 in Hnd.
    apply NoDup_app in Hnd as (_ & _ & Hnd).
    apply NoDup_cons in Hnd as [Hfresh _]. apply Hfresh.
    apply elem_of_app. right. by left.
  - intros links cpc apc (_ & _ & cpc1 & Hgroups & Hassign)%build_topology_ok.
    exists cpc1. split; [done|]. split; [done|]. split.
    + intros ae c Hc.
      apply process_groups_ok in Hgroups as (_ & _ & _ & _ & _ & Hin & _).
      apply (Hin ae (legs_of device_roles entries ae)); [|done].
      apply group_legs_elem. split; [done|]. intros Hnil.
      rewrite Hnil in Hc. by apply elem_of_nil in Hc.
    + intros l x Hl Hx.
      apply assign_links_final in Hassign as (_ & _ & Hin & _).
      apply Hin. apply list_elem_of_join. exists (link_ends l). split; [done|].
      apply list_elem_of_fmap_2. by rewrite sorted_links_perm.
Qed.

(** ** Worked inputs *)

Definition link_row (src sport dst dport : string) (ae : option Z) : InterfaceLink :=
  {| src_device := src; src_role := None; src_int := sport;
     dst_device := dst; dst_role := None; dst_int := dport;
     ae_idx := ae; speed := None; channelized := None |}.

Definition example_roles : gmap string string :=
  <["core-a" := "collapsed-core"]>
    (<["core-b" := "collapsed-core"]> (<["acc-1" := "access"]> ∅)).

(** Two parallel core links, the first also recorded from its other end,
    and one access device dual-homed through aggregation 5. *)
Definition example_entries : list InterfaceLink :=
  [ link_row "core-a" "et-0/0/0" "core-b" "et-0/0/0" None;
    link_row "core-b" "et-0/0/0" "core-a" "et-0/0/0" None;
    link_row "core-a" "et-0/0/1" "core-b" "et-0/0/1" None;
    link_row "core-a" "ge-0/0/5" "acc-1" "ge-0/0/1" (Some 5%Z);
    link_row "acc-1" "ge-0/0/0" "core-b" "ge-0/0/5" (Some 5%Z) ].

Definition example_links : list CoreLink :=
  [ {| core1 := "core-a"; port1 := "et-0/0/0"; core2 := "core-b"; port2 := "et-0/0/0" |};
    {| core1 := "core-a"; port1 := "et-0/0/1"; core2 := "core-b"; port2 := "et-0/0/1" |} ].

Definition example_core_config : gmap string (gmap string PortConfigEntry) :=
  <["core-a" := <["et-0/0/0" := link_entry "evpn_downlink" 1]>
                  (<["et-0/0/1" := link_entry "evpn_uplink" 2]>
                     (<["ge-0/0/5" := esi_lag_core_entry 5]> ∅))]>
    (<["core-b" := <["et-0/0/0" := link_entry "evpn_uplink" 1]>
                     (<["et-0/0/1" := link_entry "evpn_downlink" 2]>
                        (<["ge-0/0/5" := esi_lag_core_entry 5]> ∅))]> ∅).

Definition example_access_config : gmap string (gmap string PortConfigEntry) :=
  {[ "acc-1" := {[ "ge-0/0/0,ge-0/0/1" := esi_lag_access_entry 5 ]} ]}.

(** The end-to-end example of the specification. *)
Example build_topology_example :
  _build_topology example_entries example_roles
  = Ok (example_links, example_core_config, example_access_config).
Proof. evaluate. Qed.

(** The same access device in two aggregation groups. *)
Definition two_bundle_entries : list InterfaceLink :=
  [ link_row "core-a" "ge-0/0/5" "acc-1" "ge-0/0/1" (Some 5%Z);
    link_row "core-b" "ge-0/0/5" "acc-1" "ge-0/0/0" (Some 5%Z);
    link_row "core-a" "ge-0/0/6" "acc-1" "ge-0/0/2" (Some 6%Z);
    link_row "core-b" "ge-0/0/6" "acc-1" "ge-0/0/3" (Some 6%Z) ].

Definition two_bundle_core_config : gmap string (gmap string PortConfigEntry) :=
  <["core-a" := <["ge-0/0/5" := esi_lag_core_entry 5]>
                  (<["ge-0/0/6" := esi_lag_core_entry 6]> ∅)]>
    (<["core-b" := <["ge-0/0/5" := esi_lag_core_entry 5]>
                     (<["ge-0/0/6" := esi_lag_core_entry 6]> ∅)]> ∅).

Definition two_bundle_access_config : gmap string (gmap string PortConfigEntry) :=
  {[ "acc-1" := {[ "ge-0/0/2,ge-0/0/3" := esi_lag_access_entry 6 ]} ]}.

Example build_topology_two_bundles :
  _build_topology two_bundle_entries example_roles
  = Ok ([], two_bundle_core_config, two_bundle_access_config).
Proof. evaluate. Qed.

(** A core port that is both the core end of an aggregation leg and an end
    of a core link. *)
Definition overlap_entries : list InterfaceLink :=
  [ link_row "core-a" "et-0/0/0" "core-b" "et-0/0/0" None;
    link_row "core-a" "et-0/0/0" "acc-1" "ge-0/0/1" (Some 5%Z);
    link_row "core-b" "ge-0/0/5" "acc-1" "ge-0/0/0" (Some 5%Z) ].

Definition overlap_links : list CoreLink :=
  [ {| core1 := "core-a"; port1 := "et-0/0/0"; core2 := "core-b"; port2 := "et-0/0/0" |} ].

Definition overlap_core_config : gmap string (gmap string PortConfigEntry) :=
  <["core-a" := {[ "et-0/0/0" := link_entry "evpn_downlink" 1 ]}]>
    (<["core-b" := <["et-0/0/0" := link_entry "evpn_uplink" 1]>
                     (<["ge-0/0/5" := esi_lag_core_entry 5]> ∅)]> ∅).

Example build_topology_overlap :
  _build_topology overlap_entries example_roles
  = Ok (overlap_links, overlap_core_config, example_access_config).
Proof. evaluate. Qed.

(** The overlap, and a core port claimed by two aggregation groups. *)
Definition overlap_conflict_entries : list InterfaceLink :=
  [ link_row "core-a" "et-0/0/0" "core-b" "et-0/0/0" None;
    link_row "core-a" "et-0/0/0" "acc-1" "ge-0/0/1" (Some 5%Z);
    link_row "core-b" "ge-0/0/5" "acc-1" "ge-0/0/0" (Some 5%Z);
    link_row "core-b" "ge-0/0/5" "acc-1" "ge-0/0/2" (Some 6%Z);
    link_row "core-a" "ge-0/0/6" "acc-1" "ge-0/0/3" (Some 6%Z) ].

(** Three parallel core links, listed against the order of their keys: the
    first record starts at [core-b], and the ports of the second come after
    those of the third. *)
Definition crossed_entries : list InterfaceLink :=
  [ link_row "core-b" "et-0/0/1" "core-a" "et-0/0/7" None;
    link_row "core-a" "et-0/0/9" "core-b" "et-0/0/0" None;
    link_row "core-a" "et-0/0/2" "core-b" "et-0/0/8" None ].

Definition crossed_links : list CoreLink :=
  [ {| core1 := "core-b"; port1 := "et-0/0/1"; core2 := "core-a"; port2 := "et-0/0/7" |};
    {| core1 := "core-a"; port1 := "et-0/0/9"; core2 := "core-b"; port2 := "et-0/0/0" |};
    {| core1 := "core-a"; port1 := "et-0/0/2"; core2 := "core-b"; port2 := "et-0/0/8" |} ].

Definition crossed_core_config : gmap string (gmap string PortConfigEntry) :=
  <["core-a" := <["et-0/0/2" := link_entry "evpn_downlink" 1]>
                  (<["et-0/0/9" := link_entry "evpn_uplink" 2]>
                     (<["et-0/0/7" := link_entry "evpn_uplink" 3]> ∅))]>
    (<["core-b" := <["et-0/0/8" := link_entry "evpn_uplink" 1]>
                     (<["et-0/0/0" := link_entry "evpn_downlink" 2]>
                        (<["et-0/0/1" := link_entry "evpn_downlink" 3]> ∅))]> ∅).

(** The links are returned in the order of the sheet and numbered in the
    order of their keys. *)
Example build_topology_crossed :
  _build_topology crossed_entries example_roles
  = Ok (crossed_links, crossed_core_config, ∅).
Proof. evaluate. Qed.

Example sorted_crossed_links :
  Py.sorted link_lt crossed_links
  = [ {| core1 := "core-a"; port1 := "et-0/0/2"; core2 := "core-b"; port2 := "et-0/0/8" |};
      {| core1 := "core-a"; port1 := "et-0/0/9"; core2 := "core-b"; port2 := "et-0/0/0" |};
      {| core1 := "core-b"; port1 := "et-0/0/1"; core2 := "core-a"; port2 := "et-0/0/7" |} ].
Proof. evaluate. Qed.

(** Leg counts other than two. *)
Example build_topology_one_leg :
  _build_topology
    (example_entries ++ [link_row "core-a" "ge-0/0/7" "acc-1" "ge-0/0/7" (Some 7%Z)])
    example_roles
  = Raise (AggregationGroupSizeError 7 1).
Proof. evaluate. Qed.

Example build_topology_three_legs :
  _build_topology
    (example_entries ++ [link_row "core-a" "ge-0/0/7" "acc-1" "ge-0/0/7" (Some 5%Z)])
    example_roles
  = Raise (AggregationGroupSizeError 5 3).
Proof. evaluate. Qed.

Example build_topology_core_to_core_leg_ignored :
  _build_topology
    (example_entries ++ [link_row "core-a" "et-0/0/0" "core-b" "et-0/0/0" (Some 9%Z)])
    example_roles
  = Ok (example_links, example_core_config, example_access_config).
Proof. evaluate. Qed.

(** Not every group of two legs passes: with both legs on the same core
    port the run fails with the port conflict. *)
Lemma build_topology_port_claimed_twice :
  _build_topology
    [ link_row "core-a" "ge-0/0/5" "acc-1" "ge-0/0/1" (Some 5%Z);
      link_row "core-a" "ge-0/0/5" "acc-1" "ge-0/0/0" (Some 5%Z) ]
    example_roles
  = Raise (PortConflictError "core-a" "ge-0/0/5").
Proof. evaluate. Qed.

(** A port that is the core end of a leg and an end of a core link does
    not keep the run from failing with the port conflict: here the core
    link and the first leg share [et-0/0/0] of [core-a], and the groups 5
    and 6 both claim [ge-0/0/5] of [core-b]. *)
Lemma build_topology_overlap_port_conflict :
  (∃ ae c l,
      c ∈ legs_of example_roles overlap_conflict_entries ae
      ∧ l ∈ core_links_loop (sorted_cores example_roles) overlap_conflict_entries ∅ []
      ∧ leg_core example_roles c ∈ link_ends l)
  ∧ _build_topology overlap_conflict_entries example_roles
    = Raise (PortConflictError "core-b" "ge-0/0/5").
Proof.
  split; [|evaluate].
  exists 5%Z, (link_row "core-a" "et-0/0/0" "acc-1" "ge-0/0/1" (Some 5%Z)),
    {| core1 := "core-a"; port1 := "et-0/0/0"; core2 := "core-b"; port2 := "et-0/0/0" |}.
  split; [|split].
  - apply (bool_decide_unpack _). vm_compute. exact I.
  - apply (bool_decide_unpack _). vm_compute. exact I.
  - apply (bool_decide_unpack _). vm_compute. exact I.
Qed.

Example build_topology_one_core :
  _build_topology example_entries (<["core-a" := "collapsed-core"]> ∅)
  = Raise TopologyUnderspecifiedError.
Proof. evaluate. Qed.

(** ** The properties at the worked inputs *)

Lemma core_link_recorded_once_witness :
  length (filter (λ l, core_link_key l
                       = entry_key (link_row "core-a" "et-0/0/0" "core-b" "et-0/0/0" None))
            example_links) = 1.
Proof.
  refine (proj1 (proj2 (core_link_recorded_once example_entries example_roles
            example_links example_core_config example_access_config
            (link_row "core-a" "et-0/0/0" "core-b" "et-0/0/0" None)
            (link_row "core-b" "et-0/0/0" "core-a" "et-0/0/0" None)
            _ _ _ _ _ _ _))).
  - evaluate.
  - by left.
  - right. by left.
  - reflexivity.
  - reflexivity.
  - reflexivity.
  - reflexivity.
Defined.


Lemma aggregation_group_sizes_witness :
  (∃ r, _build_topology example_entries example_roles = Ok r)
  ∧ _build_topology
      (link_row "core-a" "ge-0/0/7" "acc-1" "ge-0/0/7" (Some 7%Z) :: example_entries)
      example_roles
    = Raise (AggregationGroupSizeError 7 1).
Proof.
  split.
  - refine (proj1 (proj2 (proj2 (proj2
              (aggregation_group_sizes example_entries example_roles)))) _ _ _).
    + vm_compute. lia.
    + vm_compute. repeat constructor.
    + apply (bool_decide_unpack (NoDup _)). vm_compute. exact I.
  - refine (proj2 (proj2 (proj2 (proj2
              (aggregation_group_sizes
                 (link_row "core-a" "ge-0/0/7" "acc-1" "ge-0/0/7" (Some 7%Z)
                  :: example_entries) example_roles)))) _
              [] 7%Z [link_row "core-a" "ge-0/0/7" "acc-1" "ge-0/0/7" (Some 7%Z)]
              [(5%Z, [link_row "core-a" "ge-0/0/5" "acc-1" "ge-0/0/1" (Some 5%Z);
                      link_row "acc-1" "ge-0/0/0" "core-b" "ge-0/0/5" (Some 5%Z)])]
              _ _ _ _).
    + vm_compute. lia.
    + evaluate.
    + constructor.
    + constructor.
    + simpl. lia.
Defined.

Lemma access_bundle_last_group_wins_witness :
  two_bundle_access_config !! "acc-1"
  = last_bundle example_roles (group_legs example_roles two_bundle_entries []) "acc-1".
Proof.
  refine (proj1 (access_bundle_last_group_wins two_bundle_entries example_roles
            [] two_bundle_core_config two_bundle_access_config _) "acc-1").
  evaluate.
Defined.

Lemma core_link_overrides_esi_lag_witness :
  (∀ d p, _build_topology overlap_entries example_roles
          ≠ Raise (PortConflictError d p))
  ∧ ∃ cpc_agg,
      process_groups example_roles (group_legs example_roles overlap_entries [])
        (initial_core_config (sorted_cores example_roles)) ∅
      = Ok (cpc_agg, example_access_config)
      ∧ assign_links 1 (Py.sorted link_lt overlap_links) cpc_agg = Ok overlap_core_config
      ∧ (∀ ae c, c ∈ legs_of example_roles overlap_entries ae →
           port_lookup cpc_agg (leg_core example_roles c)
           = Some (esi_lag_core_entry ae))
      ∧ ∀ l x, l ∈ overlap_links → x ∈ link_ends l →
          ∃ u k, port_lookup overlap_core_config x = Some (link_entry u k)
                 ∧ (u = "evpn_uplink" ∨ u = "evpn_downlink").
Proof.
  split.
  - refine (proj1 (proj2 (proj2
              (core_link_overrides_esi_lag overlap_entries example_roles))) _).
    apply (bool_decide_unpack (NoDup _)). vm_compute. exact I.
  - refine (proj2 (proj2 (proj2
              (core_link_overrides_esi_lag overlap_entries example_roles)))
              overlap_links overlap_core_config example_access_config _).
    evaluate.
Defined.

Lemma core_offsets_by_sorted_name_witness :
  (∃ core_devices,
      create_fabric_core_devices
        (<["sw-b" := "collapsed-core"]> (<["acc-1" := "access"]>
           (<["sw-c" := "collapsed-core"]> (<["sw-a" := "collapsed-core"]> ∅))))
      = Ok core_devices)
  ∧ core_offset
      (<["sw-b" := "collapsed-core"]> (<["acc-1" := "access"]>
         (<["sw-c" := "collapsed-core"]> (<["sw-a" := "collapsed-core"]> ∅)))) "sw-a"
    = Ok 1%Z
  ∧ core_offset
      (<["sw-b" := "collapsed-core"]> (<["acc-1" := "access"]>
         (<["sw-c" := "collapsed-core"]> (<["sw-a" := "collapsed-core"]> ∅)))) "sw-b"
    = Ok 2%Z.
Proof.
  split.
  - refine (proj1 (core_offsets_by_sorted_name _) "sw-c" "sw-b" _ _ _).
    + reflexivity.
    + reflexivity.
    + discriminate.
  - pose proof (proj2 (core_offsets_by_sorted_name
                  (<["sw-b" := "collapsed-core"]> (<["acc-1" := "access"]>
                     (<["sw-c" := "collapsed-core"]>
                        (<["sw-a" := "collapsed-core"]> ∅)))))) as Horder.
    assert (Hrun : create_fabric_core_devices
                     (<["sw-b" := "collapsed-core"]> (<["acc-1" := "access"]>
                        (<["sw-c" := "collapsed-core"]>
                           (<["sw-a" := "collapsed-core"]> ∅))))
                   = Ok ["sw-a"; "sw-b"; "sw-c"]) by evaluate.
    rewrite Hrun in Horder.
    destruct Horder as (_ & _ & _ & _ & c0 & c1 & others & Hlist & H0 & H1 & _).
    injection Hlist as <- <- <-. by split.
Defined.

(** * Further properties *)

(** ** Roles *)

(** The (device, role) pairs the records declare: the ends with a device
    name and a role, in the order of the sheet. *)
Definition declared_end (end_ : string * option string) : option (string * string) :=
  match end_.2 with
  | Some role =>
      if bool_decide (end_.1 = "") || bool_decide (role = "") then None
      else Some (end_.1, role)
  | None => None
  end.

Definition declared_roles (entries : list InterfaceLink) : list (string * string) :=
  omap declared_end (mjoin (role_ends <$> entries)).

Lemma roles_loop_flat entries roles :
  roles_loop entries roles = record_roles (mjoin (role_ends <$> entries)) roles.
Proof.
  revert roles. induction entries as [|e entries IH]; intros roles; [done|].
  cbn [roles_loop fmap list_fmap mjoin list_join role_ends app record_roles].
  destruct (record_role roles _ _) as [c|roles1]; [done|].
  destruct (record_role roles1 _ _) as [c|roles2]; [done|]. apply IH.
Qed.

Lemma record_role_skip roles dev role :
  declared_end (dev, role) = None → record_role roles dev role = inr roles.
Proof.
  unfold declared_end, record_role. cbn [fst snd]. destruct role as [role|]; [|done].
  by destruct (bool_decide (dev = "") || bool_decide (role = "")).
Qed.

Lemma record_role_declared roles dev role d r :
  declared_end (dev, role) = Some (d, r) →
  record_role roles dev role =
    match roles !! d with
    | Some recorded =>
        if decide (recorded ≠ r) then inl (ConflictingRoles d recorded r)
        else inr (<[d := r]> roles)
    | None => inr (<[d := r]> roles)
    end.
Proof.
  unfold declared_end, record_role. cbn [fst snd]. destruct role as [role|]; [|done].
  destruct (bool_decide (dev = "") || bool_decide (role = "")); [done|].
  by intros [= -> ->].
Qed.

(** The loop over a list of ends, started from a map [roles0]: it returns
    when no declared pair contradicts the map or an earlier pair, and then
    the map holds the old bindings and the declared pairs. *)
Lemma record_roles_ok ends roles0 roles :
  record_roles ends roles0 = inr roles →
  (∀ d r, roles !! d = Some r ↔
          roles0 !! d = Some r ∨ (d, r) ∈ omap declared_end ends).
Proof.
  revert roles0. induction ends as [|[dev role] ends IH]; intros roles0.
  - intros [= <-] d r. cbn. rewrite elem_of_nil. tauto.
  - cbn [record_roles omap list_omap].
    destruct (declared_end (dev, role)) as [[d0 r0]|] eqn:Hdecl.
    + rewrite (record_role_declared _ _ _ _ _ Hdecl).
      assert (Hstep : record_roles ends (<[d0 := r0]> roles0) = inr roles →
                (roles0 !! d0 = None ∨ roles0 !! d0 = Some r0) →
                ∀ d r, roles !! d = Some r ↔
                  roles0 !! d = Some r ∨ (d, r) ∈ (d0, r0) :: omap declared_end ends).
      { intros Hrun Hold d r. rewrite (IH _ Hrun), elem_of_cons.
        destruct (decide (d = d0)) as [->|Hne].
        - rewrite lookup_insert_eq. split.
          + intros [[= ->]|?]; [right; by left | by right; right].
          + intros [Hr|[[= ->]|?]]; [|by left | by right].
            left. destruct Hold as [Hold|Hold]; congruence.
        - rewrite lookup_insert_ne by done. split.
          + intros [?|?]; [by left | by right; right].
          + intros [?|[[= ? ?]|?]]; [by left | done | by right]. }
      destruct (roles0 !! d0) as [recorded|] eqn:Hold.
      * case_decide as Hne; [done|]. subst recorded.
        intros Hrun. apply Hstep; [done | by right].
      * intros Hrun. apply Hstep; [done | by left].
    + rewrite (record_role_skip _ _ _ Hdecl). apply IH.
Qed.

Lemma record_roles_conflict ends roles0 d r1 r2 :
  record_roles ends roles0 = inl (ConflictingRoles d r1 r2) →
  r1 ≠ r2
  ∧ (roles0 !! d = Some r1 ∨ (d, r1) ∈ omap declared_end ends)
  ∧ (d, r2) ∈ omap declared_end ends.
Proof.
  revert roles0. induction ends as [|[dev role] ends IH]; intros roles0; [done|].
  cbn [record_roles omap list_omap].
  destruct (declared_end (dev, role)) as [[d0 r0]|] eqn:Hdecl.
  - rewrite (record_role_declared _ _ _ _ _ Hdecl).
    assert (Hstep : record_roles ends (<[d0 := r0]> roles0)
                    = inl (ConflictingRoles d r1 r2) →
              r1 ≠ r2
              ∧ (roles0 !! d = Some r1 ∨ (d, r1) ∈ (d0, r0) :: omap declared_end ends)
              ∧ (d, r2) ∈ (d0, r0) :: omap declared_end ends).
    { intros (Hne & Hfirst & Hsecond)%IH. split; [done|]. split; [|by right].
      destruct Hfirst as [Hfirst|Hfirst]; [|by right; right].
      destruct (decide (d = d0)) as [->|Hd].
      - rewrite lookup_insert_eq in Hfirst. injection Hfirst as ->. right. by left.
      - rewrite lookup_insert_ne in Hfirst by done. by left. }
    destruct (roles0 !! d0) as [recorded|] eqn:Hold; [|done].
    case_decide as Hne; [|done].
    intros [= -> -> ->]. split; [done|]. split; [by left | by left].
  - rewrite (record_role_skip _ _ _ Hdecl). apply IH.
Qed.

(** The loop returns when the old map and the declared pairs agree. *)
Lemma record_roles_total ends roles0 :
  (∀ d r1 r2,
     roles0 !! d = Some r1 ∨ (d, r1) ∈ omap declared_end ends →
     (d, r2) ∈ omap declared_end ends → r1 = r2) →
  ∃ roles, record_roles ends roles0 = inr roles.
Proof.
  intros Hfun.
  destruct (record_roles ends roles0) as [[d r1 r2]|roles] eqn:Hrun; [|by eexists].
  apply record_roles_conflict in Hrun as (Hne & Hfirst & Hsecond).
  destruct Hne. by apply (Hfun d).
Qed.

(** What a run that returns holds, and when a run returns. *)
Lemma roles_from_interfaces_ok entries roles :
  _roles_from_interfaces entries = inr roles →
  ∀ dev role, roles !! dev = Some role ↔ (dev, role) ∈ declared_roles entries.
Proof.
  unfold _roles_from_interfaces. rewrite roles_loop_flat. intros Hrun dev role.
  rewrite (record_roles_ok _ _ _ Hrun), lookup_empty.
  unfold declared_roles. split; [by intros [?|?] | by right].
Qed.

Lemma roles_from_interfaces_total entries :
  (∀ dev role1 role2,
     (dev, role1) ∈ declared_roles entries →
     (dev, role2) ∈ declared_roles entries → role1 = role2) →
  ∃ roles, _roles_from_interfaces entries = inr roles.
Proof.
  intros Hfun. unfold _roles_from_interfaces. rewrite roles_loop_flat.
  apply record_roles_total. intros d r1 r2 [Hold|H1] H2.
  - by rewrite lookup_empty in Hold.
  - by apply (Hfun d).
Qed.

Lemma roles_from_interfaces_functional entries roles :
  _roles_from_interfaces entries = inr roles →
  ∀ dev role1 role2,
    (dev, role1) ∈ declared_roles entries →
    (dev, role2) ∈ declared_roles entries → role1 = role2.
Proof.
  intros Hrun dev role1 role2 H1 H2.
  apply (roles_from_interfaces_ok _ _ Hrun) in H1, H2. congruence.
Qed.

Lemma declared_roles_clean entries dev role :
  (dev, role) ∈ declared_roles entries → dev ≠ "" ∧ role ≠ "".
Proof.
  intros (end_ & _ & Hdecl)%list_elem_of_omap.
  unfold declared_end in Hdecl. destruct end_ as [d [r|]]; [|done].
  cbn [fst snd] in Hdecl.
  destruct (bool_decide (d = "")) eqn:Hd, (bool_decide (r = "")) eqn:Hr; try done.
  cbn in Hdecl. injection Hdecl as -> ->.
  by apply bool_decide_eq_false in Hd, Hr.
Qed.

Lemma declared_roles_perm entries entries' :
  entries ≡ₚ entries' → declared_roles entries ≡ₚ declared_roles entries'.
Proof.
  intros Hperm. unfold declared_roles. by rewrite Hperm.
Qed.

(** X1. A run that returns maps a device to a role exactly when some end
    of some record declares that role for it; a record end without device
    name or without role declares nothing, so neither the empty name nor
    the empty role occurs in the map. *)
Theorem roles_from_interfaces_declared
    (entries : list InterfaceLink) (roles : gmap string string) :
  _roles_from_interfaces entries = inr roles →
  (∀ dev role, roles !! dev = Some role ↔ (dev, role) ∈ declared_roles entries)
  ∧ roles !! "" = None
  ∧ ∀ dev, roles !! dev ≠ Some "".
Proof.
  intros Hrun. pose proof (roles_from_interfaces_ok _ _ Hrun) as Hroles.
  split; [done|]. split.
  - destruct (roles !! "") as [role|] eqn:Hlook; [|done].
    apply Hroles, declared_roles_clean in Hlook. by destruct Hlook.
  - intros dev Hlook. apply Hroles, declared_roles_clean in Hlook. by destruct Hlook.
Qed.

(** X2. The run returns exactly when no device is declared with two
    different roles; a failure names a device, a role declared for it and a
    different role declared for it. *)
Theorem roles_from_interfaces_conflict (entries : list InterfaceLink) :
  ((∃ roles, _roles_from_interfaces entries = inr roles) ↔
   ∀ dev role1 role2,
     (dev, role1) ∈ declared_roles entries →
     (dev, role2) ∈ declared_roles entries → role1 = role2)
  ∧ ∀ dev recorded listed,
      _roles_from_interfaces entries = inl (ConflictingRoles dev recorded listed) →
      recorded ≠ listed
      ∧ (dev, recorded) ∈ declared_roles entries
      ∧ (dev, listed) ∈ declared_roles entries.
Proof.
  split; [split|].
  - intros [roles Hrun]. by apply (roles_from_interfaces_functional _ roles).
  - apply roles_from_interfaces_total.
  - unfold _roles_from_interfaces. rewrite roles_loop_flat.
    intros dev recorded listed (Hne & [Hold|H1] & H2)%record_roles_conflict.
    + by rewrite lookup_empty in Hold.
    + done.
Qed.

(** X3. The roles do not depend on the order of the records: a
    reordering of records that yield a role map yields the same map. *)
Theorem roles_from_interfaces_any_order
    (entries entries' : list InterfaceLink) (roles : gmap string string) :
  entries ≡ₚ entries' →
  _roles_from_interfaces entries = inr roles →
  _roles_from_interfaces entries' = inr roles.
Proof.
  intros Hperm Hrun.
  pose proof (declared_roles_perm _ _ Hperm) as Hdecl.
  destruct (roles_from_interfaces_total entries') as [roles' Hrun'].
  { intros dev r1 r2. rewrite <- !Hdecl.
    by apply (roles_from_interfaces_functional _ roles). }
  rewrite Hrun'. f_equal. apply map_eq. intros dev. apply option_eq. intros role.
  rewrite (roles_from_interfaces_ok _ _ Hrun').
  rewrite (roles_from_interfaces_ok _ _ Hrun).
  by rewrite Hdecl.
Qed.

(** ** Base ports: fixed points *)

(** [get_base_port] in closed form. *)
Lemma get_base_port_closed s :
  get_base_port s =
    if bool_decide ((span_colon s).1 = "") then s
    else if suffix_ok (span_colon s).2 then (span_colon s).1 else s.
Proof.
  unfold get_base_port. rewrite re_match_base_port. case_decide as Hs.
  - subst s. by case_bool_decide.
  - case_bool_decide; [done|]. by destruct (suffix_ok _).
Qed.

(** A name without colon is its own base port. *)
Lemma get_base_port_colon_free s :
  Py.string_forall not_colon s = true → get_base_port s = s.
Proof.
  intros Hfree. rewrite get_base_port_closed, (span_colon_no_colon _ Hfree).
  cbn [fst snd suffix_ok]. by case_bool_decide.
Qed.

(** The base port is the name itself or the colon-free text before its
    first colon. *)
Lemma get_base_port_cases s :
  get_base_port s = s
  ∨ ∃ rest, s = get_base_port s +:+ rest
            ∧ Py.string_forall not_colon (get_base_port s) = true.
Proof.
  rewrite get_base_port_closed.
  pose proof (span_colon_app s) as Hcut.
  pose proof (span_colon_free s) as Hfree.
  destruct (span_colon s) as [b r]. cbn [fst snd] in *.
  case_bool_decide; [by left|].
  destruct (suffix_ok r); [|by left]. right. by exists r.
Qed.

Lemma get_base_port_nonempty s : s ≠ "" → get_base_port s ≠ "".
Proof.
  intros Hs. rewrite get_base_port_closed. case_bool_decide as Hb; [done|].
  by destruct (suffix_ok _).
Qed.

Lemma get_base_port_twice s :
  get_base_port (get_base_port s) = get_base_port s.
Proof.
  destruct (get_base_port_cases s) as [Hsame|(rest & Hcut & Hfree)].
  - by rewrite !Hsame.
  - by apply get_base_port_colon_free.
Qed.

(** X4. Taking the base port twice gives the base port, and the base
    port is always a leading part of the name. *)
Theorem get_base_port_idempotent (port_name : string) :
  get_base_port (get_base_port port_name) = get_base_port port_name
  ∧ ∃ rest, port_name = get_base_port port_name +:+ rest.
Proof.
  destruct (get_base_port_cases port_name) as [Hsame|(rest & Hcut & Hfree)].
  - rewrite !Hsame. split; [done|]. exists "". by rewrite string_app_nil_r.
  - split; [by apply get_base_port_colon_free | by exists rest].
Qed.

(** ** Optic port configuration *)

Definition optic_lookup (cfg : gmap string (gmap string OpticConfigEntry))
    (x : endpoint) : option OpticConfigEntry :=
  cfg !! x.1 ≫= (.!! x.2).

(** What one end of a record asks for: its device and base port, with the
    settings of the record. *)
Definition optic_claim (e : InterfaceLink) (dev port : string)
    : option (endpoint * OpticConfigEntry) :=
  if bool_decide (dev ≠ "") && bool_decide (port ≠ "")
  then Some ((dev, get_base_port port), config_entry (speed e) (channelized e))
  else None.

(** The requests of a record, source end first; a record without speed
    and without channelization asks for nothing. *)
Definition optic_ends (e : InterfaceLink) : list (endpoint * OpticConfigEntry) :=
  if bool_decide (speed e = None) && bool_decide (channelized e = None) then []
  else omap id [optic_claim e (src_device e) (src_int e);
                optic_claim e (dst_device e) (dst_int e)].

Definition optic_claims (entries : list InterfaceLink)
    : list (endpoint * OpticConfigEntry) :=
  mjoin (optic_ends <$> entries).

(** The first request for a port. *)
Fixpoint first_claim (claims : list (endpoint * OpticConfigEntry)) (x : endpoint)
    : option OpticConfigEntry :=
  match claims with
  | [] => None
  | (y, v) :: rest => if decide (y = x) then Some v else first_claim rest x
  end.

Lemma first_claim_app a b x :
  first_claim (a ++ b) x =
    match first_claim a x with Some v => Some v | None => first_claim b x end.
Proof.
  induction a as [|[y v] a IH]; [done|]. cbn [app first_claim]. by case_decide.
Qed.

Lemma first_claim_Some claims x v :
  first_claim claims x = Some v ↔
  ∃ pre post, claims = pre ++ (x, v) :: post ∧ x ∉ pre.*1.
Proof.
  induction claims as [|[y w] claims IH]; cbn [first_claim].
  - split; [done|]. intros (pre & post & Hcut & _). by destruct pre.
  - case_decide as Hy.
    + subst y. split.
      * intros [= ->]. exists [], claims. split; [done|]. apply not_elem_of_nil.
      * intros ([|[y' w'] pre] & post & Hcut & Hpre).
        -- by injection Hcut as -> _.
        -- injection Hcut as -> -> _. destruct Hpre. cbn. by left.
    + rewrite IH. split.
      * intros (pre & post & -> & Hpre). exists ((y, w) :: pre), post.
        split; [done|]. cbn. by intros [?|?]%elem_of_cons.
      * intros ([|[y' w'] pre] & post & Hcut & Hpre).
        -- by injection Hcut as -> _.
        -- injection Hcut as -> -> ->. exists pre, post. split; [done|].
           intros Hin. apply Hpre. cbn. by right.
Qed.

Lemma optic_lookup_insert cfg d p v ports x :
  cfg !! d = Some ports →
  optic_lookup (<[d := <[p := v]> ports]> cfg) x =
    if decide (x = (d, p)) then Some v else optic_lookup cfg x.
Proof.
  intros Hd. unfold optic_lookup. destruct x as [d' p']. cbn [fst snd].
  destruct (decide (d' = d)) as [->|Hne].
  - rewrite lookup_insert_eq, Hd. cbn. destruct (decide (p' = p)) as [->|Hp].
    + rewrite lookup_insert_eq. by rewrite decide_True.
    + rewrite lookup_insert_ne by done. rewrite decide_False; [done | congruence].
  - rewrite lookup_insert_ne by done. rewrite decide_False; [done | congruence].
Qed.

(** The maps the loop goes through list no device without a port. *)
Definition no_empty_device (cfg : gmap string (gmap string OpticConfigEntry)) : Prop :=
  ∀ d ports, cfg !! d = Some ports → ports ≠ ∅.

Lemma optic_end_spec e dev port cfg :
  ¬ (speed e = None ∧ channelized e = None) →
  no_empty_device cfg →
  no_empty_device (optic_end (speed e) (channelized e) dev port cfg)
  ∧ ∀ x, optic_lookup (optic_end (speed e) (channelized e) dev port cfg) x =
           match optic_lookup cfg x with
           | Some v => Some v
           | None => first_claim (omap id [optic_claim e dev port]) x
           end.
Proof.
  intros Hset Hne. unfold optic_end, optic_claim.
  destruct (bool_decide (dev ≠ "") && bool_decide (port ≠ "")); last first.
  { split; [done|]. intros x. by destruct (optic_lookup cfg x). }
  cbn [omap list_omap id first_claim].
  assert (Hentry : config_entry (speed e) (channelized e) ≠ empty_config_entry).
  { unfold config_entry, empty_config_entry. intros [= ? ?]. by apply Hset. }
  destruct (cfg !! dev) as [ports|] eqn:Hdev.
  - rewrite !(decide_True (P := is_Some (Some ports))) by (by eexists).
    rewrite Hdev. cbn [default from_option id].
    destruct (ports !! get_base_port port) as [v|] eqn:Hport.
    + rewrite decide_True by (by eexists). split; [done|]. intros x.
      destruct (optic_lookup cfg x) eqn:Hx; [done|]. case_decide as Heq; [|done].
      subst x. unfold optic_lookup in Hx. cbn [fst snd] in Hx.
      rewrite Hdev in Hx. cbn in Hx. congruence.
    + rewrite decide_False by (by intros [? ?]). rewrite decide_True by done. split.
      * intros d ports'. destruct (decide (d = dev)) as [->|Hd].
        -- rewrite lookup_insert_eq. intros [= <-]. apply insert_non_empty.
        -- rewrite lookup_insert_ne by done. apply Hne.
      * intros x. rewrite (optic_lookup_insert _ _ _ _ _ _ Hdev).
        case_decide as Heq.
        -- subst x. unfold optic_lookup. cbn [fst snd]. rewrite Hdev. cbn.
           rewrite Hport. by rewrite decide_True.
        -- destruct (optic_lookup cfg x); [done|]. rewrite decide_False; [done|].
           congruence.
  - rewrite !(decide_False (P := is_Some None)) by (by intros [? ?]).
    rewrite lookup_insert_eq. cbn [default from_option id].
    rewrite lookup_empty. rewrite decide_False by (by intros [? ?]).
    rewrite decide_True by done. rewrite insert_insert_eq. split.
    + intros d ports'. destruct (decide (d = dev)) as [->|Hd].
      * rewrite lookup_insert_eq. intros [= <-]. apply insert_non_empty.
      * rewrite lookup_insert_ne by done. apply Hne.
    + intros x. unfold optic_lookup. destruct x as [d p]. cbn [fst snd].
      destruct (decide (d = dev)) as [->|Hd].
      * rewrite lookup_insert_eq, Hdev. cbn.
        destruct (decide (p = get_base_port port)) as [->|Hp].
        -- rewrite lookup_insert_eq. by rewrite decide_True.
        -- rewrite lookup_insert_ne, lookup_empty by done.
           rewrite decide_False; [done | congruence].
      * rewrite lookup_insert_ne by done.
        destruct (cfg !! d ≫= (.!! p)); [done|].
        rewrite decide_False; [done | congruence].
Qed.

Lemma optic_loop_spec entries cfg :
  no_empty_device cfg →
  no_empty_device (optic_loop entries cfg)
  ∧ ∀ x, optic_lookup (optic_loop entries cfg) x =
           match optic_lookup cfg x with
           | Some v => Some v
           | None => first_claim (optic_claims entries) x
           end.
Proof.
  revert cfg. induction entries as [|e entries IH]; intros cfg Hne.
  - split; [done|]. intros x. cbn. by destruct (optic_lookup cfg x).
  - cbn [optic_loop]. unfold optic_claims.
    cbn [fmap list_fmap mjoin list_join]. fold (optic_claims entries).
    unfold optic_ends.
    destruct (bool_decide (speed e = None) && bool_decide (channelized e = None))
      eqn:Hskip; [by apply IH|].
    assert (Hset : ¬ (speed e = None ∧ channelized e = None)).
    { intros [H1 H2]. by rewrite !bool_decide_eq_true_2 in Hskip. }
    destruct (optic_end_spec e (src_device e) (src_int e) cfg Hset Hne)
      as [Hne1 Hsrc].
    destruct (optic_end_spec e (dst_device e) (dst_int e) _ Hset Hne1)
      as [Hne2 Hdst].
    destruct (IH _ Hne2) as [Hne3 Hrest]. split; [done|]. intros x.
    rewrite Hrest, Hdst, Hsrc. rewrite first_claim_app.
    destruct (optic_lookup cfg x); [done|].
    cbn [omap list_omap].
    destruct (optic_claim e (src_device e) (src_int e)) as [[y v]|];
      destruct (optic_claim e (dst_device e) (dst_int e)) as [[y' v']|];
      cbn [id first_claim]; repeat case_decide; done.
Qed.

Lemma build_optic_port_config_lookup entries device_roles x :
  optic_lookup (_build_optic_port_config entries device_roles) x
  = first_claim (optic_claims entries) x.
Proof.
  unfold _build_optic_port_config.
  destruct (optic_loop_spec entries ∅) as [_ Hlook]; [by intros d ports|].
  rewrite Hlook. unfold optic_lookup. by rewrite lookup_empty.
Qed.

Lemma optic_claims_elem entries x v :
  (x, v) ∈ optic_claims entries →
  ∃ e, e ∈ entries
    ∧ ¬ (speed e = None ∧ channelized e = None)
    ∧ v = config_entry (speed e) (channelized e)
    ∧ ((src_device e ≠ "" ∧ src_int e ≠ ""
        ∧ x = (src_device e, get_base_port (src_int e)))
       ∨ (dst_device e ≠ "" ∧ dst_int e ≠ ""
          ∧ x = (dst_device e, get_base_port (dst_int e)))).
Proof.
  unfold optic_claims. intros (l & Hin & Hl)%list_elem_of_join.
  apply list_elem_of_fmap in Hl as (e & -> & He). exists e. split; [done|].
  unfold optic_ends in Hin.
  destruct (bool_decide (speed e = None) && bool_decide (channelized e = None))
    eqn:Hskip; [by apply elem_of_nil in Hin|].
  split. { intros [H1 H2]. by rewrite !bool_decide_eq_true_2 in Hskip. }
  apply list_elem_of_omap in Hin as (c & Hc & Hid). cbn in Hid. subst c.
  assert (Hclaim : ∀ dev port, Some (x, v) = optic_claim e dev port →
            v = config_entry (speed e) (channelized e)
            ∧ dev ≠ "" ∧ port ≠ "" ∧ x = (dev, get_base_port port)).
  { intros dev port. unfold optic_claim.
    destruct (bool_decide (dev ≠ "")) eqn:Hd, (bool_decide (port ≠ "")) eqn:Hp;
      try done.
    cbn. intros [= -> ->]. by apply bool_decide_eq_true in Hd, Hp. }
  apply elem_of_cons in Hc as [Hc|Hc].
  - apply Hclaim in Hc as (-> & ? & ? & ->). split; [done|]. by left.
  - apply list_elem_of_singleton in Hc.
    apply Hclaim in Hc as (-> & ? & ? & ->). split; [done|]. by right.
Qed.

(** X5. The first request for a base port decides: a (device, base port)
    pair holds the settings of the first record end, in the order of the
    sheet and source end before destination end, that names the device with
    a port of that base port, among the records that set a speed or a
    channelization; later requests for the pair change nothing. *)
Theorem build_optic_port_config_first_wins
    (entries : list InterfaceLink) (device_roles : gmap string string)
    (x : endpoint) (entry : OpticConfigEntry) :
  optic_lookup (_build_optic_port_config entries device_roles) x = Some entry ↔
  ∃ pre post, optic_claims entries = pre ++ (x, entry) :: post ∧ x ∉ pre.*1.
Proof.
  rewrite build_optic_port_config_lookup. apply first_claim_Some.
Qed.

(** X6. Every device listed in the optic configuration has a name and
    at least one port; every port key is a non-empty base port (taking its
    base port again gives the key itself), and its entry sets a speed or a
    channelization and carries the settings of a record with an end on that
    device whose port has this base port. *)
Theorem build_optic_port_config_entries
    (entries : list InterfaceLink) (device_roles : gmap string string)
    (dev : string) (ports : gmap string OpticConfigEntry) :
  _build_optic_port_config entries device_roles !! dev = Some ports →
  dev ≠ "" ∧ ports ≠ ∅
  ∧ ∀ port entry, ports !! port = Some entry →
      port ≠ "" ∧ get_base_port port = port
      ∧ (optic_speed entry ≠ None ∨ optic_channelized entry ≠ None)
      ∧ ∃ e, e ∈ entries
          ∧ optic_speed entry = speed e ∧ optic_channelized entry = channelized e
          ∧ ((src_device e = dev ∧ get_base_port (src_int e) = port)
             ∨ (dst_device e = dev ∧ get_base_port (dst_int e) = port)).
Proof.
  intros Hdev.
  assert (Hports : ∀ port entry, ports !! port = Some entry →
            dev ≠ "" ∧ port ≠ "" ∧ get_base_port port = port
            ∧ (optic_speed entry ≠ None ∨ optic_channelized entry ≠ None)
            ∧ ∃ e, e ∈ entries
                ∧ optic_speed entry = speed e ∧ optic_channelized entry = channelized e
                ∧ ((src_device e = dev ∧ get_base_port (src_int e) = port)
                   ∨ (dst_device e = dev ∧ get_base_port (dst_int e) = port))).
  { intros port entry Hport.
    assert (Hlook : optic_lookup (_build_optic_port_config entries device_roles)
                      (dev, port) = Some entry).
    { unfold optic_lookup. cbn [fst snd]. by rewrite Hdev. }
    rewrite build_optic_port_config_lookup in Hlook.
    apply first_claim_Some in Hlook as (pre & post & Hcut & _).
    assert (Hin : ((dev, port), entry) ∈ optic_claims entries).
    { rewrite Hcut. apply elem_of_app. right. by left. }
    apply optic_claims_elem in Hin as (e & He & Hset & -> & Hend).
    assert (Hbase : ∀ p, p ≠ "" → get_base_port p ≠ ""
                         ∧ get_base_port (get_base_port p) = get_base_port p).
    { intros p Hp. split; [by apply get_base_port_nonempty|].
      apply get_base_port_twice. }
    assert (Hsetting : optic_speed (config_entry (speed e) (channelized e)) ≠ None
                       ∨ optic_channelized (config_entry (speed e) (channelized e)) ≠ None).
    { cbn. destruct (speed e); [by left|]. destruct (channelized e); [by right|].
      by destruct Hset. }
    destruct Hend as [(Hd & Hp & [= -> ->])|(Hd & Hp & [= -> ->])].
    - destruct (Hbase _ Hp) as [Hne Hidem]. repeat (split; [done|]).
      exists e. split; [done|]. cbn. split; [done|]. split; [done|]. by left.
    - destruct (Hbase _ Hp) as [Hne Hidem]. repeat (split; [done|]).
      exists e. split; [done|]. cbn. split; [done|]. split; [done|]. by right. }
  assert (Hne : ports ≠ ∅).
  { unfold _build_optic_port_config in Hdev.
    destruct (optic_loop_spec entries ∅) as [Hne _]; [by intros d ps|].
    by apply (Hne dev). }
  split; [|split; [done|]].
  - destruct (map_choose _ Hne) as (port & entry & Hport).
    by destruct (Hports _ _ Hport).
  - intros port entry Hport. by destruct (Hports _ _ Hport) as (_ & ? & ? & ? & ?).
Qed.

(** ** Topology synthesis: what a run does not do *)

(** The core end of every leg is a key of the initial core map. *)
Lemma legs_in_core_map device_roles entries c :
  c ∈ mjoin (group_legs device_roles entries []).*2 →
  (leg_core device_roles c).1
  ∈ dom (initial_core_config (sorted_cores device_roles)).
Proof.
  intros (conns & Hc & Hconns)%list_elem_of_join.
  apply list_elem_of_fmap in Hconns as ([ae conns'] & -> & Hg).
  apply initial_core_config_dom. eapply leg_core_is_core.
  by eapply group_legs_qualify.
Qed.

(** A record that does not join two core devices adds no core link. *)
Lemma core_links_loop_skip cores pre e post seen links :
  src_device e ∉ cores ∨ dst_device e ∉ cores →
  core_links_loop cores (pre ++ e :: post) seen links
  = core_links_loop cores (pre ++ post) seen links.
Proof.
  intros He. revert seen links. induction pre as [|e' pre IH]; intros seen links.
  - cbn [app core_links_loop].
    destruct He as [He|He].
    + by rewrite (bool_decide_eq_false_2 _ He).
    + rewrite (bool_decide_eq_false_2 _ He). by rewrite andb_false_r.
  - cbn [app core_links_loop].
    destruct (bool_decide (src_device e' ∈ cores) && bool_decide (dst_device e' ∈ cores));
      [|apply IH].
    case_decide; apply IH.
Qed.

(** The access end of a leg is no core device. *)
Lemma leg_access_not_core device_roles ae c :
  qualifies device_roles ae c →
  is_core device_roles (leg_access device_roles c).1 = false.
Proof.
  intros [_ Hx]. unfold leg_access, leg_ends.
  destruct (is_core device_roles (src_device c)) eqn:Hs; cbn [fst].
  - by destruct (is_core device_roles (dst_device c)).
  - done.
Qed.

(** X7. A run fails for too few core devices exactly when no two
    devices of the role map have the role [collapsed-core], whatever the
    records are, so never after the check of the core devices that
    [create_fabric] makes first.  No run fails for a missing dictionary key
    or a missing list element: the devices whose ports are written are core
    devices, and every core device has its map from the start.  A
    group-size failure reports a size other than 2, and a port conflict
    names a device with the role [collapsed-core]. *)
Theorem build_topology_failures
    (entries : list InterfaceLink) (device_roles : gmap string string) :
  (_build_topology entries device_roles = Raise TopologyUnderspecifiedError
   ↔ ∀ a b, device_roles !! a = Some "collapsed-core" →
            device_roles !! b = Some "collapsed-core" → a = b)
  ∧ (∀ core_devices,
       create_fabric_core_devices device_roles = Ok core_devices →
       _build_topology entries device_roles ≠ Raise TopologyUnderspecifiedError)
  ∧ (∀ key, _build_topology entries device_roles ≠ Raise (KeyError key))
  ∧ _build_topology entries device_roles ≠ Raise IndexError
  ∧ (∀ ae found,
       _build_topology entries device_roles = Raise (AggregationGroupSizeError ae found) →
       found ≠ 2)
  ∧ (∀ core_dev core_port,
       _build_topology entries device_roles = Raise (PortConflictError core_dev core_port) →
       device_roles !! core_dev = Some "collapsed-core").
Proof.
  assert (Hkinds : ∀ err,
            process_groups device_roles (group_legs device_roles entries [])
              (initial_core_config (sorted_cores device_roles)) ∅ = Raise err →
            (∃ ae found, err = AggregationGroupSizeError ae found ∧ found ≠ 2)
            ∨ (∃ core_dev core_port,
                 err = PortConflictError core_dev core_port
                 ∧ device_roles !! core_dev = Some "collapsed-core")).
  { intros err Hrun. apply process_groups_raise in Hrun
      as [(pre & ae & conns & post & -> & _ & Hlen & _)
         |[(d & p & pre & c & post & -> & Hcat & Hc & _)
          |(c & _ & Hc & Hout)]].
    - left. by exists ae, (length conns).
    - right. exists d, p. split; [done|].
      assert (Hin : c ∈ mjoin (group_legs device_roles entries []).*2).
      { rewrite Hcat. apply elem_of_app. right. by left. }
      apply legs_in_core_map, initial_core_config_dom in Hin.
      rewrite Hc in Hin. cbn [fst] in Hin.
      by apply is_core_elem, bool_decide_eq_true in Hin.
    - by apply legs_in_core_map in Hc. }
  assert (Hall : ∀ err,
            _build_topology entries device_roles = Raise err →
            err = TopologyUnderspecifiedError
            ∨ (∃ ae found, err = AggregationGroupSizeError ae found ∧ found ≠ 2)
            ∨ (∃ core_dev core_port,
                 err = PortConflictError core_dev core_port
                 ∧ device_roles !! core_dev = Some "collapsed-core")).
  { intros err [[-> _]|[_ Hrun]]%build_topology_raise_iff; [by left|].
    right. by apply Hkinds. }
  assert (Hfew : _build_topology entries device_roles
                 = Raise TopologyUnderspecifiedError
                 ↔ length (core_role_devices device_roles) < 2).
  { rewrite build_topology_raise_iff. split.
    - intros [[_ ?]|[_ Hrun]]; [done|].
      apply Hkinds in Hrun as [(? & ? & ? & _)|(? & ? & ? & _)]; done.
    - intros Hlen. by left. }
  assert (Hone : length (core_role_devices device_roles) < 2
                 ↔ ∀ a b, device_roles !! a = Some "collapsed-core" →
                          device_roles !! b = Some "collapsed-core" → a = b).
  { split.
    - intros Hlen a b Ha%core_role_devices_elem Hb%core_role_devices_elem.
      by apply (one_of_NoDup (core_role_devices device_roles)).
    - intros Hsame.
      pose proof (core_role_devices_NoDup device_roles) as Hnd.
      destruct (core_role_devices device_roles) as [|a [|b l]] eqn:Hl;
        cbn; [lia..|].
      apply NoDup_cons in Hnd as [Hfresh _]. destruct Hfresh.
      rewrite (Hsame a b); [by left|..]; apply core_role_devices_elem;
        rewrite Hl; [by left | right; by left]. }
  split; [by rewrite Hfew|]. split; [|split; [|split; [|split]]].
  - intros core_devices Hcores Hrun%Hfew.
    unfold create_fabric_core_devices in Hcores.
    rewrite (Permutation_length (sorted_strings_perm _)) in Hcores.
    by rewrite decide_True in Hcores.
  - intros key [?|[(? & ? & ? & _)|(? & ? & ? & _)]]%Hall; done.
  - intros [?|[(? & ? & ? & _)|(? & ? & ? & _)]]%Hall; done.
  - intros ae found [?|[(? & ? & [= <- <-] & ?)|(? & ? & ? & _)]]%Hall; done.
  - intros d p [?|[(? & ? & ? & _)|(? & ? & [= <- <-] & ?)]]%Hall; done.
Qed.

(** X8. A record that does not join two core devices and is no
    aggregation leg (it has no aggregation id, or neither of its ends is a
    core device) does not matter: the run with it and the run without it
    give the same result, or the same failure. *)
Theorem build_topology_ignores_other_records
    (pre post : list InterfaceLink) (e : InterfaceLink)
    (device_roles : gmap string string) :
  is_core device_roles (src_device e) = false
  ∨ is_core device_roles (dst_device e) = false →
  ae_idx e = None
  ∨ (is_core device_roles (src_device e) = false
     ∧ is_core device_roles (dst_device e) = false) →
  _build_topology (pre ++ e :: post) device_roles
  = _build_topology (pre ++ post) device_roles.
Proof.
  intros Hlink Hleg. unfold _build_topology. case_decide; [done|].
  rewrite core_links_loop_skip, group_legs_skip; [done| |].
  - destruct Hleg as [?|[-> ->]]; [by left | by right].
  - destruct Hlink as [Hs|Hd]; [left|right]; intros Hin%is_core_elem; congruence.
Qed.

(** X9. In a run that returns, the core map has an entry for exactly the
    devices with the core role, also for a core without any port; a
    device of the access map has not the core role and is the access end of
    some aggregation leg. *)
Theorem build_topology_devices
    (entries : list InterfaceLink) (device_roles : gmap string string)
    (links : list CoreLink) (cpc apc : gmap string (gmap string PortConfigEntry)) :
  _build_topology entries device_roles = Ok (links, cpc, apc) →
  (∀ dev, is_Some (cpc !! dev) ↔ device_roles !! dev = Some "collapsed-core")
  ∧ ∀ dev, is_Some (apc !! dev) →
      device_roles !! dev ≠ Some "collapsed-core"
      ∧ ∃ ae c, c ∈ legs_of device_roles entries ae
                ∧ (leg_access device_roles c).1 = dev.
Proof.
  intros (_ & _ & cpc1 & Hgroups & Hassign)%build_topology_ok.
  apply process_groups_ok in Hgroups as (_ & Hdom1 & _ & _ & _ & _ & Hapc).
  apply assign_links_final in Hassign as (Hdom & _).
  split.
  - intros dev. rewrite <- elem_of_dom, Hdom, Hdom1, initial_core_config_dom.
    unfold sorted_cores. rewrite <- is_core_elem. unfold is_core.
    by rewrite bool_decide_eq_true.
  - intros dev. rewrite Hapc, lookup_empty. unfold last_bundle.
    destruct (last _) as [[ae conns]|] eqn:Hlast; cbn; [|by intros [? ?]].
    intros _. apply last_Some_elem_of, list_elem_of_filter in Hlast as [Hdev Hg].
    cbn [snd] in Hdev. unfold group_access_dev in Hdev.
    destruct (last conns) as [c|] eqn:Hc; [|done]. cbn in Hdev.
    injection Hdev as Hdev. apply last_Some_elem_of in Hc.
    pose proof (group_legs_qualify _ _ _ _ _ Hg Hc) as Hq.
    apply group_legs_elem in Hg as [-> _]. split.
    + pose proof (leg_access_not_core _ _ _ Hq) as Hno. rewrite Hdev in Hno.
      unfold is_core in Hno. by apply bool_decide_eq_false in Hno.
    + by exists ae, c.
Qed.

(** X10. In a run that returns, the core port of an aggregation leg
    holds the ESI-LAG entry of the leg's aggregation id, unless the port is
    also an end of a core link; and a port that is neither an end of a core
    link nor the core port of a leg has no entry. *)
Theorem build_topology_core_ports
    (entries : list InterfaceLink) (device_roles : gmap string string)
    (links : list CoreLink) (cpc apc : gmap string (gmap string PortConfigEntry)) :
  _build_topology entries device_roles = Ok (links, cpc, apc) →
  (∀ ae c,
      c ∈ legs_of device_roles entries ae →
      leg_core device_roles c ∉ mjoin (link_ends <$> links) →
      port_lookup cpc (leg_core device_roles c) = Some (esi_lag_core_entry ae))
  ∧ ∀ x,
      x ∉ mjoin (link_ends <$> links) →
      (∀ ae c, c ∈ legs_of device_roles entries ae → leg_core device_roles c ≠ x) →
      port_lookup cpc x = None.
Proof.
  intros (_ & _ & cpc1 & Hgroups & Hassign)%build_topology_ok.
  apply process_groups_ok in Hgroups as (_ & _ & _ & _ & Hother & Hlegs & _).
  apply assign_links_final in Hassign as (_ & _ & _ & Hout).
  assert (Hends : ∀ x, x ∉ mjoin (link_ends <$> links) →
            x ∉ mjoin (link_ends <$> Py.sorted link_lt links)).
  { intros x Hx (ends & Hin & Hl)%list_elem_of_join. apply Hx.
    apply list_elem_of_join. exists ends. split; [done|].
    by rewrite sorted_links_perm in Hl. }
  split.
  - intros ae c Hc Hx. rewrite (Hout _ (Hends _ Hx)).
    apply (Hlegs ae (legs_of device_roles entries ae)); [|done].
    apply group_legs_elem. split; [done|]. intros Hnil. rewrite Hnil in Hc.
    by apply elem_of_nil in Hc.
  - intros x Hx Hno. rewrite (Hout _ (Hends _ Hx)), Hother.
    + apply initial_core_config_ports.
    + intros (c & -> & (conns & Hc & Hconns)%list_elem_of_join)%list_elem_of_fmap.
      apply list_elem_of_fmap in Hconns as ([ae conns'] & -> & Hg).
      apply group_legs_elem in Hg as [-> _]. by apply (Hno ae c).
Qed.

(** ** Topology synthesis: where the core links come from *)

(** A record joins two core devices. *)
Definition joins_cores (cores : list string) (e : InterfaceLink) : Prop :=
  src_device e ∈ cores ∧ dst_device e ∈ cores.

(** [l] is the link of the first record of [entries] with its key, and
    that key was not seen before. *)
Definition first_listing (cores : list string) (seen : gset (gset endpoint))
    (entries : list InterfaceLink) (l : CoreLink) : Prop :=
  ∃ pre e post,
    entries = pre ++ e :: post
    ∧ joins_cores cores e
    ∧ l = link_of_entry e
    ∧ (entry_key e ∉ seen)
    ∧ (∀ e', e' ∈ pre → joins_cores cores e' → entry_key e' ≠ entry_key e).

Lemma first_listing_nil cores seen l : ¬ first_listing cores seen [] l.
Proof. intros (pre & e & post & Hcut & _). by destruct pre. Qed.

Lemma first_listing_cons cores seen e0 entries l :
  first_listing cores seen (e0 :: entries) l ↔
  (joins_cores cores e0 ∧ l = link_of_entry e0 ∧ entry_key e0 ∉ seen)
  ∨ (first_listing cores seen entries l
     ∧ (joins_cores cores e0 → entry_key e0 ∉ core_link_key <$> [l])).
Proof.
  split.
  - intros ([|e1 pre] & e & post & Hcut & Hj & -> & Hseen & Hpre).
    + injection Hcut as -> ->. by left.
    + injection Hcut as -> ->. right. split.
      * exists pre, e, post. repeat (split; [done|]). intros e' Hin. apply Hpre. by right.
      * intros Hj0 Hin. apply list_elem_of_singleton in Hin.
        apply (Hpre e1); [by left | done | done].
  - intros [(Hj & -> & Hseen)|[(pre & e & post & -> & Hj & -> & Hseen & Hpre) Hnew]].
    + exists [], e0, entries. repeat (split; [done|]). by intros ? ?%elem_of_nil.
    + exists (e0 :: pre), e, post. repeat (split; [done|]).
      intros e' [->|Hin]%elem_of_cons Hj'; [|by apply Hpre].
      intros Heq. apply (Hnew Hj'). by apply list_elem_of_singleton.
Qed.

Lemma core_links_loop_first cores entries seen links l :
  l ∈ core_links_loop cores entries seen links ↔
  l ∈ links ∨ first_listing cores seen entries l.
Proof.
  revert seen links. induction entries as [|e0 entries IH]; intros seen links.
  - cbn [core_links_loop]. split; [by left|].
    by intros [?|?%first_listing_nil].
  - cbn [core_links_loop]. rewrite first_listing_cons.
    fold (entry_key e0). fold (link_of_entry e0).
    destruct (decide (joins_cores cores e0)) as [[Hs Hd]|Hno].
    + rewrite !bool_decide_eq_true_2 by done. cbn [andb].
      case_decide as Hseen; rewrite IH.
      * split.
        -- intros [?|Hfirst]; [by left|]. right. right. split; [done|].
           intros _ Hin%list_elem_of_singleton.
           destruct Hfirst as (pre & e & post & _ & _ & -> & Hnew & _).
           apply Hnew. unfold core_link_key, link_of_entry in Hin. cbn in Hin.
           unfold entry_key in *. by rewrite <- Hin.
        -- intros [?|[(_ & _ & ?)|[? _]]]; [by left | done | by right].
      * rewrite elem_of_app, list_elem_of_singleton. split.
        -- intros [[?| ->]|Hfirst]; [by left | by right; left |].
           right. right.
           destruct Hfirst as (pre & e & post & -> & Hj & -> & Hnew & Hpre).
           apply not_elem_of_union in Hnew as [Hnew0 Hnew].
           rewrite elem_of_singleton in Hnew0. split.
           ++ by exists pre, e, post.
           ++ intros _ Hin%list_elem_of_singleton. apply Hnew0.
              unfold core_link_key, link_of_entry in Hin. by cbn in Hin.
        -- intros [?|[(_ & -> & _)|[Hfirst Hnew]]]; [left; by left | left; by right |].
           right. destruct Hfirst as (pre & e & post & -> & Hj & -> & Hnew' & Hpre).
           exists pre, e, post. repeat (split; [done|]). split; [|done].
           apply not_elem_of_union. split; [|done]. rewrite elem_of_singleton.
           intros Heq. apply Hnew; [done|]. apply list_elem_of_singleton.
           unfold core_link_key, link_of_entry. by cbn.
    + assert (Hskip : bool_decide (src_device e0 ∈ cores)
                      && bool_decide (dst_device e0 ∈ cores) = false).
      { apply andb_false_iff.
        destruct (decide (src_device e0 ∈ cores)) as [Hs|Hs];
          [right | left]; apply bool_decide_eq_false; [|done].
        intros Hd. by apply Hno. }
      rewrite Hskip, IH. split.
      * intros [?|?]; [by left|]. right. right. by split.
      * intros [?|[(? & _)|[? _]]]; [by left | done | by right].
Qed.

(** X11. The returned core links are the records that join two core
    devices, each taken the first time its pair of ends is listed and in
    the direction of that record: source end as [core1], [port1],
    destination end as [core2], [port2]. *)
Theorem build_topology_core_links_first_listing
    (entries : list InterfaceLink) (device_roles : gmap string string)
    (links : list CoreLink) (cpc apc : gmap string (gmap string PortConfigEntry))
    (l : CoreLink) :
  _build_topology entries device_roles = Ok (links, cpc, apc) →
  l ∈ links ↔
  ∃ pre e post,
    entries = pre ++ e :: post
    ∧ device_roles !! src_device e = Some "collapsed-core"
    ∧ device_roles !! dst_device e = Some "collapsed-core"
    ∧ l = {| core1 := src_device e; port1 := src_int e;
             core2 := dst_device e; port2 := dst_int e |}
    ∧ (∀ e', e' ∈ pre →
         device_roles !! src_device e' = Some "collapsed-core" →
         device_roles !! dst_device e' = Some "collapsed-core" →
         entry_key e' ≠ entry_key e).
Proof.
  intros (_ & -> & _)%build_topology_ok.
  assert (Hcore : ∀ d, d ∈ sorted_cores device_roles
                       ↔ device_roles !! d = Some "collapsed-core").
  { intros d. unfold sorted_cores. rewrite <- is_core_elem. unfold is_core.
    by rewrite bool_decide_eq_true. }
  rewrite core_links_loop_first. split.
  - intros [?%elem_of_nil|(pre & e & post & -> & [Hs Hd] & -> & _ & Hpre)]; [done|].
    exists pre, e, post. split; [done|]. rewrite <- !Hcore. repeat (split; [done|]).
    intros e' Hin Hs' Hd'. apply Hpre; [done|]. split; by apply Hcore.
  - intros (pre & e & post & -> & Hs & Hd & -> & Hpre). right.
    exists pre, e, post. split; [done|]. split; [by split; apply Hcore|].
    split; [done|]. split; [apply not_elem_of_empty|].
    intros e' Hin [Hs' Hd']. apply Hpre; [done|..]; by apply Hcore.
Qed.

(** ** The key of an access bundle *)

(** The key depends on the set of non-empty ports only. *)
Lemma bundle_port_key_set (ports ports' : list string) :
  (∀ p, p ≠ "" → p ∈ ports ↔ p ∈ ports') →
  bundle_port_key ports = bundle_port_key ports'.
Proof.
  intros Hsame. unfold bundle_port_key. do 3 f_equal.
  apply set_eq. intros p. rewrite !elem_of_list_to_set, !list_elem_of_filter.
  split; intros [Hp Hin]; (split; [done|]); by apply (Hsame p Hp).
Qed.

Lemma bundle_port_key_sorted (ports sorted_ports : list string) :
  StronglySorted (λ a b, Py.lt a b = true) sorted_ports →
  (∀ p, p ∈ sorted_ports ↔ p ≠ "" ∧ p ∈ ports) →
  bundle_port_key ports = Py.join "," sorted_ports.
Proof.
  intros Hsorted Hsame. unfold bundle_port_key. f_equal. symmetry.
  apply (sorted_unique (below String.compare)).
  - apply below_irrefl, string_compare_lawful.
  - apply below_trans, string_compare_lawful.
  - done.
  - apply sorted_strings_strict, NoDup_elements.
  - rewrite sorted_strings_perm. apply NoDup_Permutation.
    + clear Hsame. induction Hsorted as [|x l _ IH Hx]; [constructor|].
      apply NoDup_cons. split; [|done].
      intros Hin. rewrite Forall_forall in Hx. specialize (Hx x Hin).
      change (below String.compare x x = true) in Hx.
      by rewrite (below_irrefl _ string_compare_lawful) in Hx.
    + apply NoDup_elements.
    + intros p. rewrite Hsame, elem_of_elements, elem_of_list_to_set.
      by rewrite list_elem_of_filter.
Qed.

(** X12. The key of a bundle with two legs does not depend on the order
    of the legs.  An empty port name is left out, a port listed twice is
    listed once, and two different ports are joined by a comma with the
    smaller one first. *)
Theorem bundle_port_key_two_legs (port_a port_b : string) :
  bundle_port_key [port_a; port_b] = bundle_port_key [port_b; port_a]
  ∧ bundle_port_key [port_a; port_b] =
      if decide (port_a = "") then port_b
      else if decide (port_b = "" ∨ port_b = port_a) then port_a
      else if Py.lt port_a port_b then port_a +:+ "," +:+ port_b
      else port_b +:+ "," +:+ port_a.
Proof.
  split.
  { apply bundle_port_key_set. intros p _. rewrite !elem_of_cons, !elem_of_nil. tauto. }
  assert (Hone : ∀ p, p ≠ "" → StronglySorted (λ a b, Py.lt a b = true) [p]).
  { intros p _. repeat constructor. }
  destruct (decide (port_a = "")) as [->|Ha].
  - destruct (decide (port_b = "")) as [->|Hb].
    + by rewrite (bundle_port_key_sorted _ []);
        [| constructor | intros p; rewrite !elem_of_cons, !elem_of_nil; intuition congruence].
    + rewrite (bundle_port_key_sorted _ [port_b]); [done | by apply Hone |].
      intros p. rewrite !elem_of_cons, !elem_of_nil. intuition congruence.
  - destruct (decide (port_b = "" ∨ port_b = port_a)) as [Hb|Hb].
    + rewrite (bundle_port_key_sorted _ [port_a]); [done | by apply Hone |].
      intros p. rewrite !elem_of_cons, !elem_of_nil. intuition congruence.
    + assert (port_b ≠ "" ∧ port_b ≠ port_a) as [Hb1 Hb2] by tauto.
      destruct (Py.lt port_a port_b) eqn:Hlt.
      * rewrite (bundle_port_key_sorted _ [port_a; port_b]); [done | |].
        -- repeat constructor. done.
        -- intros p. rewrite !elem_of_cons, !elem_of_nil. intuition congruence.
      * rewrite (bundle_port_key_sorted _ [port_b; port_a]); [done | |].
        -- repeat constructor. destruct (Py.lt port_b port_a) eqn:Hgt; [done|].
           destruct Hb2. symmetry.
           by apply (below_total String.compare string_compare_lawful).
        -- intros p. rewrite !elem_of_cons, !elem_of_nil. intuition congruence.
Qed.

(** ** Updates, repeated *)

(** X13. Updating a second time with the same new ports changes
    nothing; an update over an empty snapshot sends what a creation
    sends; and a port that an earlier update wrote and that is missing
    from the new ports is still sent, with the entry the earlier update
    gave it. *)
Theorem final_port_config_update_again {V : Type}
    (current old_ports new_ports : gmap string V) (esi_lag_name : string) :
  final_port_config UPDATE
    (final_port_config UPDATE current new_ports esi_lag_name)
    new_ports esi_lag_name
  = final_port_config UPDATE current new_ports esi_lag_name
  ∧ final_port_config UPDATE ∅ new_ports esi_lag_name
    = final_port_config CREATE current new_ports esi_lag_name
  ∧ ∀ port_name,
      new_ports !! port_name = None →
      final_port_config UPDATE
        (final_port_config UPDATE current old_ports esi_lag_name)
        new_ports esi_lag_name !! port_name
      = final_port_config UPDATE current old_ports esi_lag_name !! port_name.
Proof.
  cbn [final_port_config]. rewrite !merge_port_configs_union. split; [|split].
  - by rewrite (assoc_L (∪)), (idemp_L (∪)).
  - apply (right_id_L ∅ (∪)).
  - intros port_name Hnew. rewrite lookup_union_r; [done | done].
Qed.

(** ** Secondary addresses: names that occur more than once *)

Section OtherIpRows.
Context `{Ipaddress}.

(** A row that gives its network a gateway of some family. *)
Definition gives_gateway (name : string) (net : gmap string string) : Prop :=
  row_name net = name ∧ (row_gateway net ≠ "" ∨ row_gateway6 net ≠ "").

#[local] Instance gives_gateway_dec name net : Decision (gives_gateway name net).
Proof. unfold gives_gateway. apply _. Defined.

Lemma other_ip_loop_last offset rows cfg0 cfg name :
  other_ip_loop offset rows cfg0 = Ok cfg → name ≠ "" →
  match last (filter (gives_gateway name) rows) with
  | Some net =>
      ∃ entry, other_ip_entry offset net = Ok entry ∧ entry ≠ ∅
               ∧ cfg !! name = Some entry
  | None => cfg !! name = cfg0 !! name
  end.
Proof.
  intros Hrun Hname. revert cfg0 Hrun.
  induction rows as [|net rows IH]; intros cfg0; cbn [other_ip_loop].
  - by intros [= <-].
  - fold (row_name net). rewrite filter_cons.
    assert (Hlast : ∀ (x : gmap string string) l,
              last (x :: l) = match last l with Some y => Some y | None => Some x end).
    { intros x l. destruct l as [|y l]; [done|]. rewrite last_cons.
      by destruct (last (y :: l)). }
    case_decide as Hrow.
    { rewrite decide_False by (intros [? _]; congruence). apply IH. }
    destruct (other_ip_entry offset net) as [entry|err] eqn:Hentry; [|done].
    cbn [mbind result_bind].
    pose proof (other_ip_entry_ok _ _ _ Hentry) as (_ & _ & _ & _ & Hempty).
    case_decide as He.
    { rewrite decide_False by (intros [_ [?|?]]; apply Hempty in He; tauto).
      apply IH. }
    intros Hrun. specialize (IH _ Hrun).
    destruct (decide (gives_gateway name net)) as [[Heq Hgw]|Hno].
    + rewrite Hlast. destruct (last (filter _ rows)) as [net'|]; [done|].
      exists entry. split; [done|]. split; [done|].
      by rewrite IH, Heq, lookup_insert_eq.
    + destruct (last (filter _ rows)) as [net'|]; [done|].
      rewrite IH. apply lookup_insert_ne. intros Heq. apply Hno. split; [done|].
      destruct (decide (row_gateway net = "")) as [H4|H4]; [|by left].
      destruct (decide (row_gateway6 net = "")) as [H6|H6]; [|by right].
      destruct He. by apply Hempty.
Qed.

Lemma other_ip_loop_unnamed offset rows cfg0 cfg :
  other_ip_loop offset rows cfg0 = Ok cfg → cfg !! "" = cfg0 !! "".
Proof.
  revert cfg0. induction rows as [|net rows IH]; intros cfg0; cbn [other_ip_loop].
  - by intros [= <-].
  - fold (row_name net). case_decide as Hrow; [apply IH|].
    destruct (other_ip_entry offset net) as [entry|err]; [|done].
    cbn [mbind result_bind]. case_decide; [apply IH|].
    intros ->%IH. by apply lookup_insert_ne.
Qed.
End OtherIpRows.

(** X14. When a network name occurs in several rows, the allocation
    keeps the entry of the last row of that name that has a gateway of
    either family; a name none of whose rows has a gateway has no entry, and
    there is no entry under the empty name. *)
Theorem make_other_ip_configs_last_row_wins `{Ipaddress}
    (networks_rows : list (gmap string string)) (offset : Z)
    (cfg : gmap string (gmap string string)) :
  make_other_ip_configs networks_rows offset = Ok cfg →
  cfg !! "" = None
  ∧ ∀ name, name ≠ "" →
      match last (filter (gives_gateway name) networks_rows) with
      | Some net =>
          ∃ entry, cfg !! name = Some entry
                   ∧ entry_v4 offset (row_gateway net) entry
                   ∧ entry_v6 offset (row_gateway6 net) entry
      | None => cfg !! name = None
      end.
Proof.
  unfold make_other_ip_configs. intros Hrun. split.
  - by rewrite (other_ip_loop_unnamed _ _ _ _ Hrun).
  - intros name Hname. pose proof (other_ip_loop_last _ _ _ _ name Hrun Hname) as Hlast.
    destruct (last _) as [net|]; [|by rewrite Hlast].
    destruct Hlast as (entry & Hentry & _ & Hlook). exists entry. split; [done|].
    by apply other_ip_entry_ok in Hentry as (_ & _ & ? & ? & _).
Qed.

(** X15. Two allocations from the same rows, with any two offsets, cover
    the same networks, and the entries of a network agree in everything but
    the addresses: the same families with the same netmask and prefix
    length. *)
Theorem make_other_ip_configs_same_networks `{Ipaddress}
    (networks_rows : list (gmap string string)) (offset1 offset2 : Z)
    (cfg1 cfg2 : gmap string (gmap string string)) :
  make_other_ip_configs networks_rows offset1 = Ok cfg1 →
  make_other_ip_configs networks_rows offset2 = Ok cfg2 →
  dom cfg1 = dom cfg2
  ∧ ∀ name entry1 entry2,
      cfg1 !! name = Some entry1 → cfg2 !! name = Some entry2 →
      entry1 !! "type" = entry2 !! "type"
      ∧ entry1 !! "netmask" = entry2 !! "netmask"
      ∧ entry1 !! "type6" = entry2 !! "type6"
      ∧ entry1 !! "netmask6" = entry2 !! "netmask6".
Proof.
  unfold make_other_ip_configs. intros Hrun1 Hrun2.
  assert (Hrows : ∀ name,
            (cfg1 !! name = None ∧ cfg2 !! name = None)
            ∨ ∃ net entry1 entry2,
                cfg1 !! name = Some entry1 ∧ cfg2 !! name = Some entry2
                ∧ other_ip_entry offset1 net = Ok entry1
                ∧ other_ip_entry offset2 net = Ok entry2).
  { intros name. destruct (decide (name = "")) as [->|Hname].
    { left. by rewrite (other_ip_loop_unnamed _ _ _ _ Hrun1),
                       (other_ip_loop_unnamed _ _ _ _ Hrun2). }
    pose proof (other_ip_loop_last _ _ _ _ name Hrun1 Hname) as H1.
    pose proof (other_ip_loop_last _ _ _ _ name Hrun2 Hname) as H2.
    destruct (last _) as [net|]; [|left; by rewrite H1, H2].
    destruct H1 as (entry1 & He1 & _ & Hl1), H2 as (entry2 & He2 & _ & Hl2).
    right. by exists net, entry1, entry2. }
  split.
  - apply set_eq. intros name. rewrite !elem_of_dom.
    destruct (Hrows name) as [[-> ->]|(? & ? & ? & -> & -> & _)]; [done|].
    split; by eexists.
  - intros name entry1 entry2 Hl1 Hl2.
    destruct (Hrows name) as [[Hn _]|(net & e1 & e2 & Hl1' & Hl2' & He1 & He2)];
      [congruence|].
    assert (e1 = entry1) as -> by congruence.
    assert (e2 = entry2) as -> by congruence.
    apply other_ip_entry_ok in He1 as (_ & _ & H4 & H6 & _).
    apply other_ip_entry_ok in He2 as (_ & _ & H4' & H6' & _).
    unfold entry_v4, entry_v6 in *.
    assert (entry1 !! "type" = entry2 !! "type"
            ∧ entry1 !! "netmask" = entry2 !! "netmask") as [? ?].
    { destruct (decide (row_gateway net = "")).
      + destruct H4 as (? & _ & ?), H4' as (? & _ & ?). split; congruence.
      + destruct H4 as (i & Hi & ? & _ & ?), H4' as (i' & Hi' & ? & _ & ?).
        split; congruence. }
    assert (entry1 !! "type6" = entry2 !! "type6"
            ∧ entry1 !! "netmask6" = entry2 !! "netmask6") as [? ?]; [|done].
    destruct (decide (row_gateway6 net = "")).
    + destruct H6 as (? & _ & ?), H6' as (? & _ & ?). split; congruence.
    + destruct H6 as (i & Hi & ? & _ & ?), H6' as (i' & Hi' & ? & _ & ?).
      split; congruence.
Qed.

(** ** White space at the ends of a text *)

Definition all_space (s : string) : Prop :=
  Py.string_forall Py.isspace s = true.

(** A text with something at both ends: it is not empty and [strip] leaves
    it as it is. *)
Definition trimmed (s : string) : Prop :=
  s ≠ "" ∧ Py.lstrip s = s ∧ Py.rstrip s = s.

Lemma lstrip_head s :
  Py.lstrip s = "" ∨ ∃ c r, Py.lstrip s = String c r ∧ Py.isspace c = false.
Proof.
  induction s as [|c s IH]; [by left|]. cbn [Py.lstrip].
  destruct (Py.isspace c) eqn:Hc; [done|]. right. by exists c, s.
Qed.

Lemma rstrip_head c s :
  Py.isspace c = false → ∃ r, Py.rstrip (String c s) = String c r.
Proof.
  intros Hc. cbn [Py.rstrip]. rewrite Hc. destruct (Py.rstrip s); by eexists.
Qed.

Lemma rstrip_fixed s : Py.rstrip (Py.rstrip s) = Py.rstrip s.
Proof.
  induction s as [|c s IH]; [done|]. cbn [Py.rstrip].
  destruct (Py.rstrip s) as [|d r] eqn:Hr.
  - destruct (Py.isspace c) eqn:Hc; [done|]. cbn [Py.rstrip]. by rewrite Hc.
  - cbn [Py.rstrip]. cbn [Py.rstrip] in IH. by rewrite IH.
Qed.

Lemma rstrip_length s : (String.length (Py.rstrip s) ≤ String.length s)%nat.
Proof.
  induction s as [|c s IH]; [done|]. cbn [Py.rstrip].
  destruct (Py.rstrip s) as [|d r].
  - destruct (Py.isspace c); cbn; lia.
  - cbn in *. lia.
Qed.

Lemma rstrip_all_space s : all_space s → Py.rstrip s = "".
Proof.
  unfold all_space. induction s as [|c s IH]; [done|]. cbn.
  intros [Hc Hs]%andb_true_iff. by rewrite (IH Hs), Hc.
Qed.

Lemma rstrip_app_space a b : all_space b → Py.rstrip (a +:+ b) = Py.rstrip a.
Proof.
  intros Hb. induction a as [|c a IH]; cbn [String.append Py.rstrip].
  - by apply rstrip_all_space.
  - by rewrite IH.
Qed.

Lemma rstrip_app_fixed a b :
  b ≠ "" → Py.rstrip b = b → Py.rstrip (a +:+ b) = a +:+ b.
Proof.
  intros Hne Hb. induction a as [|c a IH]; cbn [String.append Py.rstrip]; [done|].
  rewrite IH. destruct (a +:+ b) eqn:Hab; [|done].
  destruct a; [by cbn in Hab | done].
Qed.

Lemma strip_trimmed s : trimmed s → Py.strip s = s.
Proof. intros (_ & Hl & Hr). unfold Py.strip. by rewrite Hl. Qed.

(** What [strip] returns is empty or trimmed. *)
Lemma strip_is_trimmed s : Py.strip s ≠ "" → trimmed (Py.strip s).
Proof.
  unfold Py.strip. intros Hne. split; [done|]. split; [|apply rstrip_fixed].
  destruct (lstrip_head s) as [Hl|(c & r & Hl & Hc)]; rewrite Hl in *; [done|].
  destruct (rstrip_head c r Hc) as [r' ->]. cbn [Py.lstrip]. by rewrite Hc.
Qed.

Lemma strip_all_space s : Py.strip s = "" → all_space s.
Proof.
  unfold Py.strip, all_space. induction s as [|c s IH]; [done|].
  cbn [Py.lstrip Py.string_forall]. destruct (Py.isspace c) eqn:Hc; [by apply IH|].
  intros Hr. destruct (rstrip_head c s Hc) as [r Heq]. congruence.
Qed.

Lemma trimmed_head s :
  trimmed s → ∃ c r, s = String c r ∧ Py.isspace c = false.
Proof.
  intros (Hne & Hl & _). destruct (lstrip_head s) as [Hs|(c & r & Hs & Hc)].
  - congruence.
  - exists c, r. split; [congruence | done].
Qed.

(** ** Cutting a text at a separator *)

Lemma drop_app a b : Py.drop (String.length a) (a +:+ b) = b.
Proof. induction a as [|c a IH]; [by destruct b | done]. Qed.

Lemma prefix_app (a b : string) : String.prefix a (a +:+ b) = true.
Proof.
  induction a as [|c a IH]; cbn; [by destruct b|].
  by destruct (ascii_dec c c).
Qed.

Lemma prefix_split (a s : string) :
  String.prefix a s = true → ∃ b, s = a +:+ b.
Proof.
  revert s. induction a as [|c a IH]; intros s.
  - intros _. by exists s.
  - destruct s as [|d s]; [done|]. cbn. destruct (ascii_dec c d) as [->|]; [|done].
    intros [b ->]%IH. by exists b.
Qed.

Lemma partition_Some sep s before after :
  Py.partition sep s = Some (before, after) → s = before +:+ sep +:+ after.
Proof.
  revert before. induction s as [|c s IH]; intros before; [done|].
  cbn [Py.partition]. destruct (String.prefix sep (String c s)) eqn:Hpre.
  - intros [= <- <-]. apply prefix_split in Hpre as [b Hb]. rewrite Hb.
    by rewrite drop_app.
  - destruct (Py.partition sep s) as [[b a]|]; [|done].
    intros [= <- <-]. cbn. f_equal. by apply IH.
Qed.

Lemma split_on_free sep s :
  Py.contains sep s = false → Py.split_on sep s = [s].
Proof.
  induction s as [|c s IH]; [done|]. cbn.
  destruct (Ascii.eqb sep c); [done|]. intros Hs. by rewrite (IH Hs).
Qed.

Lemma split_on_app sep a b :
  Py.contains sep a = false →
  Py.split_on sep (a +:+ String sep b) = a :: Py.split_on sep b.
Proof.
  induction a as [|c a IH]; cbn.
  - by rewrite Ascii.eqb_refl.
  - destruct (Ascii.eqb sep c); [done|]. intros Ha. by rewrite (IH Ha).
Qed.

Lemma split_on_join sep l :
  l ≠ [] → Forall (λ p, Py.contains sep p = false) l →
  Py.split_on sep (Py.join (String sep "") l) = l.
Proof.
  intros Hne Hl. induction Hl as [|p l Hp Hl IH]; [done|].
  destruct l as [|q l]; [by apply split_on_free|].
  change (Py.join (String sep "") (p :: q :: l))
    with (p +:+ String sep "" +:+ Py.join (String sep "") (q :: l)).
  change (p +:+ String sep "" +:+ Py.join (String sep "") (q :: l))
    with (p +:+ String sep (Py.join (String sep "") (q :: l))).
  rewrite split_on_app by done. f_equal. by apply IH.
Qed.

(** No part of a text cut at a character holds that character, and
    [strip] brings none in. *)
Lemma split_on_no_sep sep s p :
  p ∈ Py.split_on sep s → Py.contains sep p = false.
Proof.
  revert p. induction s as [|c s IH]; intros p; cbn.
  - by intros ->%list_elem_of_singleton.
  - destruct (Ascii.eqb sep c) eqn:Hc.
    + intros [->|Hin]%elem_of_cons; [done | by apply IH].
    + destruct (Py.split_on sep s) as [|hd tl].
      * intros ->%list_elem_of_singleton. cbn. by rewrite Hc.
      * intros [->|Hin]%elem_of_cons.
        -- cbn. rewrite Hc. apply IH. by left.
        -- apply IH. by right.
Qed.

Lemma lstrip_contains c s :
  Py.contains c s = false → Py.contains c (Py.lstrip s) = false.
Proof.
  induction s as [|d s IH]; [done|]. cbn [Py.lstrip].
  destruct (Py.isspace d); [|done]. cbn.
  destruct (Ascii.eqb c d); [done | apply IH].
Qed.

Lemma rstrip_contains c s :
  Py.contains c s = false → Py.contains c (Py.rstrip s) = false.
Proof.
  induction s as [|d s IH]; [done|]. cbn [Py.contains Py.rstrip].
  destruct (Ascii.eqb c d) eqn:Hd; [done|]. intros Hs. specialize (IH Hs).
  destruct (Py.rstrip s) as [|e r].
  - destruct (Py.isspace d); [done|]. cbn. by rewrite Hd.
  - cbn [Py.contains]. by rewrite Hd.
Qed.

Lemma strip_contains c s :
  Py.contains c s = false → Py.contains c (Py.strip s) = false.
Proof. intros Hs. by apply rstrip_contains, lstrip_contains. Qed.

(** ** Static routes: what the table holds *)

Section StaticRouteTable.
Context `{Ipaddress}.

Definition route_entry_ok (prefix : string) (route : Route) : Prop :=
  ip_network_ok prefix = true
  ∧ prefix ≠ "" ∧ nospace prefix ∧ Py.contains "@" prefix = false
  ∧ via route ≠ "" ∧ nospace (via route).

Lemma parse_pairs_table tokens result :
  Forall token tokens →
  (∀ prefix route, result !! prefix = Some route → route_entry_ok prefix route) →
  ∀ prefix route,
    (parse_pairs tokens result).1 !! prefix = Some route → route_entry_ok prefix route.
Proof.
  intros Htokens. revert result.
  induction Htokens as [|t tokens [_ Hns] _ IH]; intros result Hresult; [done|].
  destruct (token_kind t) as [Hs|[(r & n & Hs)|Hr]].
  - rewrite parse_pairs_skipped by done. by apply IH.
  - rewrite (parse_pairs_stored _ _ _ _ _ Hns Hs). apply IH.
    destruct Hs as (-> & Hr & Hrne & Hnne & Hok).
    apply nospace_app in Hns as [Hnr Hnn].
    apply (nospace_app "@" n) in Hnn as [_ Hnn].
    intros prefix route. destruct (decide (prefix = r)) as [->|Hne].
    + rewrite lookup_insert_eq. by intros [= <-].
    + rewrite lookup_insert_ne by done. apply Hresult.
  - by rewrite parse_pairs_rejected.
Qed.

Lemma split_from_all_space s : all_space s → Py.split_from "" s = [].
Proof.
  unfold all_space. induction s as [|c s IH]; [done|]. cbn.
  intros [Hc Hs]%andb_true_iff. rewrite Hc. by apply IH.
Qed.
End StaticRouteTable.

(** X23. Every prefix in the table of a static-routes field is a
    non-empty text without white space and without ["@"] that is accepted
    as a network, and its next hop is non-empty and without white space.  A
    missing field and a field of white space give the empty table. *)
Theorem parse_static_routes_table `{Ipaddress} (routes_str : option string) :
  (∀ prefix route,
      _parse_static_routes routes_str !! prefix = Some route →
      ip_network_ok prefix = true
      ∧ prefix ≠ "" ∧ nospace prefix ∧ Py.contains "@" prefix = false
      ∧ via route ≠ "" ∧ nospace (via route))
  ∧ (routes_str = None ∨ (∃ s, routes_str = Some s ∧ all_space s) →
     _parse_static_routes routes_str = ∅).
Proof.
  split.
  - destruct routes_str as [s|].
    2:{ intros prefix route Hl. cbn in Hl. by rewrite lookup_empty in Hl. }
    rewrite parse_static_routes_split. apply parse_pairs_table.
    + apply split_tokens.
    + intros prefix route. by rewrite lookup_empty.
  - intros [->|(s & -> & Hs)]; [done|].
    rewrite parse_static_routes_split. unfold Py.split.
    by rewrite split_from_all_space.
Qed.

(** ** The offsets of further core devices *)

(** X24. The second core device in name order has offset 2; every
    other device, also a third or later core device, has offset 1. *)
Theorem core_offset_of_any_device (roles : gmap string string)
    (core_devices : list string) (name : string) :
  create_fabric_core_devices roles = Ok core_devices →
  core_offset roles name
  = Ok (if decide (core_devices !! 1%nat = Some name) then 2%Z else 1%Z).
Proof.
  intros Hcores. unfold core_offset. rewrite Hcores. cbn [mbind result_bind].
  pose proof (sorted_strings_strict _ (core_role_devices_NoDup roles)) as Hsorted.
  unfold create_fabric_core_devices in Hcores. case_decide as Hlen; [done|].
  injection Hcores as <-.
  destruct (Py.sorted Py.lt (core_role_devices roles)) as [|c0 [|c1 others]];
    [simpl in Hlen; lia..|].
  assert (Hne : c0 ≠ c1).
  { intros ->. apply StronglySorted_inv in Hsorted as [_ Hc].
    apply Forall_cons in Hc as [Hc _].
    pose proof (below_irrefl _ string_compare_lawful c1) as Hirr.
    unfold below in Hirr. unfold Py.lt in Hc. congruence. }
  cbn. f_equal. destruct (decide (name = c1)) as [->|Hc1].
  - by rewrite lookup_insert_eq, decide_True.
  - rewrite lookup_insert_ne by done. rewrite decide_False by congruence.
    destruct (decide (name = c0)) as [->|Hc0].
    + by rewrite lookup_insert_eq.
    + by rewrite lookup_insert_ne, lookup_empty.
Qed.

(** ** Comment directives *)

Section DirectiveFacts.
Context `{Ipaddress}.

(** The table key of a prefix: a prefix that starts with [default], in
    any case, stands for the IPv4 default route. *)
Definition directive_key (prefix : string) : string :=
  if String.prefix "default" (Py.lower prefix) then "0.0.0.0/0" else prefix.

(** A directive stored in the table of its family: the IPv6 table when
    the key holds a colon, the IPv4 table otherwise. *)
Definition with_directive (prefix nh : string)
    (tables : gmap string Route * gmap string Route)
    : gmap string Route * gmap string Route :=
  if Py.contains ":" (directive_key prefix)
  then (tables.1, <[directive_key prefix := {| via := nh |}]> tables.2)
  else (<[directive_key prefix := {| via := nh |}]> tables.1, tables.2).

(** A part of a comment as the loop meets it, and a part at which the
    loop stops. *)
Definition directive_part (p : string) : Prop :=
  trimmed p ∧ Py.contains ";" p = false.

Definition rejected_directive (p : string) : Prop :=
  ∃ before after,
    Py.partition " via " p = Some (before, after)
    ∧ ip_network_ok (directive_key (Py.strip before)) = false.

Lemma directives_loop_skip p parts r4 r6 :
  Py.contains_str " via " p = false →
  directives_loop (p :: parts) r4 r6 = directives_loop parts r4 r6.
Proof. intros Hp. cbn [directives_loop]. by rewrite Hp. Qed.

Lemma directives_loop_cut p before after parts r4 r6 :
  Py.partition " via " p = Some (before, after) →
  directives_loop (p :: parts) r4 r6 =
    if ip_network_ok (directive_key (Py.strip before))
    then
      let tables := with_directive (Py.strip before) (Py.strip after) (r4, r6) in
      directives_loop parts tables.1 tables.2
    else (r4, r6, true).
Proof.
  intros Hcut. cbn [directives_loop]. unfold Py.contains_str, Py.split_str1.
  rewrite Hcut, bool_decide_eq_true_2 by (by eexists).
  cbn [fmap list_fmap]. unfold with_directive.
  fold (directive_key (Py.strip before)).
  destruct (Py.contains ":" (directive_key (Py.strip before)));
    by destruct (ip_network_ok (directive_key (Py.strip before))).
Qed.

Lemma directives_loop_app a b r4 r6 :
  directives_loop (a ++ b) r4 r6 =
    let r := directives_loop a r4 r6 in
    if r.2 then r else directives_loop b r.1.1 r.1.2.
Proof.
  revert r4 r6. induction a as [|p a IH]; intros r4 r6; [done|].
  cbn [app]. destruct (Py.partition " via " p) as [[before after]|] eqn:Hcut.
  - rewrite !(directives_loop_cut _ _ _ _ _ _ Hcut).
    destruct (ip_network_ok _); [apply IH | done].
  - assert (Hno : Py.contains_str " via " p = false).
    { unfold Py.contains_str. rewrite Hcut. apply bool_decide_eq_false.
      by intros [? ?]. }
    rewrite !directives_loop_skip by done. apply IH.
Qed.

Lemma directives_loop_no_reject parts r4 r6 :
  Forall (λ p, ¬ rejected_directive p) parts →
  (directives_loop parts r4 r6).2 = false.
Proof.
  intros Hparts. revert r4 r6. induction Hparts as [|p parts Hp _ IH]; intros r4 r6;
    [done|].
  destruct (Py.partition " via " p) as [[before after]|] eqn:Hcut.
  - rewrite (directives_loop_cut _ _ _ _ _ _ Hcut).
    destruct (ip_network_ok _) eqn:Hok; [apply IH|].
    destruct Hp. by exists before, after.
  - rewrite directives_loop_skip; [apply IH|].
    unfold Py.contains_str. rewrite Hcut. apply bool_decide_eq_false.
    by intros [? ?].
Qed.

Lemma join_nonempty sep l :
  l ≠ [] → Forall (λ p, p ≠ "") l → Py.join sep l ≠ "".
Proof.
  intros Hne Hl. destruct Hl as [|p l Hp Hl]; [done|].
  destruct l as [|q l]; [done|].
  cbn [Py.join]. by destruct p.
Qed.

Lemma parse_directives_join parts :
  Forall directive_part parts →
  _parse_network_comment_directives (Some (Py.join ";" parts))
  = (directives_loop parts ∅ ∅).1.
Proof.
  intros Hparts. unfold _parse_network_comment_directives.
  destruct (decide (parts = [])) as [->|Hne]; [done|].
  rewrite decide_False.
  2:{ apply join_nonempty; [done|].
      eapply Forall_impl; [done|]. by intros p [[? _] _]. }
  rewrite split_on_join; [|done|].
  2:{ eapply Forall_impl; [done|]. by intros p [_ ?]. }
  do 2 f_equal.
  induction Hparts as [|p parts [Hp _] _ IH]; [done|].
  cbn [fmap list_fmap]. rewrite (strip_trimmed _ Hp).
  rewrite filter_cons_True by (by destruct Hp).
  destruct (decide (parts = [])) as [->|Hne']; [done|]. by rewrite IH.
Qed.

(** The two halves of a trimmed part that holds the separator have
    something left after [strip]. *)
Lemma directive_halves p before after :
  trimmed p → Py.partition " via " p = Some (before, after) →
  Py.strip before ≠ "" ∧ trimmed (Py.strip after).
Proof.
  intros Hp Hcut%partition_Some. split.
  - destruct (trimmed_head p Hp) as (c & r & Hhead & Hc).
    destruct before as [|d before].
    { rewrite Hhead in Hcut. cbn in Hcut. injection Hcut as -> _. done. }
    rewrite Hhead in Hcut. cbn in Hcut. injection Hcut as <- _.
    unfold Py.strip. cbn [Py.lstrip]. rewrite Hc.
    destruct (rstrip_head c before Hc) as [r' ->]. done.
  - apply strip_is_trimmed. intros Hall%strip_all_space.
    destruct Hp as (_ & _ & Hfix).
    assert (Hlen : (String.length (Py.rstrip p) ≤ String.length before + 4)%nat).
    { rewrite Hcut.
      change (before +:+ " via " +:+ after)
        with (before +:+ " via" +:+ String " " after).
      rewrite <- string_app_assoc, rstrip_app_space.
      - etrans; [apply rstrip_length|]. rewrite string_length_app. cbn. lia.
      - unfold all_space in *. cbn [Py.string_forall]. by rewrite Hall. }
    rewrite Hfix, Hcut, !string_length_app in Hlen. cbn in Hlen. lia.
Qed.

(** What the loop keeps in its two tables. *)
Definition table_ok (colon : bool) (table : gmap string Route) : Prop :=
  ∀ key route, table !! key = Some route →
    Py.contains ":" key = colon ∧ ip_network_ok key = true ∧ key ≠ ""
    ∧ trimmed (via route).

Lemma table_ok_insert colon table key nh :
  table_ok colon table →
  Py.contains ":" key = colon → ip_network_ok key = true → key ≠ "" → trimmed nh →
  table_ok colon (<[key := {| via := nh |}]> table).
Proof.
  intros Htable ? ? ? ? key' route. destruct (decide (key' = key)) as [->|Hne].
  - rewrite lookup_insert_eq. by intros [= <-].
  - rewrite lookup_insert_ne by done. apply Htable.
Qed.

Lemma directive_key_nonempty prefix : prefix ≠ "" → directive_key prefix ≠ "".
Proof. intros Hp. unfold directive_key. by destruct (String.prefix _ _). Qed.

Lemma directives_loop_tables parts r4 r6 :
  Forall trimmed parts → table_ok false r4 → table_ok true r6 →
  table_ok false (directives_loop parts r4 r6).1.1
  ∧ table_ok true (directives_loop parts r4 r6).1.2.
Proof.
  intros Hparts. revert r4 r6.
  induction Hparts as [|p parts Hp _ IH]; intros r4 r6 H4 H6; [done|].
  destruct (Py.partition " via " p) as [[before after]|] eqn:Hcut.
  - rewrite (directives_loop_cut _ _ _ _ _ _ Hcut).
    destruct (directive_halves _ _ _ Hp Hcut) as [Hb Ha].
    destruct (ip_network_ok _) eqn:Hok; [|done].
    unfold with_directive.
    destruct (Py.contains ":" (directive_key (Py.strip before))) eqn:Hcolon;
      cbn [fst snd]; apply IH; try done;
      apply table_ok_insert; try done; by apply directive_key_nonempty.
  - rewrite directives_loop_skip; [by apply IH|].
    unfold Py.contains_str. rewrite Hcut. apply bool_decide_eq_false.
    by intros [? ?].
Qed.

(** After a part at which the loop stops nothing is read. *)
Lemma directives_loop_reject parts r4 r6 :
  Exists rejected_directive parts →
  (directives_loop parts r4 r6).2 = true.
Proof.
  intros Hparts. revert r4 r6.
  induction Hparts as [p parts (before & after & Hcut & Hbad)|p parts _ IH];
    intros r4 r6.
  - by rewrite (directives_loop_cut _ _ _ _ _ _ Hcut), Hbad.
  - destruct (Py.partition " via " p) as [[before after]|] eqn:Hcut.
    + rewrite (directives_loop_cut _ _ _ _ _ _ Hcut).
      destruct (ip_network_ok _); [apply IH | done].
    + rewrite directives_loop_skip; [apply IH|].
      unfold Py.contains_str. rewrite Hcut. apply bool_decide_eq_false.
      by intros [? ?].
Qed.

Lemma stripped_parts_trimmed (texts : list string) :
  Forall trimmed (filter (λ p, p ≠ "") (Py.strip <$> texts)).
Proof.
  apply Forall_forall. intros p [Hne Hin]%list_elem_of_filter.
  apply list_elem_of_fmap in Hin as (t & -> & _). by apply strip_is_trimmed.
Qed.

(** The parts of a comment: the texts between its semicolons, without the
    white space at their ends and without the empty ones. *)
Definition comment_parts (comment : string) : list string :=
  filter (λ p, p ≠ "") (Py.strip <$> Py.split_on ";" comment).

Lemma comment_parts_shape comment : Forall directive_part (comment_parts comment).
Proof.
  pose proof (stripped_parts_trimmed (Py.split_on ";" comment)) as Htrimmed.
  fold (comment_parts comment) in Htrimmed.
  apply Forall_forall. intros p Hp. rewrite Forall_forall in Htrimmed.
  split; [by apply Htrimmed|].
  apply list_elem_of_filter in Hp as [_ Hp].
  apply list_elem_of_fmap in Hp as (t & -> & Ht).
  by apply strip_contains, (split_on_no_sep _ comment).
Qed.

Lemma parse_directives_parts comment :
  _parse_network_comment_directives (Some comment)
  = (directives_loop (comment_parts comment) ∅ ∅).1.
Proof.
  unfold _parse_network_comment_directives. by case_decide as Hc; [subst|].
Qed.

Lemma parse_directives_tables comment :
  table_ok false (_parse_network_comment_directives comment).1
  ∧ table_ok true (_parse_network_comment_directives comment).2.
Proof.
  assert (Hempty : ∀ colon, table_ok colon ∅).
  { intros colon key route. by rewrite lookup_empty. }
  unfold _parse_network_comment_directives.
  destruct comment as [comment|]; [|done]. case_decide; [done|].
  apply directives_loop_tables; [apply stripped_parts_trimmed | done..].
Qed.
End DirectiveFacts.

(** X16. The two tables of the comment directives: every key of the
    first table has no colon and every key of the second has one; every key
    is a non-empty text accepted as a network, and every next hop is
    non-empty with no white space at its ends. *)
Theorem parse_network_comment_directives_tables `{Ipaddress}
    (comment : option string) (r4 r6 : gmap string Route) :
  _parse_network_comment_directives comment = (r4, r6) →
  (∀ prefix route, r4 !! prefix = Some route →
     Py.contains ":" prefix = false ∧ ip_network_ok prefix = true
     ∧ prefix ≠ "" ∧ via route ≠ "" ∧ Py.strip (via route) = via route)
  ∧ (∀ prefix route, r6 !! prefix = Some route →
     Py.contains ":" prefix = true ∧ ip_network_ok prefix = true
     ∧ prefix ≠ "" ∧ via route ≠ "" ∧ Py.strip (via route) = via route).
Proof.
  intros Hrun. destruct (parse_directives_tables comment) as [H4 H6].
  rewrite Hrun in H4, H6. cbn [fst snd] in H4, H6.
  split; intros prefix route Hlook.
  - destruct (H4 _ _ Hlook) as (? & ? & ? & Hvia). repeat (split; [done|]).
    split; [by destruct Hvia | by apply strip_trimmed].
  - destruct (H6 _ _ Hlook) as (? & ? & ? & Hvia). repeat (split; [done|]).
    split; [by destruct Hvia | by apply strip_trimmed].
Qed.

(** X17. The parts of a comment are the texts between its semicolons,
    without the white space at their ends and without the empty ones; the
    comment is read as its parts joined by semicolons are.  A part without
    [ via ] is passed over.  A part with it is cut at the first [ via ]
    into a prefix and a next hop, both without the white space at their
    ends; the key of the prefix is [0.0.0.0/0] when the prefix starts with
    [default], in any case, and the prefix itself otherwise.  When the key
    is accepted as a network the next hop is stored under it: in the second
    table when the key holds a colon, in the first table otherwise.  At a
    part whose key is not accepted the parsing stops and keeps what the
    parts before it gave; the parts after it are not read. *)
Theorem parse_network_comment_directives_steps `{Ipaddress}
    (comment : string) (pre post : list string) (p : string) :
  filter (λ q, q ≠ "") (Py.strip <$> Py.split_on ";" comment) = pre ++ p :: post →
  _parse_network_comment_directives (Some comment)
  = _parse_network_comment_directives (Some (Py.join ";" (pre ++ p :: post)))
  ∧ (Py.contains_str " via " p = false →
     _parse_network_comment_directives (Some comment)
     = _parse_network_comment_directives (Some (Py.join ";" (pre ++ post))))
  ∧ (Exists rejected_directive pre →
     _parse_network_comment_directives (Some comment)
     = _parse_network_comment_directives (Some (Py.join ";" pre)))
  ∧ ∀ before after,
      Py.partition " via " p = Some (before, after) →
      (ip_network_ok (directive_key (Py.strip before)) = true →
       Forall (λ p', ¬ rejected_directive p') pre →
       _parse_network_comment_directives (Some (Py.join ";" (pre ++ [p])))
       = with_directive (Py.strip before) (Py.strip after)
           (_parse_network_comment_directives (Some (Py.join ";" pre))))
      ∧ (ip_network_ok (directive_key (Py.strip before)) = false →
         _parse_network_comment_directives (Some comment)
         = _parse_network_comment_directives (Some (Py.join ";" pre))).
Proof.
  intros Hcut.
  pose proof (comment_parts_shape comment) as Hparts.
  pose proof (parse_directives_parts comment) as Hrun.
  unfold comment_parts in Hparts, Hrun. rewrite Hcut in Hparts, Hrun.
  pose proof Hparts as [Hpre Hrest]%Forall_app.
  pose proof Hrest as [Hp Hpost]%Forall_cons.
  rewrite Hrun. clear Hrun Hcut.
  split; [by rewrite parse_directives_join|]. split; [|split].
  - intros Hno. rewrite !parse_directives_join by (by try apply Forall_app).
    rewrite !directives_loop_app. cbn zeta.
    destruct (directives_loop pre ∅ ∅) as [[r4 r6] stop]. cbn [fst snd].
    destruct stop; [done|]. by rewrite directives_loop_skip.
  - intros Hrej. rewrite parse_directives_join by done.
    rewrite directives_loop_app. cbn zeta.
    by rewrite (directives_loop_reject pre).
  - intros before after Hpart. split.
    + intros Hok Hrej.
      rewrite !parse_directives_join
        by (by try (apply Forall_app; split; [|by constructor])).
      rewrite directives_loop_app. cbn zeta.
      rewrite (directives_loop_no_reject pre) by done.
      rewrite (directives_loop_cut _ _ _ _ _ _ Hpart), Hok. cbn zeta.
      destruct (directives_loop pre ∅ ∅) as [[r4 r6] stop]. cbn [fst snd directives_loop].
      by destruct (with_directive _ _ _).
    + intros Hbad. rewrite !parse_directives_join by (by try apply Forall_app).
      rewrite directives_loop_app. cbn zeta.
      destruct (directives_loop pre ∅ ∅) as [[r4 r6] stop]. cbn [fst snd].
      destruct stop; [done|].
      by rewrite (directives_loop_cut _ _ _ _ _ _ Hpart), Hbad.
Qed.

(** ** Network planning *)

Section NetworkFacts.
Context `{Ipaddress} `{Numbers}.

Definition row_vrf (net : gmap string string) : string :=
  Py.strip (default "" (net !! "VRF")).

(** A gateway cell that can be read: it is empty or an interface text. *)
Definition readable (gw : string) : Prop :=
  gw = "" ∨ is_Some (ip_interface gw).

(** The routes a row gives to its VRF: those of the comment before those
    of the static-routes column. *)
Definition row_routes4 (net : gmap string string) : gmap string Route :=
  (_parse_network_comment_directives (net !! "COMMENT")).1
  ∪ _parse_static_routes (net !! "STATIC_ROUTESv4").

Definition row_routes6 (net : gmap string string) : gmap string Route :=
  (_parse_network_comment_directives (net !! "COMMENT")).2
  ∪ _parse_static_routes (net !! "STATIC_ROUTESv6").

(** The routes a row adds to the table of a VRF. *)
Definition add_row_routes (vrf : string) (routes : gmap string Route)
    (extra : gmap string (gmap string Route)) : gmap string (gmap string Route) :=
  if decide (vrf = "" ∨ routes = ∅) then extra else update_routes vrf routes extra.

(** The entry of a row in the site settings, given the texts of its two
    gateway cells. *)
Definition site_network_of (net : gmap string string)
    (texts4 texts6 : string * string) : SiteNetwork :=
  {| vlan_id := vlan_id_of (net !! "VLAN_ID");
     subnet := texts4.1; subnet6 := texts6.1;
     gateway := if decide (texts4.2 = "") then None else Some texts4.2;
     gateway6 := if decide (texts6.2 = "") then None else Some texts6.2 |}.

(** The instance of a VRF after a row of that VRF. *)
Definition vrf_after_row (name : string) (texts4 texts6 : string * string)
    (old : option VrfInstance) : VrfInstance :=
  let inst :=
    default {| networks := []; v4_routing := false; v6_routing := false;
               extra_routes := None; extra_routes6 := None |} old in
  {| networks := networks inst ++ [name];
     v4_routing := if decide (texts4.2 = "") then v4_routing inst else true;
     v6_routing := if decide (texts6.2 = "") then v6_routing inst else true;
     extra_routes := extra_routes inst;
     extra_routes6 := extra_routes6 inst |}.

Lemma parse_static_routes_falsy (cell : option string) :
  truthy cell = false → _parse_static_routes cell = ∅.
Proof.
  destruct cell as [text|]; [|done]. cbn. intros Htext%bool_decide_eq_false.
  apply dec_stable in Htext. subst text. done.
Qed.

Lemma update_routes_twice vrf r1 r2 extra :
  update_routes vrf r1 (update_routes vrf r2 extra)
  = update_routes vrf (r1 ∪ r2) extra.
Proof.
  unfold update_routes. rewrite lookup_insert_eq, insert_insert_eq. cbn.
  by rewrite (assoc_L (∪)).
Qed.

Lemma gateway_texts_ok gw texts :
  gateway_texts gw = Ok texts ↔
  (gw = "" ∧ texts = ("", ""))
  ∨ (gw ≠ "" ∧ ∃ i, ip_interface gw = Some i
       ∧ texts = (str_scoped (network_address i) +:+ "/" +:+ pretty (prefixlen i),
                  str_address (ip i))).
Proof.
  unfold gateway_texts, parse_interface. case_decide as Hgw.
  - split; [intros [= <-]; by left|]. intros [[_ ->]|[? _]]; done.
  - destruct (ip_interface gw) as [i|]; cbn.
    + split; [intros [= <-]; right; split; [done|]; by exists i|].
      intros [[? _]|[_ (i' & [= <-] & ->)]]; done.
    + split; [done|]. intros [[? _]|[_ (i' & ? & _)]]; done.
Qed.

Lemma gateway_texts_raise gw e :
  gateway_texts gw = Raise e ↔
  gw ≠ "" ∧ ip_interface gw = None ∧ e = InvalidAddressError gw.
Proof.
  unfold gateway_texts, parse_interface. case_decide as Hgw.
  - split; [done|]. by intros [? _].
  - destruct (ip_interface gw) as [i|]; cbn.
    + split; [done|]. by intros (_ & ? & _).
    + split; [by intros [= <-] | by intros (_ & _ & ->)].
Qed.

Lemma gateway_texts_readable gw :
  readable gw ↔ ∃ texts, gateway_texts gw = Ok texts.
Proof.
  unfold readable. split.
  - intros [->|[i Hi]]; [by exists ("", "")|].
    destruct (decide (gw = "")) as [->|Hgw]; [by exists ("", "")|].
    eexists. apply gateway_texts_ok. right. split; [done|]. by exists i.
  - intros [texts [[-> _]|[_ (i & Hi & _)]]%gateway_texts_ok]; [by left|].
    right. by exists i.
Qed.

(** The state after a named row whose gateway cells gave [texts4] and
    [texts6]. *)
Definition row_state (net : gmap string string) (st : Planned)
    (texts4 texts6 : string * string) : Planned :=
  {| site_networks :=
       <[row_name net := site_network_of net texts4 texts6]> (site_networks st);
     vrf_instances :=
       if decide (row_vrf net = "") then vrf_instances st
       else <[row_vrf net :=
                vrf_after_row (row_name net) texts4 texts6
                  (vrf_instances st !! row_vrf net)]> (vrf_instances st);
     network_name_list := network_name_list st ++ [row_name net];
     extra_v4 := add_row_routes (row_vrf net) (row_routes4 net) (extra_v4 st);
     extra_v6 := add_row_routes (row_vrf net) (row_routes6 net) (extra_v6 st) |}.

Lemma add_routes_twice vrf (r routes : gmap string Route) cell extra :
  vrf ≠ "" → routes = _parse_static_routes cell →
  (let extra' :=
     if truthy cell then
       if decide (routes = ∅) then extra else update_routes vrf routes extra
     else extra in
   if decide (r = ∅) then extra' else update_routes vrf r extra')
  = add_row_routes vrf (r ∪ routes) extra.
Proof.
  intros Hvrf ->. unfold add_row_routes. cbn zeta.
  destruct (truthy cell) eqn:Ht.
  - destruct (decide (_parse_static_routes cell = ∅)) as [->|Hs];
      destruct (decide (r = ∅)) as [->|Hr];
      rewrite ?(left_id_L ∅ (∪)), ?(right_id_L ∅ (∪)).
    + by rewrite decide_True by (by right).
    + rewrite decide_False; [done|]. by intros [?|?].
    + rewrite decide_False; [done|]. by intros [?|?].
    + rewrite update_routes_twice. rewrite decide_False; [done|].
      intros [?|Hu]; [done|]. apply map_positive_l in Hu. done.
  - rewrite (parse_static_routes_falsy _ Ht), (right_id_L ∅ (∪)).
    destruct (decide (r = ∅)) as [->|Hr].
    + by rewrite decide_True by (by right).
    + rewrite decide_False; [done|]. by intros [?|?].
Qed.

Lemma add_row_routes_no_vrf routes extra : add_row_routes "" routes extra = extra.
Proof. unfold add_row_routes. by rewrite decide_True by (by left). Qed.

Lemma networks_row_eq net st :
  networks_row net st =
    if decide (row_name net = "") then Ok st
    else
      texts4 ← gateway_texts (row_gateway net);
      texts6 ← gateway_texts (row_gateway6 net);
      Ok (row_state net st texts4 texts6).
Proof.
  unfold networks_row.
  fold (row_name net) (row_vrf net) (row_gateway net) (row_gateway6 net).
  case_decide as Hname; [done|].
  destruct (gateway_texts (row_gateway net)) as [[s4 g4]|e4]; [|done].
  cbn [mbind result_bind].
  destruct (gateway_texts (row_gateway6 net)) as [[s6 g6]|e6]; [|done].
  cbn [mbind result_bind]. unfold row_state, site_network_of. cbn [fst snd].
  case_decide as Hvrf.
  { by rewrite Hvrf, !add_row_routes_no_vrf. }
  unfold row_routes4, row_routes6.
  destruct (_parse_network_comment_directives (net !! "COMMENT")) as [r4 r6].
  cbn [fst snd mret result_ret]. f_equal. f_equal.
  - by apply add_routes_twice.
  - by apply add_routes_twice.
Qed.

(** One row, when it goes through. *)
Lemma networks_row_ok net st st' :
  networks_row net st = Ok st' ↔
  (row_name net = "" ∧ st' = st)
  ∨ (row_name net ≠ ""
     ∧ ∃ texts4 texts6,
         gateway_texts (row_gateway net) = Ok texts4
         ∧ gateway_texts (row_gateway6 net) = Ok texts6
         ∧ st' = row_state net st texts4 texts6).
Proof.
  rewrite networks_row_eq. case_decide as Hname.
  { split; [intros [= <-]; by left|]. intros [[_ ->]|[? _]]; done. }
  destruct (gateway_texts (row_gateway net)) as [texts4|e4].
  2:{ split; [done|]. intros [[? _]|[_ (? & ? & ? & _)]]; done. }
  cbn [mbind result_bind].
  destruct (gateway_texts (row_gateway6 net)) as [texts6|e6].
  2:{ split; [done|]. intros [[? _]|[_ (? & ? & _ & ? & _)]]; done. }
  cbn [mbind result_bind]. split.
  - intros [= <-]. right. split; [done|]. by exists texts4, texts6.
  - by intros [[? _]|[_ (t4 & t6 & [= <-] & [= <-] & ->)]].
Qed.

Lemma networks_row_raise net st e :
  networks_row net st = Raise e ↔
  row_name net ≠ ""
  ∧ ((¬ readable (row_gateway net) ∧ e = InvalidAddressError (row_gateway net))
     ∨ (readable (row_gateway net) ∧ ¬ readable (row_gateway6 net)
        ∧ e = InvalidAddressError (row_gateway6 net))).
Proof.
  rewrite networks_row_eq. case_decide as Hname; [split; [done | by intros [? _]]|].
  destruct (gateway_texts (row_gateway net)) as [texts4|e4] eqn:H4.
  - assert (Hr4 : readable (row_gateway net)).
    { apply gateway_texts_readable. by exists texts4. }
    cbn [mbind result_bind].
    destruct (gateway_texts (row_gateway6 net)) as [texts6|e6] eqn:H6.
    + assert (Hr6 : readable (row_gateway6 net)).
      { apply gateway_texts_readable. by exists texts6. }
      cbn [mbind result_bind]. split; [done|].
      intros [_ [[? _]|(_ & ? & _)]]; done.
    + cbn [mbind result_bind]. apply gateway_texts_raise in H6 as (Hg & Hno & ->).
      split.
      * intros [= <-]. split; [done|]. right. split; [done|]. split; [|done].
        intros [?|[? ?]]; congruence.
      * intros [_ [[? _]|(_ & _ & ->)]]; done.
  - cbn [mbind result_bind]. apply gateway_texts_raise in H4 as (Hg & Hno & ->).
    assert (Hr4 : ¬ readable (row_gateway net)).
    { intros [?|[? ?]]; congruence. }
    split.
    + intros [= <-]. split; [done|]. by left.
    + intros [_ [[_ ->]|(? & _)]]; done.
Qed.
(** A named row whose two gateway cells can be read. *)
Definition row_readable (net : gmap string string) : Prop :=
  row_name net ≠ "" → readable (row_gateway net) ∧ readable (row_gateway6 net).

Lemma networks_row_total net st :
  row_readable net → ∃ st', networks_row net st = Ok st'.
Proof.
  intros Hread. destruct (decide (row_name net = "")) as [Hname|Hname].
  - exists st. apply networks_row_ok. by left.
  - destruct (Hread Hname) as [[t4 H4]%gateway_texts_readable
                                 [t6 H6]%gateway_texts_readable].
    eexists. apply networks_row_ok. right. split; [done|]. by exists t4, t6.
Qed.

Lemma networks_row_readable net st st' :
  networks_row net st = Ok st' → row_readable net.
Proof.
  intros [[Hname _]|(_ & t4 & t6 & H4 & H6 & _)]%networks_row_ok Hname'; [done|].
  split; apply gateway_texts_readable; by eexists.
Qed.

Lemma networks_loop_total rows st :
  Forall row_readable rows → ∃ st', networks_loop rows st = Ok st'.
Proof.
  intros Hrows. revert st. induction Hrows as [|net rows Hnet _ IH]; intros st.
  - by exists st.
  - cbn [networks_loop]. destruct (networks_row_total net st Hnet) as [st1 ->].
    cbn [mbind result_bind]. apply IH.
Qed.

Lemma networks_loop_readable rows st st' :
  networks_loop rows st = Ok st' → Forall row_readable rows.
Proof.
  revert st. induction rows as [|net rows IH]; intros st; [constructor|].
  cbn [networks_loop].
  destruct (networks_row net st) as [st1|e] eqn:Hrow; [|done].
  cbn [mbind result_bind]. intros Hrest. constructor.
  - by eapply networks_row_readable.
  - by eapply IH.
Qed.

Lemma networks_loop_raise rows st e :
  networks_loop rows st = Raise e →
  ∃ pre net post,
    rows = pre ++ net :: post ∧ Forall row_readable pre ∧ row_name net ≠ ""
    ∧ ((¬ readable (row_gateway net) ∧ e = InvalidAddressError (row_gateway net))
       ∨ (readable (row_gateway net) ∧ ¬ readable (row_gateway6 net)
          ∧ e = InvalidAddressError (row_gateway6 net))).
Proof.
  revert st. induction rows as [|net rows IH]; intros st; [done|].
  cbn [networks_loop].
  destruct (networks_row net st) as [st1|e1] eqn:Hrow; cbn [mbind result_bind].
  - intros (pre & net' & post & -> & Hpre & Hrest)%IH.
    exists (net :: pre), net', post. split; [done|]. split; [|done].
    constructor; [|done]. by eapply networks_row_readable.
  - intros [= ->]. apply networks_row_raise in Hrow as [Hname Hwhy].
    exists [], net, rows. split; [done|]. split; [constructor | done].
Qed.

Lemma row_names_cons net rows :
  row_names (net :: rows) =
    if decide (row_name net = "") then row_names rows
    else row_name net :: row_names rows.
Proof.
  unfold row_names. cbn [fmap list_fmap]. rewrite filter_cons.
  by destruct (decide (row_name net ≠ "")); case_decide.
Qed.

Lemma networks_loop_names rows st st' :
  networks_loop rows st = Ok st' →
  network_name_list st' = network_name_list st ++ row_names rows.
Proof.
  revert st. induction rows as [|net rows IH]; intros st.
  - intros [= <-]. symmetry. apply app_nil_r.
  - cbn [networks_loop].
    destruct (networks_row net st) as [st1|e] eqn:Hrow; [|done].
    cbn [mbind result_bind]. intros ->%IH. rewrite row_names_cons.
    apply networks_row_ok in Hrow as [[Hname ->]|(Hname & t4 & t6 & _ & _ & ->)].
    + by rewrite decide_True.
    + rewrite decide_False by done. cbn. by rewrite <- (assoc_L (++)).
Qed.

(** The last of a list to which an element is added in front. *)
Lemma last_cons_default {A} (x : A) (l : list A) :
  last (x :: l) = match last l with Some y => Some y | None => Some x end.
Proof.
  destruct l as [|y l]; [done|]. rewrite last_cons. by destruct (last (y :: l)).
Qed.

(** The site settings hold, for each name, what the last row of that name
    gave. *)
Lemma networks_loop_sites rows st st' name :
  networks_loop rows st = Ok st' →
  match last (filter (λ net, row_name net = name) rows) with
  | Some net =>
      name ≠ "" →
      ∃ texts4 texts6,
        gateway_texts (row_gateway net) = Ok texts4
        ∧ gateway_texts (row_gateway6 net) = Ok texts6
        ∧ site_networks st' !! name = Some (site_network_of net texts4 texts6)
  | None => site_networks st' !! name = site_networks st !! name
  end.
Proof.
  revert st. induction rows as [|net rows IH]; intros st.
  - by intros [= <-].
  - cbn [networks_loop].
    destruct (networks_row net st) as [st1|e] eqn:Hrow; [|done].
    cbn [mbind result_bind]. intros Hrest. specialize (IH _ Hrest).
    rewrite filter_cons. case_decide as Hnet.
    + rewrite last_cons_default.
      destruct (last (filter _ rows)) as [net'|]; [done|].
      intros Hname. rewrite IH.
      apply networks_row_ok in Hrow as [[? _]|(_ & t4 & t6 & H4 & H6 & ->)];
        [congruence|].
      exists t4, t6. split; [done|]. split; [done|]. cbn.
      by rewrite Hnet, lookup_insert_eq.
    + destruct (last (filter _ rows)) as [net'|]; [done|]. rewrite IH.
      apply networks_row_ok in Hrow as [[_ ->]|(_ & t4 & t6 & _ & _ & ->)]; [done|].
      cbn. by apply lookup_insert_ne.
Qed.

Lemma networks_loop_unnamed rows st st' :
  networks_loop rows st = Ok st' →
  site_networks st' !! "" = site_networks st !! "".
Proof.
  revert st. induction rows as [|net rows IH]; intros st.
  - by intros [= <-].
  - cbn [networks_loop].
    destruct (networks_row net st) as [st1|e] eqn:Hrow; [|done].
    cbn [mbind result_bind]. intros ->%IH.
    apply networks_row_ok in Hrow as [[_ ->]|(Hname & t4 & t6 & _ & _ & ->)]; [done|].
    cbn. by apply lookup_insert_ne.
Qed.
(** A named row of a VRF. *)
Definition in_vrf (vrf : string) (net : gmap string string) : Prop :=
  row_name net ≠ "" ∧ row_vrf net = vrf.

#[local] Instance in_vrf_dec vrf net : Decision (in_vrf vrf net).
Proof. unfold in_vrf. apply _. Defined.

(** The text [str(i.ip)] for a gateway cell; empty for a falsy cell. *)
Definition gateway_text (gw : string) : string :=
  match gateway_texts gw with
  | Ok texts => texts.2
  | Raise _ => ""
  end.

(** The instance of a VRF after its rows, in the order of the sheet. *)
Definition vrf_fold (rows : list (gmap string string)) (old : option VrfInstance)
    : option VrfInstance :=
  foldl (λ acc net,
           Some (vrf_after_row (row_name net)
                   ("", gateway_text (row_gateway net))
                   ("", gateway_text (row_gateway6 net)) acc))
        old rows.

(** The routes of a VRF after its rows: a later row goes before an earlier
    one. *)
Definition routes_fold (row_routes : gmap string string → gmap string Route)
    (rows : list (gmap string string)) (old : gmap string Route)
    : gmap string Route :=
  foldl (λ acc net, row_routes net ∪ acc) old rows.

(** A table is kept for a VRF only when it holds a route. *)
Definition nonempty_map (m : gmap string Route) : option (gmap string Route) :=
  if decide (m = ∅) then None else Some m.

Lemma networks_loop_vrf rows st st' vrf :
  vrf ≠ "" → networks_loop rows st = Ok st' →
  vrf_instances st' !! vrf
  = vrf_fold (filter (in_vrf vrf) rows) (vrf_instances st !! vrf).
Proof.
  intros Hvrf. revert st. induction rows as [|net rows IH]; intros st.
  - by intros [= <-].
  - cbn [networks_loop].
    destruct (networks_row net st) as [st1|e] eqn:Hrow; [|done].
    cbn [mbind result_bind]. intros ->%IH. rewrite filter_cons.
    apply networks_row_ok in Hrow as [[Hname ->]|(Hname & t4 & t6 & H4 & H6 & ->)].
    + rewrite decide_False; [done|]. by intros [? _].
    + unfold row_state. cbn [vrf_instances].
      destruct (decide (in_vrf vrf net)) as [[_ Hin]|Hout].
      * rewrite Hin, decide_False, lookup_insert_eq by done.
        cbn [vrf_fold foldl]. unfold gateway_text. rewrite H4, H6. done.
      * case_decide as Hnone; [done|]. rewrite lookup_insert_ne; [done|].
        intros Heq. apply Hout. by split.
Qed.

Lemma add_row_routes_lookup vrf routes extra m0 :
  vrf ≠ "" → extra !! vrf = nonempty_map m0 →
  add_row_routes vrf routes extra !! vrf = nonempty_map (routes ∪ m0).
Proof.
  intros Hvrf Hold. unfold add_row_routes. case_decide as Hnone.
  - destruct Hnone as [?| ->]; [done|]. by rewrite (left_id_L ∅ (∪)).
  - unfold update_routes. rewrite lookup_insert_eq, Hold.
    assert (default ∅ (nonempty_map m0) = m0) as ->.
    { unfold nonempty_map. by case_decide. }
    unfold nonempty_map. rewrite decide_False; [done|].
    intros Hu%map_positive_l. apply Hnone. by right.
Qed.

Lemma add_row_routes_other vrf vrf' routes extra :
  vrf' ≠ vrf → add_row_routes vrf' routes extra !! vrf = extra !! vrf.
Proof.
  intros Hne. unfold add_row_routes. case_decide; [done|].
  by apply lookup_insert_ne.
Qed.

Lemma networks_loop_routes4 rows st st' vrf m0 :
  vrf ≠ "" → extra_v4 st !! vrf = nonempty_map m0 →
  networks_loop rows st = Ok st' →
  extra_v4 st' !! vrf
  = nonempty_map (routes_fold row_routes4 (filter (in_vrf vrf) rows) m0).
Proof.
  intros Hvrf. revert st m0. induction rows as [|net rows IH]; intros st m0 Hold.
  - by intros [= <-].
  - cbn [networks_loop].
    destruct (networks_row net st) as [st1|e] eqn:Hrow; [|done].
    cbn [mbind result_bind]. rewrite filter_cons.
    apply networks_row_ok in Hrow as [[Hname ->]|(Hname & t4 & t6 & H4 & H6 & ->)].
    + rewrite decide_False by (by intros [? _]). by apply IH.
    + destruct (decide (in_vrf vrf net)) as [[_ Hin]|Hout].
      * cbn [routes_fold foldl]. apply IH. unfold row_state. cbn [extra_v4]. rewrite Hin.
        by apply add_row_routes_lookup.
      * apply IH. unfold row_state. cbn [extra_v4]. rewrite add_row_routes_other; [done|].
        intros Heq. apply Hout. by split.
Qed.

Lemma networks_loop_routes6 rows st st' vrf m0 :
  vrf ≠ "" → extra_v6 st !! vrf = nonempty_map m0 →
  networks_loop rows st = Ok st' →
  extra_v6 st' !! vrf
  = nonempty_map (routes_fold row_routes6 (filter (in_vrf vrf) rows) m0).
Proof.
  intros Hvrf. revert st m0. induction rows as [|net rows IH]; intros st m0 Hold.
  - by intros [= <-].
  - cbn [networks_loop].
    destruct (networks_row net st) as [st1|e] eqn:Hrow; [|done].
    cbn [mbind result_bind]. rewrite filter_cons.
    apply networks_row_ok in Hrow as [[Hname ->]|(Hname & t4 & t6 & H4 & H6 & ->)].
    + rewrite decide_False by (by intros [? _]). by apply IH.
    + destruct (decide (in_vrf vrf net)) as [[_ Hin]|Hout].
      * cbn [routes_fold foldl]. apply IH. unfold row_state. cbn [extra_v6]. rewrite Hin.
        by apply add_row_routes_lookup.
      * apply IH. unfold row_state. cbn [extra_v6]. rewrite add_row_routes_other; [done|].
        intros Heq. apply Hout. by split.
Qed.

(** No instance and no table is kept under the empty VRF name. *)
Lemma networks_loop_no_vrf rows st st' :
  networks_loop rows st = Ok st' →
  vrf_instances st' !! "" = vrf_instances st !! "".
Proof.
  revert st. induction rows as [|net rows IH]; intros st.
  - by intros [= <-].
  - cbn [networks_loop].
    destruct (networks_row net st) as [st1|e] eqn:Hrow; [|done].
    cbn [mbind result_bind]. intros ->%IH.
    apply networks_row_ok in Hrow as [[_ ->]|(Hname & t4 & t6 & _ & _ & ->)]; [done|].
    cbn. case_decide; [done|]. by apply lookup_insert_ne.
Qed.

(** A gateway cell that yields a gateway text. *)
Definition has_gateway (gw : string) : Prop :=
  gw ≠ "" ∧ ∃ i, ip_interface gw = Some i ∧ str_address (ip i) ≠ "".

Lemma gateway_text_has_gateway gw : gateway_text gw ≠ "" ↔ has_gateway gw.
Proof.
  unfold gateway_text, has_gateway.
  destruct (gateway_texts gw) as [texts|e] eqn:Htexts.
  - apply gateway_texts_ok in Htexts as [[-> ->]|(Hgw & i & Hi & ->)]; cbn.
    + split; [done | by intros [? _]].
    + split; [intros ?; split; [done|]; by exists i|].
      intros (_ & i' & Hi' & ?). congruence.
  - apply gateway_texts_raise in Htexts as (Hgw & Hno & _).
    split; [done|]. intros (_ & i & Hi & _). congruence.
Qed.

(** What the fold leaves in an instance. *)
Lemma vrf_fold_spec rows inst0 :
  ∃ inst,
    vrf_fold rows (Some inst0) = Some inst
    ∧ networks inst = networks inst0 ++ (row_name <$> rows)
    ∧ (v4_routing inst = true ↔
       v4_routing inst0 = true ∨ Exists (λ net, has_gateway (row_gateway net)) rows)
    ∧ (v6_routing inst = true ↔
       v6_routing inst0 = true ∨ Exists (λ net, has_gateway (row_gateway6 net)) rows)
    ∧ extra_routes inst = extra_routes inst0
    ∧ extra_routes6 inst = extra_routes6 inst0.
Proof.
  revert inst0. induction rows as [|net rows IH]; intros inst0.
  - exists inst0. split; [done|]. split; [symmetry; apply app_nil_r|].
    rewrite !Exists_nil. tauto.
  - cbn [vrf_fold foldl].
    destruct (IH (vrf_after_row (row_name net) ("", gateway_text (row_gateway net))
                    ("", gateway_text (row_gateway6 net)) (Some inst0)))
      as (inst & Hfold & Hnets & H4 & H6 & Hr4 & Hr6).
    exists inst. split; [done|]. split; [|split; [|split; [|done]]].
    + rewrite Hnets. cbn. by rewrite <- (assoc_L (++)).
    + rewrite H4, Exists_cons. cbn. rewrite <- gateway_text_has_gateway.
      case_decide as Ht; [|tauto]. tauto.
    + rewrite H6, Exists_cons. cbn. rewrite <- gateway_text_has_gateway.
      case_decide as Ht; [|tauto]. tauto.
Qed.

Lemma vrf_fold_new rows :
  match vrf_fold rows None with
  | None => rows = []
  | Some inst =>
      rows ≠ []
      ∧ networks inst = row_name <$> rows
      ∧ (v4_routing inst = true ↔ Exists (λ net, has_gateway (row_gateway net)) rows)
      ∧ (v6_routing inst = true ↔ Exists (λ net, has_gateway (row_gateway6 net)) rows)
      ∧ extra_routes inst = None ∧ extra_routes6 inst = None
  end.
Proof.
  destruct rows as [|net rows]; [done|]. cbn [vrf_fold foldl].
  destruct (vrf_fold_spec rows
              (vrf_after_row (row_name net) ("", gateway_text (row_gateway net))
                 ("", gateway_text (row_gateway6 net)) None))
    as (inst & Hfold & Hnets & H4 & H6 & Hr4 & Hr6).
  unfold vrf_fold in Hfold. rewrite Hfold. split; [done|].
  split; [by rewrite Hnets|]. split; [|split; [|done]].
  - rewrite H4, Exists_cons. cbn. rewrite <- gateway_text_has_gateway.
    case_decide as Ht; [|tauto]. split; [intros [?|?]; [done | by right] | ].
    intros [?|?]; [done | by right].
  - rewrite H6, Exists_cons. cbn. rewrite <- gateway_text_has_gateway.
    case_decide as Ht; [|tauto]. split; [intros [?|?]; [done | by right] | ].
    intros [?|?]; [done | by right].
Qed.

(** The whole run, in terms of the loop. *)
Lemma parse_networks_ok rows sn vi names rows' :
  _parse_networks rows = Ok (sn, vi, names, rows') ↔
  ∃ st,
    networks_loop rows
      {| site_networks := ∅; vrf_instances := ∅; network_name_list := [];
         extra_v4 := ∅; extra_v6 := ∅ |} = Ok st
    ∧ sn = site_networks st
    ∧ vi = map_imap (λ vrf inst,
                       Some (attach_routes (extra_v4 st) (extra_v6 st) vrf inst))
                    (vrf_instances st)
    ∧ names = network_name_list st ∧ rows' = rows.
Proof.
  unfold _parse_networks. destruct (networks_loop rows _) as [st|e]; cbn.
  - split.
    + intros [= <- <- <- <-]. by exists st.
    + by intros (st' & [= <-] & -> & -> & -> & ->).
  - split; [done|]. by intros (st' & ? & _).
Qed.

Lemma row_names_elem rows name :
  name ∈ row_names rows ↔
  name ≠ "" ∧ filter (λ net, row_name net = name) rows ≠ [].
Proof.
  unfold row_names. rewrite list_elem_of_filter, list_elem_of_fmap. split.
  - intros [Hname (net & -> & Hin)]. split; [done|]. intros Hnil.
    assert (net ∈ filter (λ net', row_name net' = row_name net) rows) as Hf.
    { by apply list_elem_of_filter. }
    rewrite Hnil in Hf. by apply elem_of_nil in Hf.
  - intros [Hname Hne]. split; [done|].
    destruct (filter _ rows) as [|net l] eqn:Hf; [done|].
    assert (net ∈ filter (λ net', row_name net' = name) rows) as Hin.
    { rewrite Hf. by left. }
    apply list_elem_of_filter in Hin as [<- Hin]. by exists net.
Qed.
End NetworkFacts.

(** X18. The networks are planned exactly when, in every named row,
    each gateway cell is empty or an interface text.  A failure is the
    address error of the first named row with a cell that is neither, the
    IPv4 cell before the IPv6 cell. *)
Theorem parse_networks_returns `{Ipaddress} `{Numbers}
    (rows : list (gmap string string)) :
  ((∃ r, _parse_networks rows = Ok r) ↔
   ∀ net, net ∈ rows → row_name net ≠ "" →
     readable (row_gateway net) ∧ readable (row_gateway6 net))
  ∧ ∀ e, _parse_networks rows = Raise e →
      ∃ pre net post,
        rows = pre ++ net :: post ∧ row_name net ≠ ""
        ∧ (∀ net', net' ∈ pre → row_name net' ≠ "" →
             readable (row_gateway net') ∧ readable (row_gateway6 net'))
        ∧ ((¬ readable (row_gateway net) ∧ e = InvalidAddressError (row_gateway net))
           ∨ (readable (row_gateway net) ∧ ¬ readable (row_gateway6 net)
              ∧ e = InvalidAddressError (row_gateway6 net))).
Proof.
  split; [split|].
  - intros [[[[sn vi] names] rows'] (st & Hloop & _)%parse_networks_ok].
    apply networks_loop_readable in Hloop. rewrite Forall_forall in Hloop.
    intros net Hin. by apply Hloop.
  - intros Hrows. unfold _parse_networks.
    edestruct (networks_loop_total rows) as [st ->]; [|by eexists].
    apply Forall_forall. intros net Hin Hname. by apply Hrows.
  - intros e. unfold _parse_networks.
    destruct (networks_loop rows _) as [st|e'] eqn:Hloop; [done|].
    cbn. intros [= ->].
    apply networks_loop_raise in Hloop as (pre & net & post & -> & Hpre & Hname & Hwhy).
    exists pre, net, post. split; [done|]. split; [done|]. split; [|done].
    rewrite Forall_forall in Hpre. intros net' Hin. by apply Hpre.
Qed.

(** What the site entry of a row says about one family: nothing for an
    empty gateway cell; otherwise the host address of the interface, without
    the zone of the cell, and its subnet, written as network address and
    prefix length.  The network address is the address with its host bits
    cleared; it is followed by the zone of the cell when the cell names one
    and no host bit of its address is set. *)
Definition site_texts `{Ipaddress} (gw subnet_text : string)
    (gateway_cell : option string) : Prop :=
  if decide (gw = "") then subnet_text = "" ∧ gateway_cell = None
  else
    ∃ i, ip_interface gw = Some i
         ∧ (let masked := Z.land (to_int (ip i)) (to_int (netmask i)) in
            let text := str_address (of_int (ip i) masked) in
            let address_text :=
              match scope_id i with
              | Some zone =>
                  if decide (zone ≠ "" ∧ masked = to_int (ip i))
                  then text +:+ "%" +:+ zone else text
              | None => text
              end in
            subnet_text = address_text +:+ "/" +:+ pretty (prefixlen i))
         ∧ gateway_cell
           = if decide (str_address (ip i) = "") then None
             else Some (str_address (ip i)).

Lemma of_int_to_int (a : IPAddress) : of_int a (to_int a) = a.
Proof. by destruct a. Qed.

Lemma gateway_texts_site `{Ipaddress} gw texts :
  gateway_texts gw = Ok texts →
  site_texts gw texts.1 (if decide (texts.2 = "") then None else Some texts.2).
Proof.
  unfold site_texts.
  intros [[-> ->]|(Hgw & i & Hi & ->)]%gateway_texts_ok.
  - by rewrite decide_True.
  - rewrite decide_False by done. exists i. split; [done|]. split; [|done].
    cbn [fst]. f_equal. unfold str_scoped, network_address.
    destruct (decide (Z.land (to_int (ip i)) (to_int (netmask i)) ≠ to_int (ip i)))
      as [Hbits|Hnone]; cbn [fst snd].
    + destruct (scope_id i) as [zone|]; [|done].
      rewrite decide_False; [done|]. by intros [_ ?].
    + apply dec_stable in Hnone. rewrite Hnone, of_int_to_int.
      destruct (scope_id i) as [zone|]; [|done].
      destruct (decide (zone = "")) as [->|Hzone].
      * rewrite decide_False; [done|]. by intros [? _].
      * by rewrite decide_True.
Qed.

(** X19. The rows are returned as they were and the list of network names
    holds the names of the named rows in the order of the sheet.  The site
    networks are the listed names; the entry of a name is that of the last
    row of the name, also when an earlier row of the name had a gateway and
    the last one has none.  For each family the entry gives the host
    address of the gateway cell, without the zone the cell may name, and
    its subnet: the address with the host bits cleared, followed by the
    zone of the cell when it names one and has no host bit set, then a
    slash and the prefix length. *)
Theorem parse_networks_site_networks `{Ipaddress} `{Numbers}
    (rows rows' : list (gmap string string)) (sn : gmap string SiteNetwork)
    (vi : gmap string VrfInstance) (names : list string) :
  _parse_networks rows = Ok (sn, vi, names, rows') →
  rows' = rows
  ∧ names = row_names rows
  ∧ (∀ name, is_Some (sn !! name) ↔ name ∈ names)
  ∧ ∀ name net,
      name ≠ "" →
      last (filter (λ net', row_name net' = name) rows) = Some net →
      ∃ s, sn !! name = Some s
           ∧ vlan_id s = vlan_id_of (net !! "VLAN_ID")
           ∧ site_texts (row_gateway net) (subnet s) (gateway s)
           ∧ site_texts (row_gateway6 net) (subnet6 s) (gateway6 s).
Proof.
  intros (st & Hloop & -> & -> & -> & ->)%parse_networks_ok.
  split; [done|]. split; [by rewrite (networks_loop_names _ _ _ Hloop)|].
  split.
  - intros name. rewrite (networks_loop_names _ _ _ Hloop). cbn [network_name_list app].
    rewrite row_names_elem.
    destruct (decide (name = "")) as [->|Hname].
    { rewrite (networks_loop_unnamed _ _ _ Hloop). cbn. rewrite lookup_empty.
      split; [by intros [? ?] | by intros [? _]]. }
    pose proof (networks_loop_sites _ _ _ name Hloop) as Hsite.
    destruct (last (filter _ rows)) as [net|] eqn:Hlast.
    + destruct (Hsite Hname) as (t4 & t6 & _ & _ & ->). split; [|by eexists].
      intros _. split; [done|]. intros Hnil. by rewrite Hnil in Hlast.
    + rewrite Hsite. cbn. rewrite lookup_empty. apply last_None in Hlast.
      split; [by intros [? ?] | by intros [_ ?]].
  - intros name net Hname Hlast.
    pose proof (networks_loop_sites _ _ _ name Hloop) as Hsite.
    rewrite Hlast in Hsite. destruct (Hsite Hname) as (t4 & t6 & H4 & H6 & ->).
    eexists. split; [done|]. split; [done|]. cbn.
    split; by apply gateway_texts_site.
Qed.

(** X20. There is a VRF instance for exactly the VRF names of the named
    rows, and none under the empty name.  The instance lists the network
    names of its rows in the order of the sheet, repetitions included, and
    routes a family exactly when one of its rows has a gateway of that
    family. *)
Theorem parse_networks_vrf_instances `{Ipaddress} `{Numbers}
    (rows rows' : list (gmap string string)) (sn : gmap string SiteNetwork)
    (vi : gmap string VrfInstance) (names : list string) :
  _parse_networks rows = Ok (sn, vi, names, rows') →
  vi !! "" = None
  ∧ ∀ vrf, vrf ≠ "" →
      match vi !! vrf with
      | None => filter (in_vrf vrf) rows = []
      | Some inst =>
          filter (in_vrf vrf) rows ≠ []
          ∧ networks inst = row_name <$> filter (in_vrf vrf) rows
          ∧ (v4_routing inst = true ↔
             Exists (λ net, has_gateway (row_gateway net)) (filter (in_vrf vrf) rows))
          ∧ (v6_routing inst = true ↔
             Exists (λ net, has_gateway (row_gateway6 net)) (filter (in_vrf vrf) rows))
      end.
Proof.
  intros (st & Hloop & -> & -> & -> & ->)%parse_networks_ok. split.
  - rewrite map_lookup_imap, (networks_loop_no_vrf _ _ _ Hloop). cbn.
    by rewrite lookup_empty.
  - intros vrf Hvrf. rewrite map_lookup_imap.
    rewrite (networks_loop_vrf _ _ _ _ Hvrf Hloop). cbn [vrf_instances].
    rewrite lookup_empty.
    pose proof (vrf_fold_new (filter (in_vrf vrf) rows)) as Hfold.
    destruct (vrf_fold _ None) as [inst|]; cbn; [|done].
    destruct Hfold as (Hne & Hnets & H4 & H6 & _). split; [done|].
    unfold attach_routes.
    destruct (extra_v4 st !! vrf), (extra_v6 st !! vrf); cbn; done.
Qed.

(** X21. The extra routes of a VRF are the routes of its rows, where a
    later row goes before an earlier one and, within a row, the comment
    before the static-routes column; a VRF without any route has no
    extra-routes key. *)
Theorem parse_networks_extra_routes `{Ipaddress} `{Numbers}
    (rows rows' : list (gmap string string)) (sn : gmap string SiteNetwork)
    (vi : gmap string VrfInstance) (names : list string)
    (vrf : string) (inst : VrfInstance) :
  _parse_networks rows = Ok (sn, vi, names, rows') →
  vi !! vrf = Some inst →
  extra_routes inst
  = nonempty_map (routes_fold row_routes4 (filter (in_vrf vrf) rows) ∅)
  ∧ extra_routes6 inst
    = nonempty_map (routes_fold row_routes6 (filter (in_vrf vrf) rows) ∅).
Proof.
  intros (st & Hloop & -> & -> & -> & ->)%parse_networks_ok.
  destruct (decide (vrf = "")) as [->|Hvrf].
  { rewrite map_lookup_imap, (networks_loop_no_vrf _ _ _ Hloop). cbn.
    by rewrite lookup_empty. }
  rewrite map_lookup_imap, (networks_loop_vrf _ _ _ _ Hvrf Hloop).
  cbn [vrf_instances]. rewrite lookup_empty.
  pose proof (vrf_fold_new (filter (in_vrf vrf) rows)) as Hfold.
  destruct (vrf_fold _ None) as [inst'|]; cbn; [|done].
  destruct Hfold as (_ & _ & _ & _ & Hr4 & Hr6). intros [= <-].
  assert (Hempty : (∅ : gmap string (gmap string Route)) !! vrf = nonempty_map ∅).
  { by rewrite lookup_empty. }
  pose proof (λ Hold, networks_loop_routes4 _ _ _ vrf ∅ Hvrf Hold Hloop) as H4.
  pose proof (λ Hold, networks_loop_routes6 _ _ _ vrf ∅ Hvrf Hold Hloop) as H6.
  specialize (H4 Hempty). specialize (H6 Hempty).
  unfold attach_routes. rewrite H4, H6.
  destruct (nonempty_map (routes_fold row_routes4 _ ∅)),
           (nonempty_map (routes_fold row_routes6 _ ∅)); cbn; done.
Qed.

(** ** Network planning, then allocation *)

Section Allocation.
Context `{Ipaddress}.

Lemma other_ip_entry_raise offset net e :
  other_ip_entry offset net = Raise e →
  e = AddressValueError
  ∨ (¬ readable (row_gateway net) ∧ e = InvalidAddressError (row_gateway net))
  ∨ (¬ readable (row_gateway6 net) ∧ e = InvalidAddressError (row_gateway6 net)).
Proof.
  assert (Hstep : ∀ gw (k_type k_ip k_mask : string) (mask : IPInterface → string)
                    (entry : gmap string string) e',
    (if decide (gw = "") then mret entry
     else
       i ← parse_interface gw;
       a ← address_add (ip i) offset;
       mret (<[k_mask := mask i]> (<[k_ip := str_address a]>
               (<[k_type := "static"]> entry))))
    = Raise e' →
    e' = AddressValueError ∨ (¬ readable gw ∧ e' = InvalidAddressError gw)).
  { intros gw k_type k_ip k_mask mask entry e'. case_decide as Hgw; [done|].
    unfold parse_interface. destruct (ip_interface gw) as [i|] eqn:Hi; cbn.
    - unfold address_add. case_decide; [done|]. cbn. intros [= <-]. by left.
    - intros [= <-]. right. split; [|done]. intros [?|[? ?]]; congruence. }
  unfold other_ip_entry. fold (row_gateway net) (row_gateway6 net).
  destruct (if decide (row_gateway net = "") then _ else _) as [e4|err] eqn:H4.
  - cbn [mbind result_bind].
    destruct (if decide (row_gateway6 net = "") then _ else _) as [e6|err] eqn:H6;
      [done|].
    cbn [mbind result_bind]. intros [= <-].
    apply Hstep in H6 as [?|?]; [by left | by right; right].
  - cbn [mbind result_bind]. intros [= <-].
    apply Hstep in H4 as [?|?]; [by left | by right; left].
Qed.

Lemma other_ip_loop_raise offset rows cfg0 e :
  other_ip_loop offset rows cfg0 = Raise e →
  ∃ net, net ∈ rows ∧ row_name net ≠ "" ∧ other_ip_entry offset net = Raise e.
Proof.
  revert cfg0. induction rows as [|net rows IH]; intros cfg0; [done|].
  cbn [other_ip_loop]. fold (row_name net).
  assert (Hrest : ∀ cfg, other_ip_loop offset rows cfg = Raise e →
            ∃ net', net' ∈ net :: rows ∧ row_name net' ≠ ""
                    ∧ other_ip_entry offset net' = Raise e).
  { intros cfg (net' & Hin & Hrow)%IH. exists net'. split; [by right | done]. }
  case_decide as Hname; [apply Hrest|].
  destruct (other_ip_entry offset net) as [entry|e'] eqn:Hentry; cbn [mbind result_bind].
  - case_decide; apply Hrest.
  - intros [= ->]. exists net. split; [by left | done].
Qed.
End Allocation.

(** X22. Once the networks are planned, the allocation of secondary
    addresses from the same rows can fail in one way only, an address out
    of range; and every network that is given an address is a site network
    and is in the list of network names. *)
Theorem parse_networks_then_allocate `{Ipaddress} `{Numbers}
    (rows rows' : list (gmap string string)) (sn : gmap string SiteNetwork)
    (vi : gmap string VrfInstance) (names : list string) (offset : Z) :
  _parse_networks rows = Ok (sn, vi, names, rows') →
  (∀ e, make_other_ip_configs rows' offset = Raise e → e = AddressValueError)
  ∧ ∀ cfg name,
      make_other_ip_configs rows' offset = Ok cfg →
      is_Some (cfg !! name) → is_Some (sn !! name) ∧ name ∈ names.
Proof.
  intros (st & Hloop & -> & -> & -> & ->)%parse_networks_ok. split.
  - intros e (net & Hin & Hname & Hentry)%other_ip_loop_raise.
    pose proof (networks_loop_readable _ _ _ Hloop) as Hread.
    rewrite Forall_forall in Hread. destruct (Hread net Hin Hname) as [H4 H6].
    apply other_ip_entry_raise in Hentry as [?|[[? _]|[? _]]]; done.
  - intros cfg name Hcfg Hsome.
    assert (Hin : name ∈ row_names rows).
    { destruct (decide (name ∈ row_names rows)) as [?|Hout]; [done|].
      destruct (other_ip_loop_ok _ _ _ _ Hcfg) as (_ & Hother & _).
      rewrite (Hother _ Hout), lookup_empty in Hsome. by destruct Hsome. }
    rewrite (networks_loop_names _ _ _ Hloop). cbn [network_name_list app].
    split; [|done].
    apply row_names_elem in Hin as [Hname Hne].
    pose proof (networks_loop_sites _ _ _ name Hloop) as Hsite.
    destruct (last (filter _ rows)) as [net|] eqn:Hlast.
    + destruct (Hsite Hname) as (t4 & t6 & _ & _ & ->). by eexists.
    + by apply last_None in Hlast.
Qed.

(** ** The switches of the topology *)

Lemma lower_char_twice c : Py.lower_char (Py.lower_char c) = Py.lower_char c.
Proof. by destruct c as [[] [] [] [] [] [] [] []]. Qed.

Lemma lower_char_separator (sep c : ascii) :
  sep = ":"%char ∨ sep = "-"%char ∨ sep = "."%char →
  Ascii.eqb sep (Py.lower_char c) = Ascii.eqb sep c.
Proof.
  intros [->|[->| ->]]; by destruct c as [[] [] [] [] [] [] [] []].
Qed.

Lemma lower_twice s : Py.lower (Py.lower s) = Py.lower s.
Proof.
  induction s as [|c s IH]; [done|]. cbn. by rewrite lower_char_twice, IH.
Qed.

Lemma lower_app a b : Py.lower (a +:+ b) = Py.lower a +:+ Py.lower b.
Proof. induction a as [|c a IH]; [done|]. cbn. by rewrite IH. Qed.

Lemma remove_char_app old a b :
  Py.remove_char old (a +:+ b) = Py.remove_char old a +:+ Py.remove_char old b.
Proof.
  induction a as [|c a IH]; [done|]. cbn. destruct (Ascii.eqb old c); [done|].
  cbn. by rewrite IH.
Qed.

Lemma remove_char_free old s :
  Py.contains old s = false → Py.remove_char old s = s.
Proof.
  induction s as [|c s IH]; [done|]. cbn. destruct (Ascii.eqb old c); [done|].
  intros Hs. by rewrite (IH Hs).
Qed.

Lemma contains_remove_char old s : Py.contains old (Py.remove_char old s) = false.
Proof.
  induction s as [|c s IH]; [done|]. cbn.
  destruct (Ascii.eqb old c) eqn:Hc; [done|]. cbn. by rewrite Hc.
Qed.

Lemma contains_remove_other old sep s :
  Py.contains sep s = false → Py.contains sep (Py.remove_char old s) = false.
Proof.
  induction s as [|c s IH]; [done|]. cbn.
  destruct (Ascii.eqb sep c) eqn:Hc; [done|]. intros Hs.
  destruct (Ascii.eqb old c); [by apply IH|]. cbn. rewrite Hc. by apply IH.
Qed.

Lemma contains_lower sep s :
  sep = ":"%char ∨ sep = "-"%char ∨ sep = "."%char →
  Py.contains sep (Py.lower s) = Py.contains sep s.
Proof.
  intros Hsep. induction s as [|c s IH]; [done|]. cbn.
  by rewrite (lower_char_separator _ _ Hsep), IH.
Qed.

Lemma normalize_mac_free sep mac :
  sep = ":"%char ∨ sep = "-"%char ∨ sep = "."%char →
  Py.contains sep (normalize_mac mac) = false.
Proof.
  intros Hsep. unfold normalize_mac. rewrite (contains_lower _ _ Hsep).
  destruct Hsep as [->|[->| ->]].
  - apply contains_remove_other, contains_remove_other, contains_remove_char.
  - apply contains_remove_other, contains_remove_char.
  - apply contains_remove_char.
Qed.

Lemma normalize_mac_app a b :
  normalize_mac (Some (a +:+ b)) = normalize_mac (Some a) +:+ normalize_mac (Some b).
Proof.
  unfold normalize_mac. cbn [default from_option id].
  by rewrite !remove_char_app, lower_app.
Qed.

(** X25. A normalized MAC address holds none of the separators [:], [-]
    and [.]; a separator anywhere in the text does not change the result,
    nor does the case of the letters, and normalizing twice is normalizing
    once. *)
Theorem normalize_mac_canonical (mac : option string) :
  (∀ sep : ascii, sep = ":"%char ∨ sep = "-"%char ∨ sep = "."%char →
     Py.contains sep (normalize_mac mac) = false
     ∧ ∀ a b, normalize_mac (Some (a +:+ String sep b))
              = normalize_mac (Some (a +:+ b)))
  ∧ normalize_mac (Some (normalize_mac mac)) = normalize_mac mac
  ∧ ∀ s, normalize_mac (Some (Py.lower s)) = normalize_mac (Some s).
Proof.
  split; [|split].
  - intros sep Hsep. split; [by apply normalize_mac_free|].
    intros a b. change (String sep b) with (String sep "" +:+ b).
    rewrite !normalize_mac_app.
    by destruct Hsep as [->|[->| ->]].
  - assert (H1 : Py.contains ":" (normalize_mac mac) = false)
      by (apply normalize_mac_free; auto).
    assert (H2 : Py.contains "-" (normalize_mac mac) = false)
      by (apply normalize_mac_free; auto).
    assert (H3 : Py.contains "." (normalize_mac mac) = false)
      by (apply normalize_mac_free; auto).
    unfold normalize_mac at 1. cbn [default from_option id].
    rewrite (remove_char_free ":") by done.
    rewrite (remove_char_free "-") by done.
    rewrite (remove_char_free ".") by done.
    unfold normalize_mac. apply lower_twice.
  - intros s. unfold normalize_mac. cbn [default from_option id].
    assert (Hcomm : ∀ sep t, sep = ":"%char ∨ sep = "-"%char ∨ sep = "."%char →
              Py.remove_char sep (Py.lower t) = Py.lower (Py.remove_char sep t)).
    { intros sep t Hsep. induction t as [|c t IHt]; [done|]. cbn.
      rewrite (lower_char_separator _ _ Hsep).
      destruct (Ascii.eqb sep c); [done|]. cbn. by rewrite IHt. }
    rewrite !Hcomm by auto. apply lower_twice.
Qed.

(** X26. The peer of a core switch is the first other core device in
    name order: the second core device for the first one, the first core
    device for every other one.  Uplinks and downlinks both hold the peer's
    normalized MAC address, and nothing when that is empty. *)
Theorem switch_entry_peer (dev_by_name : gmap string Device)
    (c0 c1 : string) (others : list string)
    (core_port_config access_port_config : gmap string (gmap string PortConfigEntry))
    (name : string) (d od : Device) :
  c0 ≠ c1 →
  dev_by_name !! name = Some d →
  dev_by_name !! (if decide (name = c0) then c1 else c0) = Some od →
  switch_entry dev_by_name (c0 :: c1 :: others)
    core_port_config access_port_config name "collapsed-core"
  = Ok {| switch_mac := normalize_mac (device_mac d);
          switch_role := "collapsed-core";
          uplinks := if decide (normalize_mac (device_mac od) = "") then []
                     else [normalize_mac (device_mac od)];
          downlinks := if decide (normalize_mac (device_mac od) = "") then []
                       else [normalize_mac (device_mac od)];
          switch_port_config := default ∅ (core_port_config !! name) |}.
Proof.
  intros Hne Hd Hod. unfold switch_entry. rewrite Hd.
  rewrite decide_True by done. rewrite filter_cons.
  destruct (decide (name = c0)) as [->|Hc0].
  - rewrite decide_False by (by intros ?). rewrite filter_cons, decide_True by done.
    by rewrite Hod.
  - rewrite decide_True by done. by rewrite Hod.
Qed.

(** ** Further worked inputs *)

(** A row of the INTERFACES sheet with its roles and media settings. *)
Definition sheet_row (src : string) (srole : option string) (sport : string)
    (dst : string) (drole : option string) (dport : string)
    (ae : option Z) (row_speed : option string) (row_channelized : option bool)
    : InterfaceLink :=
  {| src_device := src; src_role := srole; src_int := sport;
     dst_device := dst; dst_role := drole; dst_int := dport;
     ae_idx := ae; speed := row_speed; channelized := row_channelized |}.

(** Two channels of one core port, and a dual-homed access device. *)
Definition sheet_entries : list InterfaceLink :=
  [ sheet_row "core-a" (Some "collapsed-core") "et-0/0/0:0"
              "core-b" (Some "collapsed-core") "et-0/0/0:0" None (Some "25g") (Some true);
    sheet_row "core-a" (Some "collapsed-core") "et-0/0/0:1"
              "core-b" None "et-0/0/0:1" None (Some "10g") None;
    sheet_row "core-a" None "ge-0/0/5"
              "acc-1" (Some "access") "ge-0/0/1" (Some 5%Z) None None;
    sheet_row "acc-1" (Some "access") "ge-0/0/0"
              "core-b" (Some "collapsed-core") "ge-0/0/5" (Some 5%Z) None (Some false) ].

Example roles_from_interfaces_example :
  _roles_from_interfaces sheet_entries = inr example_roles.
Proof. evaluate. Qed.

Example roles_from_interfaces_conflicting :
  _roles_from_interfaces
    (sheet_entries
     ++ [sheet_row "acc-1" (Some "collapsed-core") "ge-0/0/3"
                   "acc-2" (Some "access") "ge-0/0/3" None None None])
  = inl (ConflictingRoles "acc-1" "access" "collapsed-core").
Proof. evaluate. Qed.

Lemma roles_from_interfaces_declared_witness :
  (∀ dev role, example_roles !! dev = Some role
               ↔ (dev, role) ∈ declared_roles sheet_entries)
  ∧ example_roles !! "" = None
  ∧ ∀ dev, example_roles !! dev ≠ Some "".
Proof.
  apply (roles_from_interfaces_declared sheet_entries example_roles). evaluate.
Defined.

Lemma roles_from_interfaces_any_order_witness :
  _roles_from_interfaces (reverse sheet_entries) = inr example_roles.
Proof.
  apply (roles_from_interfaces_any_order sheet_entries (reverse sheet_entries)
           example_roles).
  - symmetry. apply reverse_Permutation.
  - evaluate.
Defined.

Definition sheet_optic_config : gmap string (gmap string OpticConfigEntry) :=
  <["core-a" := {[ "et-0/0/0" := config_entry (Some "25g") (Some true) ]}]>
    (<["core-b" := <["et-0/0/0" := config_entry (Some "25g") (Some true)]>
                     {[ "ge-0/0/5" := config_entry None (Some false) ]}]>
       {[ "acc-1" := {[ "ge-0/0/0" := config_entry None (Some false) ]} ]}).

(** The two channels of [et-0/0/0] share one entry, that of the first. *)
Example build_optic_port_config_example :
  _build_optic_port_config sheet_entries example_roles = sheet_optic_config.
Proof. evaluate. Qed.

Lemma build_optic_port_config_entries_witness :
  "core-a" ≠ ""
  ∧ ({[ "et-0/0/0" := config_entry (Some "25g") (Some true) ]}
       : gmap string OpticConfigEntry) ≠ ∅
  ∧ ∀ port entry,
      ({[ "et-0/0/0" := config_entry (Some "25g") (Some true) ]}
         : gmap string OpticConfigEntry) !! port = Some entry →
      port ≠ "" ∧ get_base_port port = port
      ∧ (optic_speed entry ≠ None ∨ optic_channelized entry ≠ None)
      ∧ ∃ e, e ∈ sheet_entries
          ∧ optic_speed entry = speed e ∧ optic_channelized entry = channelized e
          ∧ ((src_device e = "core-a" ∧ get_base_port (src_int e) = port)
             ∨ (dst_device e = "core-a" ∧ get_base_port (dst_int e) = port)).
Proof.
  apply (build_optic_port_config_entries sheet_entries example_roles "core-a").
  evaluate.
Defined.

(** Two core devices: the run is past the first check, and the port it
    fails for is a port of a core device. *)
Lemma build_topology_failures_witness :
  (_build_topology overlap_conflict_entries example_roles
   = Raise TopologyUnderspecifiedError
   ↔ ∀ a b, example_roles !! a = Some "collapsed-core" →
            example_roles !! b = Some "collapsed-core" → a = b)
  ∧ _build_topology overlap_conflict_entries example_roles
    ≠ Raise TopologyUnderspecifiedError
  ∧ example_roles !! "core-b" = Some "collapsed-core".
Proof.
  split; [|split].
  - exact (proj1 (build_topology_failures overlap_conflict_entries example_roles)).
  - refine (proj1 (proj2 (build_topology_failures overlap_conflict_entries
                            example_roles)) ["core-a"; "core-b"] _).
    evaluate.
  - refine (proj2 (proj2 (proj2 (proj2 (proj2
              (build_topology_failures overlap_conflict_entries example_roles)))))
              "core-b" "ge-0/0/5" _).
    evaluate.
Defined.

Lemma build_topology_ignores_other_records_witness :
  _build_topology
    ([] ++ link_row "acc-1" "ge-0/0/9" "acc-2" "ge-0/0/9" (Some 9%Z) :: example_entries)
    example_roles
  = _build_topology ([] ++ example_entries) example_roles.
Proof.
  apply (build_topology_ignores_other_records [] example_entries
           (link_row "acc-1" "ge-0/0/9" "acc-2" "ge-0/0/9" (Some 9%Z)) example_roles).
  - left. reflexivity.
  - right. split; reflexivity.
Defined.

Lemma build_topology_devices_witness :
  (∀ dev, is_Some (example_core_config !! dev)
          ↔ example_roles !! dev = Some "collapsed-core")
  ∧ ∀ dev, is_Some (example_access_config !! dev) →
      example_roles !! dev ≠ Some "collapsed-core"
      ∧ ∃ ae c, c ∈ legs_of example_roles example_entries ae
                ∧ (leg_access example_roles c).1 = dev.
Proof.
  apply (build_topology_devices example_entries example_roles
           example_links example_core_config example_access_config).
  evaluate.
Defined.

Lemma build_topology_core_ports_witness :
  (∀ ae c,
      c ∈ legs_of example_roles example_entries ae →
      leg_core example_roles c ∉ mjoin (link_ends <$> example_links) →
      port_lookup example_core_config (leg_core example_roles c)
      = Some (esi_lag_core_entry ae))
  ∧ ∀ x,
      x ∉ mjoin (link_ends <$> example_links) →
      (∀ ae c, c ∈ legs_of example_roles example_entries ae →
               leg_core example_roles c ≠ x) →
      port_lookup example_core_config x = None.
Proof.
  apply (build_topology_core_ports example_entries example_roles
           example_links example_core_config example_access_config).
  evaluate.
Defined.

Lemma build_topology_core_links_first_listing_witness :
  {| core1 := "core-a"; port1 := "et-0/0/0"; core2 := "core-b"; port2 := "et-0/0/0" |}
  ∈ example_links ↔
  ∃ pre e post,
    example_entries = pre ++ e :: post
    ∧ example_roles !! src_device e = Some "collapsed-core"
    ∧ example_roles !! dst_device e = Some "collapsed-core"
    ∧ {| core1 := "core-a"; port1 := "et-0/0/0";
         core2 := "core-b"; port2 := "et-0/0/0" |}
      = {| core1 := src_device e; port1 := src_int e;
           core2 := dst_device e; port2 := dst_int e |}
    ∧ (∀ e', e' ∈ pre →
         example_roles !! src_device e' = Some "collapsed-core" →
         example_roles !! dst_device e' = Some "collapsed-core" →
         entry_key e' ≠ entry_key e).
Proof.
  apply (build_topology_core_links_first_listing example_entries example_roles
           example_links example_core_config example_access_config).
  evaluate.
Defined.

(** A network listed three times: the last row with a gateway decides. *)
Definition repeated_rows : list (gmap string string) :=
  [ <["NETWORKNAME" := "users"]> (<["GATEWAY" := "10.0.0.1/24"]> ∅);
    <["NETWORKNAME" := "users"]> (<["GATEWAY" := "10.1.0.1/16"]> ∅);
    <["NETWORKNAME" := "users"]> ∅ ].

Definition repeated_cfg : gmap string (gmap string string) :=
  {[ "users" := <["type" := "static"]> (<["ip" := "10.1.0.2"]>
                   (<["netmask" := "255.255.0.0"]> ∅)) ]}.

Example make_other_ip_configs_repeated :
  @make_other_ip_configs IpText.lib repeated_rows 1 = Ok repeated_cfg.
Proof. evaluate. Qed.

Lemma make_other_ip_configs_last_row_wins_witness :
  repeated_cfg !! "" = None
  ∧ ∀ name, name ≠ "" →
      match last (filter (gives_gateway name) repeated_rows) with
      | Some net =>
          ∃ entry, repeated_cfg !! name = Some entry
                   ∧ @entry_v4 IpText.lib 1 (row_gateway net) entry
                   ∧ @entry_v6 IpText.lib 1 (row_gateway6 net) entry
      | None => repeated_cfg !! name = None
      end.
Proof.
  apply (@make_other_ip_configs_last_row_wins IpText.lib repeated_rows 1 repeated_cfg).
  evaluate.
Defined.

Lemma make_other_ip_configs_same_networks_witness :
  dom repeated_cfg
  = dom ({[ "users" := <["type" := "static"]> (<["ip" := "10.1.0.3"]>
                         (<["netmask" := "255.255.0.0"]> ∅)) ]}
           : gmap string (gmap string string)).
Proof.
  refine (proj1 (@make_other_ip_configs_same_networks IpText.lib repeated_rows 1 2
                   repeated_cfg _ _ _)); evaluate.
Defined.

(** A comment with a default route and an IPv6 route. *)
Example parse_network_comment_directives_example :
  @_parse_network_comment_directives IpText.lib
    (Some "Default via 10.0.0.254; 2001:db8:1::/48 via 2001:db8::fe ;uplink")
  = ({[ "0.0.0.0/0" := {| via := "10.0.0.254" |} ]},
     {[ "2001:db8:1::/48" := {| via := "2001:db8::fe" |} ]}).
Proof. evaluate. Qed.

(** A part whose prefix is no network ends the parsing. *)
Example parse_network_comment_directives_stops :
  @_parse_network_comment_directives IpText.lib
    (Some "10.0.0.0/8 via 10.0.0.1;campus via 10.0.0.2;default via 10.0.0.254")
  = ({[ "10.0.0.0/8" := {| via := "10.0.0.1" |} ]}, ∅).
Proof. evaluate. Qed.

Lemma parse_network_comment_directives_tables_witness :
  (∀ prefix route,
     ({[ "0.0.0.0/0" := {| via := "10.0.0.254" |} ]} : gmap string Route) !! prefix
     = Some route →
     Py.contains ":" prefix = false ∧ @ip_network_ok IpText.lib prefix = true
     ∧ prefix ≠ "" ∧ via route ≠ "" ∧ Py.strip (via route) = via route)
  ∧ (∀ prefix route,
     ({[ "2001:db8:1::/48" := {| via := "2001:db8::fe" |} ]} : gmap string Route)
       !! prefix = Some route →
     Py.contains ":" prefix = true ∧ @ip_network_ok IpText.lib prefix = true
     ∧ prefix ≠ "" ∧ via route ≠ "" ∧ Py.strip (via route) = via route).
Proof.
  apply (@parse_network_comment_directives_tables IpText.lib
           (Some "Default via 10.0.0.254; 2001:db8:1::/48 via 2001:db8::fe ;uplink")).
  evaluate.
Defined.

(** Blanks after the semicolons, an empty part, and a default route
    written with a further word. *)
Example parse_network_comment_directives_spelling :
  @_parse_network_comment_directives IpText.lib
    (Some " 10.0.0.0/8 via 10.0.0.1 ;; default route via 10.0.0.254; uplink")
  = (<["0.0.0.0/0" := {| via := "10.0.0.254" |}]>
       {[ "10.0.0.0/8" := {| via := "10.0.0.1" |} ]}, ∅).
Proof. evaluate. Qed.

Lemma parse_network_comment_directives_steps_witness :
  @_parse_network_comment_directives IpText.lib
    (Some " 10.0.0.0/8 via 10.0.0.1 ;; default route via 10.0.0.254; uplink")
  = @_parse_network_comment_directives IpText.lib
      (Some (Py.join ";" (["10.0.0.0/8 via 10.0.0.1"]
                          ++ "default route via 10.0.0.254" :: ["uplink"])))
  ∧ (Py.contains_str " via " "default route via 10.0.0.254" = false →
     @_parse_network_comment_directives IpText.lib
       (Some " 10.0.0.0/8 via 10.0.0.1 ;; default route via 10.0.0.254; uplink")
     = @_parse_network_comment_directives IpText.lib
         (Some (Py.join ";" (["10.0.0.0/8 via 10.0.0.1"] ++ ["uplink"]))))
  ∧ (Exists (@rejected_directive IpText.lib) ["10.0.0.0/8 via 10.0.0.1"] →
     @_parse_network_comment_directives IpText.lib
       (Some " 10.0.0.0/8 via 10.0.0.1 ;; default route via 10.0.0.254; uplink")
     = @_parse_network_comment_directives IpText.lib
         (Some (Py.join ";" ["10.0.0.0/8 via 10.0.0.1"])))
  ∧ ∀ before after,
      Py.partition " via " "default route via 10.0.0.254" = Some (before, after) →
      (@ip_network_ok IpText.lib (directive_key (Py.strip before)) = true →
       Forall (λ p', ¬ @rejected_directive IpText.lib p') ["10.0.0.0/8 via 10.0.0.1"] →
       @_parse_network_comment_directives IpText.lib
         (Some (Py.join ";" (["10.0.0.0/8 via 10.0.0.1"]
                             ++ ["default route via 10.0.0.254"])))
       = with_directive (Py.strip before) (Py.strip after)
           (@_parse_network_comment_directives IpText.lib
              (Some (Py.join ";" ["10.0.0.0/8 via 10.0.0.1"]))))
      ∧ (@ip_network_ok IpText.lib (directive_key (Py.strip before)) = false →
         @_parse_network_comment_directives IpText.lib
           (Some " 10.0.0.0/8 via 10.0.0.1 ;; default route via 10.0.0.254; uplink")
         = @_parse_network_comment_directives IpText.lib
             (Some (Py.join ";" ["10.0.0.0/8 via 10.0.0.1"]))).
Proof.
  apply (@parse_network_comment_directives_steps IpText.lib
           " 10.0.0.0/8 via 10.0.0.1 ;; default route via 10.0.0.254; uplink"
           ["10.0.0.0/8 via 10.0.0.1"] ["uplink"] "default route via 10.0.0.254").
  evaluate.
Defined.

(** Three networks, two of them in one VRF. *)
Definition plan_rows : list (gmap string string) :=
  [ <["NETWORKNAME" := "users"]> (<["VLAN_ID" := "100"]> (<["VRF" := "corp"]>
      (<["GATEWAY" := "10.0.0.1/24"]>
         (<["STATIC_ROUTESv4" := "0.0.0.0/0@10.0.0.254 10.9.0.0/16@10.0.0.9"]>
            (<["COMMENT" := "10.9.0.0/16 via 10.0.0.253"]> ∅)))));
    <["NETWORKNAME" := "guests"]> (<["VLAN_ID" := "200"]> (<["VRF" := "corp"]>
      (<["GATEWAY6" := "2001:db8::1/64"]> ∅)));
    <["NETWORKNAME" := "mgmt"]> (<["VLAN_ID" := "native"]> ∅) ].

Definition plan_site_networks : gmap string SiteNetwork :=
  <["users" := {| vlan_id := inl 100%Z; subnet := "10.0.0.0/24"; subnet6 := "";
                  gateway := Some "10.0.0.1"; gateway6 := None |}]>
    (<["guests" := {| vlan_id := inl 200%Z; subnet := ""; subnet6 := "2001:db8::/64";
                      gateway := None; gateway6 := Some "2001:db8::1" |}]>
       {[ "mgmt" := {| vlan_id := inr (Some "native"); subnet := ""; subnet6 := "";
                       gateway := None; gateway6 := None |} ]}).

Definition plan_vrf_instances : gmap string VrfInstance :=
  {[ "corp" :=
       {| networks := ["users"; "guests"]; v4_routing := true; v6_routing := true;
          extra_routes :=
            Some (<["0.0.0.0/0" := {| via := "10.0.0.254" |}]>
                    {[ "10.9.0.0/16" := {| via := "10.0.0.253" |} ]});
          extra_routes6 := None |} ]}.

Example parse_networks_example :
  @_parse_networks IpText.lib NumText.lib plan_rows
  = Ok (plan_site_networks, plan_vrf_instances, ["users"; "guests"; "mgmt"], plan_rows).
Proof. evaluate. Qed.

(** A gateway cell that is no interface text stops the planning. *)
Example parse_networks_unreadable :
  @_parse_networks IpText.lib NumText.lib
    (plan_rows ++ [ <["NETWORKNAME" := "lab"]> (<["GATEWAY" := "10.0.0.300/24"]> ∅) ])
  = Raise (InvalidAddressError "10.0.0.300/24").
Proof. evaluate. Qed.

(** Link-local gateways that name a zone: the subnet keeps the zone when
    the address has no host bits, the gateway never does. *)
Definition zone_rows : list (gmap string string) :=
  [ <["NETWORKNAME" := "transit"]> (<["VLAN_ID" := "300"]>
      (<["GATEWAY6" := "fe80::1%eth0"]> ∅));
    <["NETWORKNAME" := "uplink"]> (<["VLAN_ID" := "301"]>
      (<["GATEWAY6" := "fe80::1%eth0/64"]> ∅));
    <["NETWORKNAME" := "edge"]> (<["VLAN_ID" := "302"]>
      (<["GATEWAY" := "10.2.3.4/16"]> (<["GATEWAY6" := "fe80::%eth0/64"]> ∅))) ].

Definition zone_site_networks : gmap string SiteNetwork :=
  <["transit" := {| vlan_id := inl 300%Z; subnet := ""; subnet6 := "fe80::1%eth0/128";
                    gateway := None; gateway6 := Some "fe80::1" |}]>
    (<["uplink" := {| vlan_id := inl 301%Z; subnet := ""; subnet6 := "fe80::/64";
                      gateway := None; gateway6 := Some "fe80::1" |}]>
       {[ "edge" := {| vlan_id := inl 302%Z; subnet := "10.2.0.0/16";
                       subnet6 := "fe80::%eth0/64";
                       gateway := Some "10.2.3.4"; gateway6 := Some "fe80::" |} ]}).

Example parse_networks_zones :
  @_parse_networks IpText.lib NumText.lib zone_rows
  = Ok (zone_site_networks, ∅, ["transit"; "uplink"; "edge"], zone_rows).
Proof. evaluate. Qed.

Lemma parse_networks_site_networks_witness :
  zone_rows = zone_rows
  ∧ ["transit"; "uplink"; "edge"] = row_names zone_rows
  ∧ (∀ name, is_Some (zone_site_networks !! name)
             ↔ name ∈ ["transit"; "uplink"; "edge"])
  ∧ ∀ name net,
      name ≠ "" →
      last (filter (λ net', row_name net' = name) zone_rows) = Some net →
      ∃ s, zone_site_networks !! name = Some s
           ∧ vlan_id s = @vlan_id_of NumText.lib (net !! "VLAN_ID")
           ∧ @site_texts IpText.lib (row_gateway net) (subnet s) (gateway s)
           ∧ @site_texts IpText.lib (row_gateway6 net) (subnet6 s) (gateway6 s).
Proof.
  apply (@parse_networks_site_networks IpText.lib NumText.lib zone_rows zone_rows
           zone_site_networks ∅).
  evaluate.
Defined.

Lemma parse_networks_vrf_instances_witness :
  plan_vrf_instances !! "" = None.
Proof.
  refine (proj1 (@parse_networks_vrf_instances IpText.lib NumText.lib plan_rows
                   plan_rows plan_site_networks plan_vrf_instances
                   ["users"; "guests"; "mgmt"] _)).
  evaluate.
Defined.

Lemma parse_networks_extra_routes_witness :
  Some (<["0.0.0.0/0" := {| via := "10.0.0.254" |}]>
          ({[ "10.9.0.0/16" := {| via := "10.0.0.253" |} ]} : gmap string Route))
  = nonempty_map
      (routes_fold (@row_routes4 IpText.lib) (filter (in_vrf "corp") plan_rows) ∅).
Proof.
  refine (proj1 (@parse_networks_extra_routes IpText.lib NumText.lib plan_rows
                   plan_rows plan_site_networks plan_vrf_instances
                   ["users"; "guests"; "mgmt"] "corp"
                   {| networks := ["users"; "guests"]; v4_routing := true;
                      v6_routing := true;
                      extra_routes :=
                        Some (<["0.0.0.0/0" := {| via := "10.0.0.254" |}]>
                                {[ "10.9.0.0/16" := {| via := "10.0.0.253" |} ]});
                      extra_routes6 := None |} _ _)).
  - evaluate.
  - evaluate.
Defined.

Lemma parse_networks_then_allocate_witness :
  (∀ e, @make_other_ip_configs IpText.lib plan_rows 1 = Raise e
        → e = AddressValueError)
  ∧ ∀ cfg name,
      @make_other_ip_configs IpText.lib plan_rows 1 = Ok cfg →
      is_Some (cfg !! name) →
      is_Some (plan_site_networks !! name) ∧ name ∈ ["users"; "guests"; "mgmt"].
Proof.
  apply (@parse_networks_then_allocate IpText.lib NumText.lib plan_rows
           plan_rows plan_site_networks plan_vrf_instances
           ["users"; "guests"; "mgmt"] 1).
  evaluate.
Defined.

(** Three core devices: the third is given the offset of the first. *)
Definition three_core_roles : gmap string string :=
  <["core-c" := "collapsed-core"]> example_roles.

Lemma core_offset_of_any_device_witness :
  core_offset three_core_roles "core-c"
  = Ok (if decide (["core-a"; "core-b"; "core-c"] !! 1%nat = Some "core-c")
        then 2%Z else 1%Z).
Proof.
  apply (core_offset_of_any_device three_core_roles ["core-a"; "core-b"; "core-c"]).
  evaluate.
Defined.

Example core_offset_third_core :
  core_offset three_core_roles "core-c" = core_offset three_core_roles "core-a".
Proof. evaluate. Qed.

(** The devices of the site, with their MAC addresses in three notations. *)
Definition site_devices : gmap string Device :=
  <["core-a" := {| device_mac := Some "AA:BB:CC:00:00:01"; device_id := Some "id-a" |}]>
    (<["core-b" := {| device_mac := Some "aabb.cc00.0002"; device_id := Some "id-b" |}]>
       {[ "core-c" := {| device_mac := Some "AA-BB-CC-00-00-03";
                         device_id := Some "id-c" |} ]}).

Example normalize_mac_example :
  normalize_mac (Some "AA:BB:CC:00:00:01") = "aabbcc000001"
  ∧ normalize_mac (Some "aabb.cc00.0002") = "aabbcc000002"
  ∧ normalize_mac None = "".
Proof. repeat split; evaluate. Qed.

Lemma switch_entry_peer_witness :
  switch_entry site_devices ["core-a"; "core-b"; "core-c"]
    example_core_config example_access_config "core-c" "collapsed-core"
  = Ok {| switch_mac := "aabbcc000003"; switch_role := "collapsed-core";
          uplinks := ["aabbcc000001"]; downlinks := ["aabbcc000001"];
          switch_port_config := ∅ |}.
Proof.
  refine (eq_trans
            (switch_entry_peer site_devices "core-a" "core-b" ["core-c"]
               example_core_config example_access_config "core-c"
               {| device_mac := Some "AA-BB-CC-00-00-03"; device_id := Some "id-c" |}
               {| device_mac := Some "AA:BB:CC:00:00:01"; device_id := Some "id-a" |}
               _ _ _) _).
  - discriminate.
  - evaluate.
  - evaluate.
  - evaluate.
Defined.
